(** * simplemigrate: the migrator, its migration source and its integrity checks

    A shallow embedding of package [simplemigrate] (the [Migrator], its
    [readMigrations], [validate], [listFiles] and [computeHash]) together
    with the library functions it calls, followed by the properties of the
    reconciliation algorithm.

    Conventions.
    - A Go [string] is a [string]; a Go [[]byte] is a [list ascii].
    - A Go [int] is a [Z] inside the 64-bit two's complement range, with
      the wrap-around of arithmetic written out ([wrap64]).
    - A Go [error] is an [option error] ([None] is [nil]); a function that
      returns [(T, error)] returns a [Result T].
    - The collaborators (driver, validator, file system) are interfaces:
      type classes over the collaborator's state.  Every call made through
      an interface is appended to a log, so that the order of calls can be
      stated. *)

From Stdlib Require Import ZArith List String Ascii Bool Lia.
From Stdlib Require Import Sorting.Sorted Sorting.Permutation.
Import ListNotations.

Local Open Scope string_scope.
Local Open Scope list_scope.
Local Open Scope Z_scope.

(* ===================================================================== *)
(** ** Bytes and strings *)
(* ===================================================================== *)

Module Bytes.

Definition code (c : ascii) : Z := Z.of_N (N_of_ascii c).

(** The white space of [unicode.IsSpace] (and of [fmt]'s scanner, which
    uses the same table):
    U+0009..U+000D, U+0020, U+0085, U+00A0, U+1680, U+2000..U+200A,
    U+2028, U+2029, U+202F, U+205F, U+3000.
    A rune is recognised by its UTF-8 encoding, of one, two or three
    bytes; an invalid or truncated encoding decodes to U+FFFD, which is
    not white space. *)
Definition isSpace1 (c : ascii) : bool :=
  let b := code c in ((9 <=? b) && (b <=? 13)) || (b =? 32).

(** U+0085 is C2 85, U+00A0 is C2 A0. *)
Definition isSpace2 (c1 c2 : ascii) : bool :=
  (code c1 =? 194) && ((code c2 =? 133) || (code c2 =? 160)).

(** U+1680 is E1 9A 80; U+2000..U+200A are E2 80 80..8A; U+2028, U+2029
    and U+202F are E2 80 A8, A9 and AF; U+205F is E2 81 9F; U+3000 is
    E3 80 80. *)
Definition isSpace3 (c1 c2 c3 : ascii) : bool :=
  let b1 := code c1 in
  let b2 := code c2 in
  let b3 := code c3 in
  ((b1 =? 225) && (b2 =? 154) && (b3 =? 128))
  || ((b1 =? 226) && (b2 =? 128)
      && (((128 <=? b3) && (b3 <=? 138))
          || (b3 =? 168) || (b3 =? 169) || (b3 =? 175)))
  || ((b1 =? 226) && (b2 =? 129) && (b3 =? 159))
  || ((b1 =? 227) && (b2 =? 128) && (b3 =? 128)).

(** The loop of [bytes.TrimLeftFunc(s, unicode.IsSpace)] when [back] is
    [false]: decode the first rune, drop it while it is white space.
    With [back = true] the list is read as the reversed slice, so that
    the same loop is [bytes.TrimRightFunc]'s, which decodes the last
    rune. *)
Fixpoint dropSpaces (back : bool) (s : list ascii) : list ascii :=
  match s with
  | [] => []
  | c1 :: s1 =>
      if isSpace1 c1 then dropSpaces back s1
      else
        match s1 with
        | [] => s
        | c2 :: s2 =>
            if (if back then isSpace2 c2 c1 else isSpace2 c1 c2)
            then dropSpaces back s2
            else
              match s2 with
              | [] => s
              | c3 :: s3 =>
                  if (if back then isSpace3 c3 c2 c1 else isSpace3 c1 c2 c3)
                  then dropSpaces back s3
                  else s
              end
        end
  end.

(** [bytes.TrimSpace]: leading, then trailing white space removed. *)
Definition TrimSpace (s : list ascii) : list ascii :=
  rev (dropSpaces true (rev (dropSpaces false s))).

(** A slice made of white space only: a sequence of encoded white-space
    runes. *)
Inductive spaceOnly : list ascii -> Prop :=
| spaceOnly_nil : spaceOnly []
| spaceOnly_1 c s :
    isSpace1 c = true -> spaceOnly s -> spaceOnly (c :: s)
| spaceOnly_2 c1 c2 s :
    isSpace2 c1 c2 = true -> spaceOnly s -> spaceOnly (c1 :: c2 :: s)
| spaceOnly_3 c1 c2 c3 s :
    isSpace3 c1 c2 c3 = true -> spaceOnly s ->
    spaceOnly (c1 :: c2 :: c3 :: s).

End Bytes.

Module Strings.

(** [strings.Index(s, sub)]: the byte index of the first occurrence of
    [sub] in [s], or -1. *)
Fixpoint indexFrom (sub s : string) (i : Z) : Z :=
  if prefix sub s then i
  else match s with
       | EmptyString => -1
       | String _ s' => indexFrom sub s' (i + 1)
       end.

Definition Index (s sub : string) : Z := indexFrom sub s 0.

(** The slice expression [s[:i]]. *)
Definition sliceTo (s : string) (i : Z) : string :=
  substring 0 (Z.to_nat i) s.

(** [strings.HasSuffix(s, suffix)]:
    [len(s) >= len(suffix) && s[len(s)-len(suffix):] == suffix]. *)
Definition HasSuffix (s suffix : string) : bool :=
  (length suffix <=? length s)%nat
  && String.eqb (substring (length s - length suffix) (length suffix) s)
                suffix.

(** [strings.Split(s, sep)] for a non-empty [sep]: the pieces of [s]
    between the occurrences of [sep], found from the left and not
    overlapping.  [skip] counts the bytes of an occurrence still to be
    passed over.  The result has one element more than there are
    occurrences. *)
Fixpoint splitFrom (sep s : string) (skip : nat) : list string :=
  match s with
  | EmptyString => [EmptyString]
  | String c s' =>
      match skip with
      | S k => splitFrom sep s' k
      | O =>
          if prefix sep s
          then EmptyString :: splitFrom sep s' (length sep - 1)
          else match splitFrom sep s' 0 with
               | piece :: pieces => String c piece :: pieces
               | [] => [String c EmptyString]
               end
      end
  end.

Definition Split (s sep : string) : list string := splitFrom sep s 0.

End Strings.

(* ===================================================================== *)
(** ** [crypto/sha256] and the [%x] verb *)
(* ===================================================================== *)

Module Sha256.

Definition w32 (x : Z) : Z := x mod 2 ^ 32.
Definition add32 (x y : Z) : Z := w32 (x + y).
Definition rotr (n x : Z) : Z :=
  w32 (Z.lor (Z.shiftr x n) (Z.shiftl x (32 - n))).
Definition not32 (x : Z) : Z := Z.lxor x (2 ^ 32 - 1).

Definition Ch (x y z : Z) : Z := Z.lxor (Z.land x y) (Z.land (not32 x) z).
Definition Maj (x y z : Z) : Z :=
  Z.lxor (Z.lxor (Z.land x y) (Z.land x z)) (Z.land y z).
Definition Sigma0 (x : Z) : Z :=
  Z.lxor (Z.lxor (rotr 2 x) (rotr 13 x)) (rotr 22 x).
Definition Sigma1 (x : Z) : Z :=
  Z.lxor (Z.lxor (rotr 6 x) (rotr 11 x)) (rotr 25 x).
Definition sigma0 (x : Z) : Z :=
  Z.lxor (Z.lxor (rotr 7 x) (rotr 18 x)) (Z.shiftr x 3).
Definition sigma1 (x : Z) : Z :=
  Z.lxor (Z.lxor (rotr 17 x) (rotr 19 x)) (Z.shiftr x 10).

(** The first [n] prime numbers are among 2 .. 311 for [n <= 64]. *)
Definition isPrime (n : nat) : bool :=
  forallb (fun d => negb (Nat.eqb (Nat.modulo n d) 0)) (seq 2 (n - 2)).

Definition primes (n : nat) : list Z :=
  map Z.of_nat (firstn n (filter isPrime (seq 2 310))).

(** The integer cube root below [2 ^ bits], found bit by bit. *)
Fixpoint cbrtBits (bits : nat) (n root : Z) : Z :=
  match bits with
  | O => root
  | S b =>
      let c := root + 2 ^ Z.of_nat b in
      cbrtBits b n (if c * c * c <=? n then c else root)
  end.

(** The round constants: the first 32 bits of the fractional parts of the
    cube roots of the first 64 primes. *)
Definition K : list Z :=
  Eval vm_compute in
    map (fun p => w32 (cbrtBits 40 (p * 2 ^ 96) 0)) (primes 64).

(** The initial hash value: the first 32 bits of the fractional parts of
    the square roots of the first 8 primes. *)
Definition H0 : list Z :=
  Eval vm_compute in map (fun p => w32 (Z.sqrt (p * 2 ^ 64))) (primes 8).

(** Padding: the byte 0x80, zero bytes up to 56 modulo 64, then the
    length of the message in bits as eight big-endian bytes. *)
Definition be_bytes (n : nat) (x : Z) : list Z :=
  map (fun i => Z.shiftr x (8 * Z.of_nat i) mod 256) (rev (seq 0 n)).

Definition pad (msg : list Z) : list Z :=
  let len := Z.of_nat (List.length msg) in
  let zeros := Z.to_nat ((55 - len) mod 64) in
  msg ++ [0x80] ++ repeat 0 zeros ++ be_bytes 8 (8 * len).

Fixpoint be_words (bs : list Z) : list Z :=
  match bs with
  | b0 :: b1 :: b2 :: b3 :: rest =>
      (((b0 * 256 + b1) * 256 + b2) * 256 + b3) :: be_words rest
  | _ => []
  end.

(** The message schedule, most recent word first: [n] more words after
    the sixteen of the block. *)
Fixpoint schedule (n : nat) (recent : list Z) : list Z :=
  match n with
  | O => recent
  | S n' =>
      let wi :=
        add32 (add32 (add32 (sigma1 (nth 1 recent 0)) (nth 6 recent 0))
                     (sigma0 (nth 14 recent 0)))
              (nth 15 recent 0) in
      schedule n' (wi :: recent)
  end.

Record regs : Type :=
  Regs { ra : Z; rb : Z; rc : Z; rd : Z; re : Z; rf : Z; rg : Z; rh : Z }.

Definition round (r : regs) (kw : Z * Z) : regs :=
  let t1 :=
    add32 (add32 (add32 (add32 (rh r) (Sigma1 (re r)))
                        (Ch (re r) (rf r) (rg r)))
                 (fst kw))
          (snd kw) in
  let t2 := add32 (Sigma0 (ra r)) (Maj (ra r) (rb r) (rc r)) in
  Regs (add32 t1 t2) (ra r) (rb r) (rc r) (add32 (rd r) t1)
       (re r) (rf r) (rg r).

Definition regs_of (h : list Z) : regs :=
  Regs (nth 0 h 0) (nth 1 h 0) (nth 2 h 0) (nth 3 h 0)
       (nth 4 h 0) (nth 5 h 0) (nth 6 h 0) (nth 7 h 0).

Definition list_of (r : regs) : list Z :=
  [ra r; rb r; rc r; rd r; re r; rf r; rg r; rh r].

Definition compress (h : list Z) (block : list Z) : list Z :=
  let ws := rev (schedule 48 (rev (be_words block))) in
  let r := fold_left round (combine K ws) (regs_of h) in
  map (fun p => add32 (fst p) (snd p)) (combine h (list_of r)).

Fixpoint blocks (n : nat) (h : list Z) (bs : list Z) : list Z :=
  match n with
  | O => h
  | S n' => blocks n' (compress h (firstn 64 bs)) (skipn 64 bs)
  end.

(** [sha256.Sum256]: the 32 bytes of the digest. *)
Definition Sum256 (b : list ascii) : list Z :=
  let padded := pad (map Bytes.code b) in
  let h := blocks (Nat.div (List.length padded) 64) H0 padded in
  flat_map (be_bytes 4) h.

Definition hexDigit (d : Z) : ascii :=
  if d <? 10 then ascii_of_N (Z.to_N (48 + d))
  else ascii_of_N (Z.to_N (87 + d)).

(** [fmt.Sprintf("%x", digest)] for a byte array: two lower-case
    hexadecimal digits for every byte. *)
Fixpoint hex (bs : list Z) : string :=
  match bs with
  | [] => EmptyString
  | b :: rest => String (hexDigit (b / 16)) (String (hexDigit (b mod 16)) (hex rest))
  end.

End Sha256.

(** [computeHash]. *)
Definition computeHash (b : list ascii) : string :=
  Sha256.hex (Sha256.Sum256 b).

(* ===================================================================== *)
(** ** Errors *)
(* ===================================================================== *)

(** The package's error variables. *)
Inductive sentinel : Type :=
| ErrMigrationTableNameMissing
| ErrUnknownDriver
| ErrInvalidMigrationFile
| ErrMigrationFolder
| ErrInvalidQuery.

Definition sentinelText (s : sentinel) : string :=
  match s with
  | ErrMigrationTableNameMissing => "migrations table name cannot be empty"
  | ErrUnknownDriver => "unknown driver"
  | ErrInvalidMigrationFile => "invalid migration file"
  | ErrMigrationFolder => "invalid migration folder"
  | ErrInvalidQuery => "invalid query"
  end.

(** An error value: one of the error variables itself, an error made by
    [fmt.Errorf] with one [%w] over an error variable (with its formatted
    text), or an error made elsewhere (by a collaborator or by the
    library), known by its text. *)
Inductive error : Type :=
| ErrVar (s : sentinel)
| Errorf (wrapped : sentinel) (text : string)
| Foreign (text : string).

(** [err.Error()]. *)
Definition Error (e : error) : string :=
  match e with
  | ErrVar s => sentinelText s
  | Errorf _ text => text
  | Foreign text => text
  end.

Definition sentinel_eqb (a b : sentinel) : bool :=
  match a, b with
  | ErrMigrationTableNameMissing, ErrMigrationTableNameMissing
  | ErrUnknownDriver, ErrUnknownDriver
  | ErrInvalidMigrationFile, ErrInvalidMigrationFile
  | ErrMigrationFolder, ErrMigrationFolder
  | ErrInvalidQuery, ErrInvalidQuery => true
  | _, _ => false
  end.

(** [errors.Is(e, target)] for an error variable [target]. *)
Definition errorsIs (e : error) (target : sentinel) : bool :=
  match e with
  | ErrVar s => sentinel_eqb s target
  | Errorf s _ => sentinel_eqb s target
  | Foreign _ => false
  end.

(** [fmt.Errorf("%w: %s", s, msg)]. *)
Definition wrapf (s : sentinel) (msg : string) : error :=
  Errorf s (sentinelText s ++ ": " ++ msg)%string.

Inductive Result (T : Type) : Type :=
| Ok (v : T)
| Err (e : error).
Arguments Ok {T} v.
Arguments Err {T} e.

(* ===================================================================== *)
(** ** The 64-bit [int] *)
(* ===================================================================== *)

Definition minInt64 : Z := - 2 ^ 63.
Definition maxInt64 : Z := 2 ^ 63 - 1.

Definition inInt64 (x : Z) : Prop := minInt64 <= x <= maxInt64.

(** The value an [int] holds after an operation whose exact result is [x]. *)
Definition wrap64 (x : Z) : Z := (x + 2 ^ 63) mod 2 ^ 64 - 2 ^ 63.

(* ===================================================================== *)
(** ** [fmt.Sscanf] with the format [%d] *)
(* ===================================================================== *)

Module Fmt.

(** The scanner's [SkipSpace] for [Sscanf], where a newline is not
    white space but an error ([None]); any other white-space rune is
    passed over.  (A carriage return before a newline is passed over
    like any carriage return, and the newline is then the error.) *)
Fixpoint SkipSpace (s : list ascii) : option (list ascii) :=
  match s with
  | [] => Some []
  | c1 :: s1 =>
      if Bytes.code c1 =? 10 then None
      else if Bytes.isSpace1 c1 then SkipSpace s1
      else
        match s1 with
        | [] => Some s
        | c2 :: s2 =>
            if Bytes.isSpace2 c1 c2 then SkipSpace s2
            else
              match s2 with
              | [] => Some s
              | c3 :: s3 =>
                  if Bytes.isSpace3 c1 c2 c3 then SkipSpace s3 else Some s
              end
        end
  end.

Definition isSign (c : ascii) : bool :=
  (Bytes.code c =? 43) || (Bytes.code c =? 45).

Definition isDecimal (c : ascii) : bool :=
  (48 <=? Bytes.code c) && (Bytes.code c <=? 57).

(** The scanner's digits for base 10: [0123456789_]. *)
Definition isDigitChar (c : ascii) : bool :=
  isDecimal c || (Bytes.code c =? 95).

(** [for s.accept(digits) {}]: the longest run of digit characters. *)
Fixpoint acceptDigits (s : list ascii) : list ascii :=
  match s with
  | c :: s' => if isDigitChar c then c :: acceptDigits s' else []
  | [] => []
  end.

(** [strconv.ParseUint(tok, 10, 64)] on digit characters: an underscore
    is a syntax error in base 10, a value that does not fit 64 bits a
    range error. *)
Fixpoint parseDigits (acc : Z) (tok : list ascii) : option Z :=
  match tok with
  | [] => Some acc
  | c :: tok' =>
      if isDecimal c
      then parseDigits (10 * acc + (Bytes.code c - 48)) tok'
      else None
  end.

Definition ParseUint (tok : list ascii) : option Z :=
  match parseDigits 0 tok with
  | Some un => if un <=? 2 ^ 64 - 1 then Some un else None
  | None => None
  end.

(** [strconv.ParseInt(sign + tok, 10, 64)]. *)
Definition ParseInt (neg : bool) (tok : list ascii) : option Z :=
  match ParseUint tok with
  | Some un =>
      if negb neg && (2 ^ 63 <=? un) then None
      else if neg && (2 ^ 63 <? un) then None
      else Some (if neg then - un else un)
  | None => None
  end.

(** The scanner's [scanInt] for the verb [d]: white space, an optional
    sign, at least one digit character, then every digit character that
    follows.  What follows the number is left unread. *)
Definition scanInt (s : list ascii) : option Z :=
  match SkipSpace s with
  | None => None
  | Some [] => None
  | Some ((c :: s1) as s0) =>
      let neg := Bytes.code c =? 45 in
      let body := if isSign c then s1 else s0 in
      match body with
      | [] => None
      | d :: _ =>
          if isDigitChar d then ParseInt neg (acceptDigits body) else None
      end
  end.

(** [fmt.Sscanf(str, "%d", &v)]: [Some v] when the returned error is
    [nil].  Input left after the number is not an error. *)
Definition Sscanf_d (str : string) : option Z :=
  scanInt (list_ascii_of_string str).

End Fmt.

(* ===================================================================== *)
(** ** [sort.Slice] *)
(* ===================================================================== *)

Section Sort.
Context {A : Type} (less : A -> A -> bool).

Fixpoint insertSorted (x : A) (l : list A) : list A :=
  match l with
  | [] => [x]
  | y :: l' => if less x y then x :: l else y :: insertSorted x l'
  end.

(** [sort.Slice(items, less)].  The library promises an order sorted
    for [less] and nothing about elements that compare equal; this is
    the insertion sort it runs on short slices.  The properties below
    use only that the result is a sorted rearrangement of the input. *)
Definition sortSlice (l : list A) : list A :=
  fold_left (fun acc x => insertSorted x acc) l [].
End Sort.

(* ===================================================================== *)
(** ** The data model and the collaborators *)
(* ===================================================================== *)

(** [Migration].  [AppliedAt] is a nullable time, kept as an instant. *)
Record Migration : Type := mkMigration {
  Version : Z;
  Fname : string;
  AppliedAt : option Z;
  Statements : list string;
  Hash : string
}.

(** What [fs.DirEntry] gives to [listFiles]. *)
Record DirEntry : Type := mkDirEntry {
  Name : string;
  IsDir : bool
}.

(** [DBDriver]: every method may change the state of the database behind
    the driver, so it returns the new state with its result. *)
Class DBDriver (D : Type) : Type := {
  Dialect : D -> string;
  Close : D -> option error * D;
  CreateMigrationsTable : string -> D -> option error * D;
  SelectMigrations : string -> D -> Result (list Migration) * D;
  ApplyMigrations :
    string -> bool -> list Migration -> D -> option error * D
}.

(** [QueryValidator]: [ValidateQuery dialect query]. *)
Class QueryValidator (V : Type) : Type := {
  ValidateQuery : string -> string -> V -> option error * V
}.

(** The file system behind [fs.FS], as [fs.ReadDir] and [fs.ReadFile]
    read it. *)
Class FS (F : Type) : Type := {
  ReadDir : F -> string -> Result (list DirEntry);
  ReadFile : F -> string -> Result (list ascii)
}.

(** A call made through one of the interfaces. *)
Inductive Call : Type :=
| CallCreateMigrationsTable (migrationsTable : string)
| CallSelectMigrations (migrationsTable : string)
| CallApplyMigrations
    (migrationsTable : string) (inTx : bool) (migrations : list Migration)
| CallDialect
| CallValidateQuery (dialect query : string)
| CallReadDir (dir : string)
| CallReadFile (name : string).

Definition isApply (c : Call) : bool :=
  match c with CallApplyMigrations _ _ _ => true | _ => false end.

Definition isValidate (c : Call) : bool :=
  match c with CallValidateQuery _ _ => true | _ => false end.

(** A call to the store (the driver). *)
Definition isStoreCall (c : Call) : bool :=
  match c with
  | CallCreateMigrationsTable _ | CallSelectMigrations _
  | CallApplyMigrations _ _ _ | CallDialect => true
  | _ => false
  end.

(** The statement separator of a migration file. *)
Definition separator : string := "-- migrate:next".

(** [migration.Version < other.Version], the order given to [sort.Slice]. *)
Definition lessVersion (a b : Migration) : bool := Version a <? Version b.

(** Lines 251 to 262 of [readMigrations]: the version of a file name. *)
Definition parseVersion (file : string) : Result Z :=
  let idx := Strings.Index file "_" in
  if idx =? -1
  then Err (wrapf ErrInvalidMigrationFile (file ++ " must have a version"))
  else
    match Fmt.Sscanf_d (Strings.sliceTo file idx) with
    | None =>
        Err (wrapf ErrInvalidMigrationFile
                   (file ++ " must have an integer version"))
    | Some version =>
        if version =? 0
        then Err (wrapf ErrInvalidMigrationFile
                        (file ++ " must have a non-zero version"))
        else Ok version
    end.

(** Lines 269 to 275: the hash and the statements of a file's content. *)
Definition parseContent (version : Z) (file : string) (data : list ascii)
  : Migration :=
  let data := Bytes.TrimSpace data in
  {| Version := version;
     Fname := file;
     AppliedAt := None;
     Hash := computeHash data;
     Statements := Strings.Split (string_of_list_ascii data) separator |}.

(** Lines 284 to 294 of [readMigrations], on the sorted items. *)
Fixpoint checkSteps (prev : Migration) (rest : list Migration)
  : option error :=
  match rest with
  | [] => None
  | cur :: rest' =>
      if negb (wrap64 (Version cur - Version prev) =? 1)
      then Some (Errorf ErrInvalidMigrationFile
                   (sentinelText ErrInvalidMigrationFile ++ ": "
                    ++ "migrations must have sequential versions"
                    ++ " (" ++ Fname prev ++ " - " ++ Fname cur ++ ")"))
      else checkSteps cur rest'
  end.

Definition checkSequence (items : list Migration) : option error :=
  match items with
  | [] => None
  | first :: rest =>
      if negb (Version first =? 1)
      then Some (wrapf ErrInvalidMigrationFile
                       "first migration must have version 1")
      else checkSteps first rest
  end.

(** The loop of [listFiles] over the directory's entries. *)
Fixpoint listEntries (entries : list DirEntry) (files : list string)
  : Result (list string) :=
  match entries with
  | [] => Ok files
  | entry :: rest =>
      if IsDir entry
      then Err (wrapf ErrMigrationFolder "cannot contain a folder")
      else if negb (Strings.HasSuffix (Name entry) ".sql")
      then Err (wrapf ErrInvalidMigrationFile
                      (Name entry ++ " must have .sql extension"))
      else listEntries rest (files ++ [Name entry])
  end.

(** Lines 207 to 215 of [Migrate]: the loop over the applied migrations.
    It runs after [len(localMigrations) >= len(appliedMigrations)] is known;
    without it [localMigrations[i]] would be out of range. *)
Fixpoint checkApplied (appliedMigrations localMigrations : list Migration)
  : option error :=
  match appliedMigrations, localMigrations with
  | [], _ => None
  | _ :: _, [] => Some (Foreign "runtime error: index out of range")
  | a :: applied', l :: local' =>
      if negb (Version a =? Version l)
      then Some (wrapf ErrInvalidMigrationFile
                   "local migrations are not in sync with applied migrations")
      else if negb (String.eqb (Hash a) (Hash l))
      then Some (wrapf ErrInvalidMigrationFile
                   "local migrations are not in sync with applied migrations")
      else checkApplied applied' local'
  end.

(* ===================================================================== *)
(** ** The migrator *)
(* ===================================================================== *)

Section Migrator.
Context {D V F : Type}
        {drv : DBDriver D} {qv : QueryValidator V} {fsys : FS F}.

(** [Migrator] (the printer is never used and is left out). *)
Record Migrator : Type := mkMigrator {
  driver : D;
  migrationsTable : string;
  folder : F;
  qvalidator : option V;
  inTransaction : bool
}.

(** A run: the migrator, whose collaborators change state as they are
    called, and the calls made so far, oldest first. *)
Record World : Type := mkWorld {
  mig : Migrator;
  calls : list Call
}.

Definition M (A : Type) : Type := World -> Result A * World.

Definition ret {A} (a : A) : M A := fun w => (Ok a, w).
Definition fail {A} (e : error) : M A := fun w => (Err e, w).
Definition bind {A B} (c : M A) (k : A -> M B) : M B :=
  fun w =>
    match c w with
    | (Ok a, w') => k a w'
    | (Err e, w') => (Err e, w')
    end.

Notation "x <- c ;; k" := (bind c (fun x => k))
  (at level 61, c at next level, right associativity).
Notation "c ;;; k" := (bind c (fun _ => k))
  (at level 61, right associativity).

Definition ofError (r : option error) : Result unit :=
  match r with None => Ok tt | Some e => Err e end.

Definition logged (c : Call) (w : World) : list Call := calls w ++ [c].

Definition withDriver (m : Migrator) (d : D) : Migrator :=
  mkMigrator d (migrationsTable m) (folder m) (qvalidator m)
             (inTransaction m).

Definition withValidator (m : Migrator) (v : V) : Migrator :=
  mkMigrator (driver m) (migrationsTable m) (folder m) (Some v)
             (inTransaction m).

(** [m.driver.CreateMigrationsTable(ctx, m.migrationsTable)]. *)
Definition callCreateMigrationsTable : M unit :=
  fun w =>
    let m := mig w in
    let (r, d) := CreateMigrationsTable (migrationsTable m) (driver m) in
    (ofError r,
     mkWorld (withDriver m d)
             (logged (CallCreateMigrationsTable (migrationsTable m)) w)).

(** [m.driver.SelectMigrations(ctx, m.migrationsTable)]. *)
Definition callSelectMigrations : M (list Migration) :=
  fun w =>
    let m := mig w in
    let (r, d) := SelectMigrations (migrationsTable m) (driver m) in
    (r,
     mkWorld (withDriver m d)
             (logged (CallSelectMigrations (migrationsTable m)) w)).

(** [m.driver.ApplyMigrations(ctx, m.migrationsTable, m.inTransaction,
    toApply)]. *)
Definition callApplyMigrations (toApply : list Migration) : M unit :=
  fun w =>
    let m := mig w in
    let (r, d) :=
      ApplyMigrations (migrationsTable m) (inTransaction m) toApply
                      (driver m) in
    (ofError r,
     mkWorld (withDriver m d)
             (logged (CallApplyMigrations (migrationsTable m)
                                          (inTransaction m) toApply) w)).

(** [m.driver.Dialect()]. *)
Definition callDialect : M string :=
  fun w => (Ok (Dialect (driver (mig w))), mkWorld (mig w) (logged CallDialect w)).

(** [m.qvalidator.ValidateQuery(ctx, dialect, statement)], its error
    returned as a value. *)
Definition callValidateQuery (v : V) (dialect statement : string)
  : M (option error) :=
  fun w =>
    let (r, v') := ValidateQuery dialect statement v in
    (Ok r,
     mkWorld (withValidator (mig w) v')
             (logged (CallValidateQuery dialect statement) w)).

(** [fs.ReadDir(m.folder, dir)]. *)
Definition callReadDir (dir : string) : M (list DirEntry) :=
  fun w =>
    (ReadDir (folder (mig w)) dir,
     mkWorld (mig w) (logged (CallReadDir dir) w)).

(** [fs.ReadFile(m.folder, file)]. *)
Definition callReadFile (file : string) : M (list ascii) :=
  fun w =>
    (ReadFile (folder (mig w)) file,
     mkWorld (mig w) (logged (CallReadFile file) w)).

Definition ofResult {A} (r : Result A) : M A := fun w => (r, w).

(** A [for _, x := range xs] whose body may return an error. *)
Fixpoint forEach {A} (body : A -> M unit) (xs : list A) : M unit :=
  match xs with
  | [] => ret tt
  | x :: xs' => body x ;;; forEach body xs'
  end.

(** [listFiles]. *)
Definition listFiles (dir : string) : M (list string) :=
  entries <- callReadDir dir ;;
  ofResult (listEntries entries []).

(** The loop of [readMigrations] over the files. *)
Fixpoint readFiles (files : list string) (items : list Migration)
  : M (list Migration) :=
  match files with
  | [] => ret items
  | file :: rest =>
      version <- ofResult (parseVersion file) ;;
      data <- callReadFile file ;;
      readFiles rest (items ++ [parseContent version file data])
  end.

(** [readMigrations]. *)
Definition readMigrations : M (list Migration) :=
  files <- listFiles "." ;;
  items <- readFiles files [] ;;
  let items := sortSlice lessVersion items in
  match checkSequence items with
  | Some e => fail e
  | None => ret items
  end.

(** The body of the loop of [validate] over the statements. *)
Definition validateStatement (fname : string) (statement : string)
  : M unit :=
  fun w =>
    match qvalidator (mig w) with
    | None => (Ok tt, w)
    | Some v =>
        (dialect <- callDialect ;;
         r <- callValidateQuery v dialect statement ;;
         match r with
         | Some err =>
             fail (Errorf ErrInvalidQuery
                     (fname ++ ": " ++ sentinelText ErrInvalidQuery
                      ++ " " ++ Error err))
         | None => ret tt
         end) w
    end.

(** [validate]. *)
Definition validate (migration : Migration) : M unit :=
  if (List.length (Statements migration) =? 0)%nat
  then fail (wrapf ErrInvalidMigrationFile
                   (Fname migration ++ " is empty"))
  else
    fun w =>
      match qvalidator (mig w) with
      | None => (Ok tt, w)
      | Some _ =>
          forEach (validateStatement (Fname migration))
                  (Statements migration) w
      end.

(** Lines 219 to 234 of [Migrate]: what is done with [toApply]. *)
Definition applyPending (toApply : list Migration) : M unit :=
  if (List.length toApply =? 0)%nat
  then ret tt
  else
    forEach validate toApply ;;;
    callApplyMigrations toApply.

(** Lines 203 to 217 of [Migrate]: the consistency check, which gives
    [toApply]. *)
Definition reconcile (localMigrations appliedMigrations : list Migration)
  : Result (list Migration) :=
  if (List.length localMigrations <? List.length appliedMigrations)%nat
  then Err (wrapf ErrInvalidMigrationFile
              "local migrations are less than applied migrations")
  else
    match checkApplied appliedMigrations localMigrations with
    | Some e => Err e
    | None => Ok (skipn (List.length appliedMigrations) localMigrations)
    end.

(** [Migrate] (what it prints is left out). *)
Definition Migrate : M unit :=
  callCreateMigrationsTable ;;;
  localMigrations <- readMigrations ;;
  appliedMigrations <- callSelectMigrations ;;
  toApply <- ofResult (reconcile localMigrations appliedMigrations) ;;
  applyPending toApply.

End Migrator.

Arguments Migrator D V F : clear implicits.
Arguments World D V F : clear implicits.

(* ===================================================================== *)
(** ** The vocabulary of the properties *)
(* ===================================================================== *)

(** A lower-case hexadecimal digit: [0-9a-f]. *)
Definition isLowerHex (c : ascii) : bool :=
  let b := Bytes.code c in
  ((48 <=? b) && (b <=? 57)) || ((97 <=? b) && (b <=? 102)).

Fixpoint allChars (p : ascii -> bool) (s : string) : bool :=
  match s with
  | EmptyString => true
  | String c s' => p c && allChars p s'
  end.

Definition isByte (b : Z) : Prop := 0 <= b < 256.

(** Versions never decrease along the list. *)
Definition ascending (l : list Migration) : Prop :=
  StronglySorted (fun a b => Version a <= Version b) l.

Definition versionsInRange (l : list Migration) : Prop :=
  Forall (fun m => inInt64 (Version m)) l.

(** The versions [vs] have a gap: a version is there, and a smaller
    positive number is not. *)
Definition hasGap (vs : list Z) : Prop :=
  exists hi k, In hi vs /\ 1 <= k < hi /\ ~ In k vs.

(** The text of the error of [validate] for the report [err] on a
    statement of the file [fname]. *)
Definition invalidQuery (fname : string) (err : error) : error :=
  Errorf ErrInvalidQuery
         (fname ++ ": " ++ sentinelText ErrInvalidQuery ++ " " ++ Error err).

(** The calls that validating the statements [stmts] takes, for the
    dialect [d]. *)
Definition validationCalls (d : string) (stmts : list string) : list Call :=
  flat_map (fun s => [CallDialect; CallValidateQuery d s]) stmts.

(** The calls of the first three steps of [Migrate]. *)
Definition loadingCalls (migrationsTable : string) (files : list string)
  : list Call :=
  CallCreateMigrationsTable migrationsTable
  :: CallReadDir "."
  :: map CallReadFile files ++ [CallSelectMigrations migrationsTable].

Section Vocabulary.
Context {D V F : Type}
        {drv : DBDriver D} {qv : QueryValidator V} {fsys : FS F}.

(** [m] is what [readMigrations] makes of the file [file] of folder [f]. *)
Definition parsedFrom (f : F) (file : string) (m : Migration) : Prop :=
  exists version data,
    parseVersion file = Ok version
    /\ ReadFile f file = Ok data
    /\ m = parseContent version file data.

(** The calls made between two moments of a run. *)
Definition newCalls (w w' : World D V F) : list Call :=
  skipn (List.length (calls w)) (calls w').

(** The validator [v] given the statements [stmts] one after the other
    until it reports a problem: the statements it was given, its report,
    and its state afterwards. *)
Fixpoint runValidator (v : V) (d : string) (stmts : list string)
  : list string * option error * V :=
  match stmts with
  | [] => ([], None, v)
  | s :: rest =>
      match ValidateQuery d s v with
      | (Some err, v') => ([s], Some err, v')
      | (None, v') =>
          let '(given, r, v'') := runValidator v' d rest in
          (s :: given, r, v'')
      end
  end.

(** A stretch of a run that leaves the store alone but for asking its
    dialect: no batch is applied. *)
Definition quietStep (w w' : World D V F) : Prop :=
  driver (mig w') = driver (mig w)
  /\ migrationsTable (mig w') = migrationsTable (mig w)
  /\ inTransaction (mig w') = inTransaction (mig w)
  /\ exists l, calls w' = calls w ++ l /\ existsb isApply l = false.

End Vocabulary.

(* ===================================================================== *)
(** ** Collaborators for the examples *)
(* ===================================================================== *)

Module Mocks.

(** A driver that answers as scripted, like the mock of the tests. *)
Record MockDriver : Type := mkMockDriver {
  dialectReturns : string;
  createReturns : option error;
  selectReturns : Result (list Migration);
  applyReturns : option error
}.

#[export] Instance mockDriver : DBDriver MockDriver := {
  Dialect d := dialectReturns d;
  Close d := (None, d);
  CreateMigrationsTable _ d := (createReturns d, d);
  SelectMigrations _ d := (selectReturns d, d);
  ApplyMigrations _ _ _ d := (applyReturns d, d)
}.

(** A validator that reports the statements of a list. *)
Definition Rejecting : Type := list string.

#[export] Instance rejecting : QueryValidator Rejecting := {
  ValidateQuery _ query v :=
    (if existsb (String.eqb query) v
     then Some (Foreign "rejected") else None, v)
}.

(** A folder in memory: the entries of its root in order, a file with
    its content, a sub-folder with none. *)
Definition MemFS : Type := list (string * option (list ascii)).

Fixpoint lookupFile (f : MemFS) (name : string) : Result (list ascii) :=
  match f with
  | [] => Err (Foreign "file does not exist")
  | (n, content) :: f' =>
      if String.eqb n name
      then match content with
           | Some data => Ok data
           | None => Err (Foreign "is a directory")
           end
      else lookupFile f' name
  end.

#[export] Instance memFS : FS MemFS := {
  ReadDir f _ :=
    Ok (map (fun e => mkDirEntry (fst e)
                        (match snd e with None => true | Some _ => false end))
            f);
  ReadFile f name := lookupFile f name
}.

Definition file (name content : string) : string * option (list ascii) :=
  (name, Some (list_ascii_of_string content)).

Definition emptyStore : MockDriver :=
  mkMockDriver "sqlite" None (Ok []) None.

Definition start (d : MockDriver) (f : MemFS) (v : option Rejecting)
  : World MockDriver Rejecting MemFS :=
  mkWorld (mkMigrator d "schema_migrations" f v false) [].

(** The folder of the tests: [1_demo.sql]. *)
Definition demoStatement : string := "CREATE TABLE demo (id INT NOT NULL);".
Definition demoFolder : MemFS := [file "1_demo.sql" demoStatement].
Definition demoHash : string :=
  "5b57bc7ecd6c47d492b2587471ff82890ca185f405f089d5aaaf88519a2974f2".
Definition m1 : Migration :=
  mkMigration 1 "1_demo.sql" None [demoStatement] demoHash.

(** A folder with a gap: [1_x.sql] and [3_y.sql]. *)
Definition gapFolder : MemFS :=
  [file "1_x.sql" "CREATE TABLE x (id INT);";
   file "3_y.sql" "CREATE TABLE y (id INT);"].

(** A folder whose only file holds white space. *)
Definition blankFolder : MemFS :=
  [("1_blank.sql", Some [" "%char; ascii_of_nat 10; ascii_of_nat 9])].

End Mocks.
Import Mocks.

Module Scenarios.

(** The result of a computation that cannot fail here. *)
Definition okOr {A} (default : A) (r : Result A) : A :=
  match r with Ok a => a | Err _ => default end.

(** Two migrations, the second of two statements. *)
Definition twoFolder : MemFS :=
  [file "1_a.sql" "CREATE TABLE a (id INT);";
   file "2_b.sql"
        "CREATE TABLE b (id INT); -- migrate:next CREATE INDEX b_id ON b (id);"].

Definition twoLocal : list Migration :=
  Eval vm_compute in
    okOr [] (fst (readMigrations (start emptyStore twoFolder None))).

(** A store on which the first of them is applied. *)
Definition oneApplied : MockDriver :=
  mkMockDriver "sqlite" None (Ok (firstn 1 twoLocal)) None.

(** A store whose record of [1_demo.sql] has another hash. *)
Definition staleHash : string :=
  "e3b0c44298fc1c149afbf4c8996fb92427ae41e4649b934ca495991b7852b855".
Definition staleRecord : Migration :=
  mkMigration 1 "1_demo.sql" (Some 0) [] staleHash.
Definition diverged : MockDriver :=
  mkMockDriver "sqlite" None (Ok [staleRecord]) None.

(** A store that cannot make the tracking table. *)
Definition broken : MockDriver :=
  mkMockDriver "sqlite" (Some (Foreign "error")) (Ok []) None.

(** A validator that reports the second statement of [2_b.sql]. *)
Definition noIndexes : Rejecting := [" CREATE INDEX b_id ON b (id);"].

(** The migrations of the folder with a gap, as read. *)
Definition gapRaw : list Migration :=
  Eval vm_compute in
    [parseContent 1 "1_x.sql" (list_ascii_of_string "CREATE TABLE x (id INT);");
     parseContent 3 "3_y.sql" (list_ascii_of_string "CREATE TABLE y (id INT);")].

(** The migration read from the file of white space. *)
Definition blank : Migration :=
  mkMigration 1 "1_blank.sql" None [EmptyString]
    "e3b0c44298fc1c149afbf4c8996fb92427ae41e4649b934ca495991b7852b855".

(** A folder whose file name has letters after the digits. *)
Definition lettersFolder : MemFS := [file "1abc_x.sql" demoStatement].

(** The worlds of a run after each of its first three steps. *)
Definition afterCreate (w : World MockDriver Rejecting MemFS) :=
  snd (callCreateMigrationsTable w).
Definition afterRead (w : World MockDriver Rejecting MemFS) :=
  snd (readMigrations (afterCreate w)).
Definition afterSelect (w : World MockDriver Rejecting MemFS) :=
  snd (callSelectMigrations (afterRead w)).

End Scenarios.
Import Scenarios.

(* ===================================================================== *)
(** ** More vocabulary: entries, calls and single files *)
(* ===================================================================== *)

(** An entry that [listFiles] refuses: a folder, or a name that does not
    end in [.sql]. *)
Definition refused (entry : DirEntry) : bool :=
  IsDir entry || negb (Strings.HasSuffix (Name entry) ".sql").

(** A call to the file system. *)
Definition isFSCall (c : Call) : bool :=
  match c with CallReadDir _ | CallReadFile _ => true | _ => false end.

Definition isCreate (c : Call) : bool :=
  match c with CallCreateMigrationsTable _ => true | _ => false end.

Definition isSelect (c : Call) : bool :=
  match c with CallSelectMigrations _ => true | _ => false end.

(** The versions 1, 2, ..., n. *)
Definition oneTo (n : nat) : list Z := map Z.of_nat (seq 1 n).

(** A call made while validating: the store's dialect is asked, or the
    validator is given a statement. *)
Definition isCheck (c : Call) : bool :=
  match c with CallDialect | CallValidateQuery _ _ => true | _ => false end.

(** What the consistency check compares of a migration. *)
Definition key (m : Migration) : Z * string := (Version m, Hash m).

Section RunVocabulary.
Context {D V F : Type}.

(** A stretch of a run that keeps the configuration and makes calls of
    one kind only. *)
Definition stretch (kind : Call -> bool) (w w' : World D V F) : Prop :=
  migrationsTable (mig w') = migrationsTable (mig w)
  /\ inTransaction (mig w') = inTransaction (mig w)
  /\ folder (mig w') = folder (mig w)
  /\ exists l, calls w' = calls w ++ l /\ forallb kind l = true.

End RunVocabulary.

Module MemoryStore.

(** A store in memory that keeps its contract: the rows of the tracking
    table in the order of their versions; applying a batch records one
    row for each of its migrations, and a row has no statements. *)
Definition MemStore : Type := list Migration.

Definition record (m : Migration) : Migration :=
  mkMigration (Version m) (Fname m) (Some 0) [] (Hash m).

#[export] Instance memStore : DBDriver MemStore := {
  Dialect _ := "sqlite";
  Close d := (None, d);
  CreateMigrationsTable _ d := (None, d);
  SelectMigrations _ d := (Ok d, d);
  ApplyMigrations _ _ batch d := (None, d ++ map record batch)
}.

Definition startMem (d : MemStore) (f : MemFS)
  : World MemStore Rejecting MemFS :=
  mkWorld (mkMigrator d "schema_migrations" f None false) [].

End MemoryStore.
Import MemoryStore.

(** The number that decimal digits write, the most significant first. *)
Definition decimalValue (digits : list ascii) : Z :=
  fold_left (fun acc c => 10 * acc + (Bytes.code c - 48)) digits 0.

(** [strings.Join(elems, sep)]. *)
Fixpoint Join (elems : list string) (sep : string) : string :=
  match elems with
  | [] => EmptyString
  | [a] => a
  | a :: rest => (a ++ sep ++ Join rest sep)%string
  end.

(** The slice expression [s[n:]]. *)
Fixpoint sliceFrom (n : nat) (s : string) : string :=
  match n, s with
  | O, _ => s
  | S _, EmptyString => EmptyString
  | S k, String _ s' => sliceFrom k s'
  end.

(** A byte that continues a UTF-8 encoding: [10xxxxxx]. *)
Definition continuation (c : ascii) : Prop := 128 <= Bytes.code c < 192.

(* ===================================================================== *)
(** ** Constructing a migrator: [New] and its options *)
(* ===================================================================== *)

(** The outcome of a function that may panic. *)
Inductive Outcome (A : Type) : Type :=
| Returned (a : A)
| Panicked (e : error).
Arguments Returned {A} a.
Arguments Panicked {A} e.

(** What [os.Stat] says of a path: the file's information (here whether
    it is a directory), an error for which [os.IsNotExist] holds, or
    another error. *)
Inductive StatResult : Type :=
| StatInfo (isDirectory : bool)
| StatNotExist
| StatError (err : error).

Definition defaultMigrationsTable : string := "schema_migrations".

Section Construction.
Context {D V F : Type}.

(** [os.Stat], and [filesystem.NewSystemFS]. *)
Variable Stat : string -> StatResult.
Variable NewSystemFS : string -> F.

(** A migrator under construction: its folder may still be [nil]. *)
Definition Draft : Type := Migrator D V (option F).

(** [Option]: a function that changes the migrator and may return an
    error. *)
Definition Option : Type := Draft -> option error * Draft.

(** [isDir]. *)
Definition isDir (path : string) : Result bool :=
  match Stat path with
  | StatInfo isDirectory => Ok isDirectory
  | StatNotExist => Ok false
  | StatError err => Err err
  end.

(** [WithInTransaction]. *)
Definition WithInTransaction : Option :=
  fun m =>
    (None,
     mkMigrator (driver m) (migrationsTable m) (folder m) (qvalidator m) true).

(** [WithQueryValidator]; the validator given may be [nil]. *)
Definition WithQueryValidator (validator : option V) : Option :=
  fun m =>
    (None,
     mkMigrator (driver m) (migrationsTable m) (folder m) validator
                (inTransaction m)).

(** [WithSystemFS]. *)
Definition WithSystemFS (root : string) : Option :=
  fun m =>
    match isDir root with
    | Err err => (Some (wrapf ErrMigrationFolder (Error err)), m)
    | Ok false =>
        (Some (wrapf ErrMigrationFolder (root ++ " does not exist")), m)
    | Ok true =>
        (None,
         mkMigrator (driver m) (migrationsTable m) (Some (NewSystemFS root))
                    (qvalidator m) (inTransaction m))
    end.

(** [WithEmbedFS]; the file system given may be [nil]. *)
Definition WithEmbedFS (f : option F) : Option :=
  fun m =>
    (None,
     mkMigrator (driver m) (migrationsTable m) f (qvalidator m)
                (inTransaction m)).

(** [WithMigrationTable]. *)
Definition WithMigrationTable (table : string) : Option :=
  fun m =>
    if String.eqb table EmptyString
    then (Some (ErrVar ErrMigrationTableNameMissing), m)
    else
      (None,
       mkMigrator (driver m) table (folder m) (qvalidator m)
                  (inTransaction m)).

(** The loop of [New] over the options: it panics with the error of the
    first option that returns one. *)
Fixpoint applyOptions (opts : list Option) (ans : Draft) : Outcome Draft :=
  match opts with
  | [] => Returned ans
  | opt :: rest =>
      match opt ans with
      | (Some err, _) => Panicked err
      | (None, ans') => applyOptions rest ans'
      end
  end.

(** [New]. *)
Definition New (d : D) (opts : list Option) : Outcome (Migrator D V F) :=
  match applyOptions opts
          (mkMigrator d defaultMigrationsTable None None false) with
  | Panicked err => Panicked err
  | Returned ans =>
      Returned
        (mkMigrator (driver ans) (migrationsTable ans)
                    (match folder ans with
                     | Some f => f
                     | None => NewSystemFS "migrations"
                     end)
                    (qvalidator ans) (inTransaction ans))
  end.

(** The options of the package, by name. *)
Inductive Setting : Type :=
| SetInTransaction
| SetQueryValidator (validator : option V)
| SetSystemFS (root : string)
| SetEmbedFS (f : option F)
| SetMigrationTable (table : string).

Definition toOption (s : Setting) : Option :=
  match s with
  | SetInTransaction => WithInTransaction
  | SetQueryValidator validator => WithQueryValidator validator
  | SetSystemFS root => WithSystemFS root
  | SetEmbedFS f => WithEmbedFS f
  | SetMigrationTable table => WithMigrationTable table
  end.

(** A setting that its option accepts: a table name that is not empty, a
    root that [os.Stat] reports as a directory. *)
Definition accepted (s : Setting) : Prop :=
  match s with
  | SetMigrationTable table => table <> EmptyString
  | SetSystemFS root => Stat root = StatInfo true
  | _ => True
  end.

(** The table names, folders and validators that a list of settings
    asks for, in order. *)
Definition tables (settings : list Setting) : list string :=
  flat_map (fun s => match s with SetMigrationTable t => [t] | _ => [] end)
           settings.

Definition folders (settings : list Setting) : list (option F) :=
  flat_map (fun s => match s with
                     | SetSystemFS root => [Some (NewSystemFS root)]
                     | SetEmbedFS f => [f]
                     | _ => []
                     end)
           settings.

Definition validators (settings : list Setting) : list (option V) :=
  flat_map (fun s => match s with SetQueryValidator v => [v] | _ => [] end)
           settings.

Definition asksTransaction (s : Setting) : bool :=
  match s with SetInTransaction => true | _ => false end.

End Construction.

(* ===================================================================== *)
(** ** The SQLite driver *)
(* ===================================================================== *)

Module Sqlite.

(** An argument bound to a placeholder of a query. *)
Inductive Arg : Type :=
| ArgInt (n : Z)
| ArgText (s : string).

(** A row of the tracking table as [rows.Scan] fills it. *)
Record Row : Type := mkRow {
  rowVersion : Z;
  rowFname : string;
  rowHash : string;
  rowAppliedAt : string
}.

(** An operation on the database handle or on a transaction. *)
Inductive SqlOp : Type :=
| OpExec (query : string)
| OpQuery (query : string)
| OpBegin
| OpTxExec (query : string) (args : list Arg)
| OpCommit
| OpRollback
| OpClose.

(** An operation with the error it returned. *)
Definition SqlEvent : Type := SqlOp * option error.

(** [database/sql] as the driver uses it, over the state [C] of the
    connection: [db.Exec], [db.QueryContext] with the rows it yields (each
    as [rows.Scan] reads it, or the error of the scan), [db.BeginTx],
    [tx.ExecContext], [tx.Commit], [tx.Rollback], [db.Close]; and the
    clock, [time.Now().UTC().Format(time.RFC3339Nano)], with
    [time.Parse(time.RFC3339Nano, s)]. *)
Class SQL (C : Type) : Type := {
  dbExec : string -> C -> option error * C;
  dbQuery : string -> C -> Result (list (Result Row)) * C;
  dbBegin : C -> option error * C;
  txExec : string -> list Arg -> C -> option error * C;
  txCommit : C -> option error * C;
  txRollback : C -> option error * C;
  dbClose : C -> option error * C;
  now : C -> string * C;
  parseTime : string -> Result Z
}.

Definition nl : string := String (ascii_of_nat 10) EmptyString.
Definition tab : string := String (ascii_of_nat 9) EmptyString.

(** The three queries of the driver; the name of the table is pasted in
    as it is. *)
Definition createSQL (migrationsTable : string) : string :=
  (nl ++ tab ++ tab ++ "CREATE TABLE IF NOT EXISTS " ++ migrationsTable
   ++ " (" ++ nl
   ++ tab ++ tab ++ tab ++ "version INTEGER NOT NULL PRIMARY KEY," ++ nl
   ++ tab ++ tab ++ tab ++ "fname TEXT NOT NULL," ++ nl
   ++ tab ++ tab ++ tab ++ "hash TEXT NOT NULL," ++ nl
   ++ tab ++ tab ++ tab ++ "applied_at DATETIME NOT NULL" ++ nl
   ++ tab ++ tab ++ ")" ++ nl ++ tab)%string.

Definition selectSQL (migrationsTable : string) : string :=
  ("SELECT version, fname, hash, applied_at FROM " ++ migrationsTable
   ++ " ORDER BY version")%string.

Definition insertSQL (migrationsTable : string) : string :=
  ("INSERT INTO " ++ migrationsTable
   ++ " (version, fname, hash, applied_at) VALUES (?, ?, ?, ?)")%string.

Section Driver.
Context {C : Type} {sql : SQL C}.

(** A method of the driver: it returns its result, the connection
    afterwards, and the operations it made, in order. *)
Definition Run (A : Type) : Type := C -> A * C * list SqlEvent.

(** [Dialect]. *)
Definition Dialect : string := "sqlite".

(** [Close]. *)
Definition Close : Run (option error) :=
  fun c => let (r, c') := dbClose c in (r, c', [(OpClose, r)]).

(** [CreateMigrationsTable]. *)
Definition CreateMigrationsTable (migrationsTable : string)
  : Run (option error) :=
  fun c =>
    let (r, c') := dbExec (createSQL migrationsTable) c in
    (r, c', [(OpExec (createSQL migrationsTable), r)]).

(** The migration that [SelectMigrations] makes of a row. *)
Definition ofRow (row : Row) (appliedAt : Z) : Migration :=
  mkMigration (rowVersion row) (rowFname row) (Some appliedAt) []
              (rowHash row).

(** The loop of [SelectMigrations] over the rows. *)
Fixpoint scanRows (rows : list (Result Row)) (migrations : list Migration)
  : Result (list Migration) :=
  match rows with
  | [] => Ok migrations
  | Err e :: _ => Err e
  | Ok row :: rest =>
      match parseTime (rowAppliedAt row) with
      | Err e => Err e
      | Ok t => scanRows rest (migrations ++ [ofRow row t])
      end
  end.

(** [SelectMigrations]. *)
Definition SelectMigrations (migrationsTable : string)
  : Run (Result (list Migration)) :=
  fun c =>
    let (r, c') := dbQuery (selectSQL migrationsTable) c in
    match r with
    | Err e => (Err e, c', [(OpQuery (selectSQL migrationsTable), Some e)])
    | Ok rows =>
        (scanRows rows [], c', [(OpQuery (selectSQL migrationsTable), None)])
    end.

(** [createTxIfNotExists]: with a transaction given ([outer]) it is used
    and neither committed nor rolled back here; without one a transaction
    is begun, which [applyOne] owns. *)
Definition createTxIfNotExists (outer : bool) : Run (option error) :=
  fun c =>
    if outer then (None, c, [])
    else let (r, c') := dbBegin c in (r, c', [(OpBegin, r)]).

(** The loop of [applyOne] over the statements. *)
Fixpoint execStatements (queries : list string) : Run (option error) :=
  match queries with
  | [] => fun c => (None, c, [])
  | query :: rest =>
      fun c =>
        let (r, c1) := txExec query [] c in
        match r with
        | Some e => (Some e, c1, [(OpTxExec query [], r)])
        | None =>
            let '(r2, c2, evs) := execStatements rest c1 in
            (r2, c2, (OpTxExec query [], None) :: evs)
        end
  end.

(** The arguments of the insertion of a migration's row. *)
Definition insertArgs (m : Migration) (appliedAt : string) : list Arg :=
  [ArgInt (Version m); ArgText (Fname m); ArgText (Hash m);
   ArgText appliedAt].

(** [applyOne] between the creation of the transaction and the deferred
    rollback: the statements, the row, the commit. *)
Definition applyBody (insertQ : string) (outer : bool) (m : Migration)
  : Run (option error) :=
  fun c =>
    let '(r1, c1, ev1) := execStatements (Statements m) c in
    match r1 with
    | Some e => (Some e, c1, ev1)
    | None =>
        let (t, c2) := now c1 in
        let (r3, c3) := txExec insertQ (insertArgs m t) c2 in
        let ev3 := ev1 ++ [(OpTxExec insertQ (insertArgs m t), r3)] in
        match r3 with
        | Some e => (Some e, c3, ev3)
        | None =>
            if outer then (None, c3, ev3)
            else
              let (r4, c4) := txCommit c3 in
              (r4, c4, ev3 ++ [(OpCommit, r4)])
        end
    end.

(** [applyOne]. *)
Definition applyOne (insertQ : string) (outer : bool) (m : Migration)
  : Run (option error) :=
  fun c =>
    let '(r0, c0, ev0) := createTxIfNotExists outer c in
    match r0 with
    | Some e => (Some e, c0, ev0)
    | None =>
        let '(r, c1, ev1) := applyBody insertQ outer m c0 in
        if outer then (r, c1, ev0 ++ ev1)
        else
          let (rr, c2) := txRollback c1 in
          (r, c2, ev0 ++ ev1 ++ [(OpRollback, rr)])
    end.

(** [applyMigrations]. *)
Fixpoint applyMigrations (insertQ : string) (outer : bool)
         (migrations : list Migration) : Run (option error) :=
  match migrations with
  | [] => fun c => (None, c, [])
  | m :: rest =>
      fun c =>
        let '(r, c1, ev1) := applyOne insertQ outer m c in
        match r with
        | Some e => (Some e, c1, ev1)
        | None =>
            let '(r2, c2, ev2) := applyMigrations insertQ outer rest c1 in
            (r2, c2, ev1 ++ ev2)
        end
  end.

(** [ApplyMigrations]. *)
Definition ApplyMigrations (migrationsTable : string) (inTx : bool)
           (migrations : list Migration) : Run (option error) :=
  fun c =>
    if inTx then
      let (r0, c0) := dbBegin c in
      match r0 with
      | Some e => (Some e, c0, [(OpBegin, r0)])
      | None =>
          let '(r, c1, ev1) :=
            applyMigrations (insertSQL migrationsTable) true migrations c0 in
          match r with
          | Some e =>
              let (rr, c2) := txRollback c1 in
              (Some e, c2, (OpBegin, None) :: ev1 ++ [(OpRollback, rr)])
          | None =>
              let (r3, c3) := txCommit c1 in
              let (rr, c4) := txRollback c3 in
              (r3, c4,
               (OpBegin, None) :: ev1 ++ [(OpCommit, r3); (OpRollback, rr)])
          end
      end
    else applyMigrations (insertSQL migrationsTable) false migrations c.

(** The driver with the operations it has made so far. *)
Record Conn : Type := mkConn {
  conn : C;
  events : list SqlEvent
}.

Definition lift {A} (run : Run A) (d : Conn) : A * Conn :=
  let '(r, c, evs) := run (conn d) in (r, mkConn c (events d ++ evs)).

(** The row that the insertion of a migration records. *)
Definition rowOf (m : Migration) : Z * string * string :=
  (Version m, Fname m, Hash m).

Definition rowOfArgs (args : list Arg) : option (Z * string * string) :=
  match args with
  | [ArgInt v; ArgText f; ArgText h; ArgText _] => Some (v, f, h)
  | _ => None
  end.

(** What a sequence of operations leaves in the tracking table, for a
    database that keeps its transactions: rows inserted in a transaction
    are kept when it is committed without error and dropped when it is
    rolled back or its commit fails. *)
Record Ledger : Type := mkLedger {
  pending : list (Z * string * string);
  kept : list (Z * string * string)
}.

Definition replay1 (l : Ledger) (ev : SqlEvent) : Ledger :=
  match ev with
  | (OpBegin, None) => mkLedger [] (kept l)
  | (OpTxExec _ args, None) =>
      match rowOfArgs args with
      | Some row => mkLedger (pending l ++ [row]) (kept l)
      | None => l
      end
  | (OpCommit, None) => mkLedger [] (kept l ++ pending l)
  | (OpCommit, Some _) => mkLedger [] (kept l)
  | (OpRollback, _) => mkLedger [] (kept l)
  | _ => l
  end.

Definition replay (evs : list SqlEvent) (l : Ledger) : Ledger :=
  fold_left replay1 evs l.

Definition recorded (evs : list SqlEvent) : list (Z * string * string) :=
  kept (replay evs (mkLedger [] [])).

(** The discipline of transactions: [Some true] while a transaction is
    open, [Some false] while none is, [None] once an operation came out
    of place (a statement outside a transaction, a transaction begun
    inside another, a commit without a transaction).  A rollback is in
    place anywhere: after a commit it does nothing. *)
Definition bracket1 (st : option bool) (ev : SqlEvent) : option bool :=
  match st with
  | None => None
  | Some open =>
      match ev with
      | (OpBegin, r) =>
          if open then None
          else Some (match r with None => true | Some _ => false end)
      | (OpTxExec _ _, _) => if open then Some true else None
      | (OpCommit, _) => if open then Some false else None
      | (OpRollback, _) => Some false
      | _ => Some open
      end
  end.

Definition bracket (evs : list SqlEvent) (st : option bool) : option bool :=
  fold_left bracket1 evs st.

(** A transaction is begun, or the attempt fails. *)
Definition isBegin (ev : SqlEvent) : bool :=
  match fst ev with OpBegin => true | _ => false end.

(** The statements executed, in order: the queries run in a transaction
    without arguments and without error. *)
Definition executed (evs : list SqlEvent) : list string :=
  flat_map (fun ev => match ev with
                      | (OpTxExec query [], None) => [query]
                      | _ => []
                      end) evs.

End Driver.

(** The driver is a [DBDriver]. *)
#[export] Instance sqliteDriver {C : Type} {sql : SQL C}
  : DBDriver (@Conn C) := {
  Dialect _ := Dialect;
  Close := lift Close;
  CreateMigrationsTable migrationsTable :=
    lift (CreateMigrationsTable migrationsTable);
  SelectMigrations migrationsTable := lift (SelectMigrations migrationsTable);
  ApplyMigrations migrationsTable inTx migrations :=
    lift (ApplyMigrations migrationsTable inTx migrations)
}.

End Sqlite.

Module ScriptedSQL.
Import Sqlite.

(** A database that answers as scripted: the statements that fail, the
    rows its tracking table returns, and what its clock shows. *)
Record Script : Type := mkScript {
  failing : list string;
  rowsReturned : list (Result Row);
  clock : string
}.

#[export] Instance scripted : SQL Script := {
  dbExec _ c := (None, c);
  dbQuery _ c := (Ok (rowsReturned c), c);
  dbBegin c := (None, c);
  txExec query _ c :=
    (if existsb (String.eqb query) (failing c)
     then Some (Foreign "sql error") else None, c);
  txCommit c := (None, c);
  txRollback c := (None, c);
  dbClose c := (None, c);
  now c := (clock c, c);
  parseTime s :=
    if String.eqb s EmptyString then Err (Foreign "cannot parse time")
    else Ok 0
}.

Definition startSql (script : Script) (f : MemFS) (inTx : bool)
  : World (@Conn Script) Rejecting MemFS :=
  mkWorld (mkMigrator (mkConn script []) "schema_migrations" f None inTx) [].

(** A database on which the table of [2_b.sql] can be created, but not
    its index. *)
Definition noIndex : Script :=
  mkScript [" CREATE INDEX b_id ON b (id);"] [] "2024-01-01T00:00:00Z".

End ScriptedSQL.

Module Cases.
Import Sqlite ScriptedSQL.

(** A folder with a sub-folder before a file that is no migration. *)
Definition mixedFolder : MemFS :=
  [file "1_a.sql" "CREATE TABLE a (id INT);";
   ("archive.sql", None);
   file "notes.txt" "to do"].

(** The folder of two migrations, listed the other way round. *)
Definition reversedFolder : MemFS := rev twoFolder.

(** A store on which applying fails. *)
Definition failingApply : MockDriver :=
  mkMockDriver "sqlite" None (Ok []) (Some (Foreign "apply error")).

(** The content of [1_demo.sql] with white space around it. *)
Definition paddedDemo : list ascii :=
  [" "%char; ascii_of_nat 10] ++ list_ascii_of_string demoStatement
  ++ [ascii_of_nat 13; ascii_of_nat 10].

(** A machine on which [db/migrations] is a directory and [README.md] a
    file; a system folder is here the path of its root. *)
Definition statOf (path : string) : StatResult :=
  if String.eqb path "db/migrations" then StatInfo true
  else if String.eqb path "README.md" then StatInfo false
  else StatNotExist.

Definition systemFS (root : string) : string := root.

(** Settings that are all accepted. *)
Definition goodSettings : list (@Setting Rejecting string) :=
  [SetMigrationTable "a"; SetInTransaction; SetSystemFS "db/migrations";
   SetMigrationTable "b"; SetEmbedFS None].

(** The worlds of a run over the store in memory. *)
Definition memCreated (w : World MemStore Rejecting MemFS) :=
  snd (callCreateMigrationsTable w).
Definition memRead (w : World MemStore Rejecting MemFS) :=
  snd (readMigrations (memCreated w)).
Definition memSelected (w : World MemStore Rejecting MemFS) :=
  snd (callSelectMigrations (memRead w)).

(** The worlds of a run over the SQLite driver. *)
Definition sqlCreated (w : World (@Conn Script) Rejecting MemFS) :=
  snd (callCreateMigrationsTable w).
Definition sqlRead (w : World (@Conn Script) Rejecting MemFS) :=
  snd (readMigrations (sqlCreated w)).
Definition sqlSelected (w : World (@Conn Script) Rejecting MemFS) :=
  snd (callSelectMigrations (sqlRead w)).

(** A file system whose listing is scripted apart from its files: it may
    fail to list, and it may list a file that cannot be read. *)
Record FlakyFS : Type := mkFlakyFS {
  listing : Result (list DirEntry);
  contents : MemFS
}.

#[export] Instance flakyFS : FS FlakyFS := {
  ReadDir f _ := listing f;
  ReadFile f name := lookupFile (contents f) name
}.

Definition startFlaky (f : FlakyFS) : World MockDriver Rejecting FlakyFS :=
  mkWorld (mkMigrator emptyStore "schema_migrations" f None false) [].

(** A folder that cannot be listed, and one whose second file is gone
    when it is read. *)
Definition unlistable : FlakyFS :=
  mkFlakyFS (Err (Foreign "permission denied")) [].

Definition vanishing : FlakyFS :=
  mkFlakyFS (Ok [mkDirEntry "1_a.sql" false; mkDirEntry "2_b.sql" false;
                 mkDirEntry "3_c.sql" false])
            [file "1_a.sql" "CREATE TABLE a (id INT);";
             file "3_c.sql" "CREATE TABLE c (id INT);"].

(** A tracking table of two rows, and one whose second row has no time. *)
Definition rowA : Row := mkRow 1 "1_a.sql" "aa" "2024-01-01T00:00:00Z".
Definition rowB : Row := mkRow 2 "2_b.sql" "bb" "2024-01-02T00:00:00Z".
Definition rowNoTime : Row := mkRow 2 "2_b.sql" "bb" EmptyString.

Definition twoRows : Script :=
  mkScript [] [Ok rowA; Ok rowB] "2024-01-03T00:00:00Z".
Definition badRow : Script :=
  mkScript [] [Ok rowA; Ok rowNoTime; Ok rowB] "2024-01-03T00:00:00Z".

End Cases.

(* ===================================================================== *)
(** ** Checks of the model on known values *)
(* ===================================================================== *)

Example sha_constants :
  nth 0 Sha256.K 0 = 0x428a2f98 /\ nth 63 Sha256.K 0 = 0xc67178f2
  /\ nth 0 Sha256.H0 0 = 0x6a09e667 /\ nth 7 Sha256.H0 0 = 0x5be0cd19
  /\ List.length Sha256.K = 64%nat.
Proof. repeat split; reflexivity. Qed.

Example sha_abc :
  computeHash (list_ascii_of_string "abc")
  = "ba7816bf8f01cfea414140de5dae2223b00361a396177a9cb410ff61f20015ad".
Proof. vm_compute. reflexivity. Qed.

Example sha_empty :
  computeHash []
  = "e3b0c44298fc1c149afbf4c8996fb92427ae41e4649b934ca495991b7852b855".
Proof. vm_compute. reflexivity. Qed.

Example sha_56_bytes :
  computeHash
    (list_ascii_of_string
       "abcdbcdecdefdefgefghfghighijhijkijkljklmklmnlmnomnopnopq")
  = "248d6a61d20638b8e5c026930c3e6039a33ce45964ff2167f6ecedd419db06c1".
Proof. vm_compute. reflexivity. Qed.

Example sha_two_blocks :
  computeHash (repeat "a"%char 70)
  = "6bd5e5034855a11241f0dee8fc72850ffd9955b28347a86428b5fa19119f6ad0".
Proof. vm_compute. reflexivity. Qed.

Example split_two :
  Strings.Split "a-- migrate:nextb" "-- migrate:next" = ["a"; "b"].
Proof. reflexivity. Qed.

Example split_trailing :
  Strings.Split "a-- migrate:next" "-- migrate:next" = ["a"; EmptyString].
Proof. reflexivity. Qed.

Example index_underscore : Strings.Index "12_ab_c.sql" "_" = 2.
Proof. reflexivity. Qed.

Example index_absent : Strings.Index "12.sql" "_" = -1.
Proof. reflexivity. Qed.

Example scan_plain : Fmt.Sscanf_d "12" = Some 12.
Proof. reflexivity. Qed.

Example scan_negative : Fmt.Sscanf_d "-3" = Some (-3).
Proof. reflexivity. Qed.

Example scan_trailing : Fmt.Sscanf_d "1abc" = Some 1.
Proof. reflexivity. Qed.

Example scan_letters : Fmt.Sscanf_d "abc" = None.
Proof. reflexivity. Qed.

Example scan_nothing : Fmt.Sscanf_d EmptyString = None.
Proof. reflexivity. Qed.

Example scan_too_large : Fmt.Sscanf_d "9223372036854775808" = None.
Proof. reflexivity. Qed.

Example scan_smallest : Fmt.Sscanf_d "-9223372036854775808" = Some minInt64.
Proof. reflexivity. Qed.

(** The two happy paths of the tests. *)
Example happy_path_nothing_applied :
  let r := Migrate (start emptyStore demoFolder None) in
  fst r = Ok tt
  /\ calls (snd r)
     = [CallCreateMigrationsTable "schema_migrations";
        CallReadDir ".";
        CallReadFile "1_demo.sql";
        CallSelectMigrations "schema_migrations";
        CallApplyMigrations "schema_migrations" false [m1]].
Proof. vm_compute. split; reflexivity. Qed.

Example happy_path_already_applied :
  let d := mkMockDriver "sqlite" None (Ok [m1]) None in
  let r := Migrate (start d demoFolder None) in
  fst r = Ok tt
  /\ calls (snd r)
     = [CallCreateMigrationsTable "schema_migrations";
        CallReadDir ".";
        CallReadFile "1_demo.sql";
        CallSelectMigrations "schema_migrations"].
Proof. vm_compute. split; reflexivity. Qed.

(* ===================================================================== *)
(** ** White space, splitting and scanning *)
(* ===================================================================== *)

Lemma isSpace2_not_isSpace1 c1 c2 :
  Bytes.isSpace2 c1 c2 = true -> Bytes.isSpace1 c1 = false.
Proof.
  unfold Bytes.isSpace2, Bytes.isSpace1.
  destruct (Z.eqb_spec (Bytes.code c1) 194) as [-> | ]; simpl;
    [reflexivity | discriminate].
Qed.

Lemma isSpace3_not_shorter c1 c2 c3 :
  Bytes.isSpace3 c1 c2 c3 = true ->
  Bytes.isSpace1 c1 = false /\ Bytes.isSpace2 c1 c2 = false.
Proof.
  unfold Bytes.isSpace3, Bytes.isSpace2, Bytes.isSpace1; cbv zeta.
  destruct (Z.eqb_spec (Bytes.code c1) 225) as [-> | ];
    [ intros _; split; reflexivity | ].
  destruct (Z.eqb_spec (Bytes.code c1) 226) as [-> | ];
    [ intros _; split; reflexivity | ].
  destruct (Z.eqb_spec (Bytes.code c1) 227) as [-> | ];
    [ intros _; split; reflexivity | ].
  simpl. discriminate.
Qed.

(** Leading white space is dropped rune by rune. *)
Lemma dropSpaces_spaceOnly s :
  Bytes.spaceOnly s -> Bytes.dropSpaces false s = [].
Proof.
  induction 1 as [ | c s Hc _ IH | c1 c2 s H2 _ IH | c1 c2 c3 s H3 _ IH ].
  - reflexivity.
  - simpl. rewrite Hc. exact IH.
  - simpl. rewrite (isSpace2_not_isSpace1 _ _ H2), H2. exact IH.
  - destruct (isSpace3_not_shorter _ _ _ H3) as [H1 H2].
    simpl. rewrite H1, H2, H3. exact IH.
Qed.

Lemma TrimSpace_spaceOnly s : Bytes.spaceOnly s -> Bytes.TrimSpace s = [].
Proof.
  intros H. unfold Bytes.TrimSpace. rewrite (dropSpaces_spaceOnly s H).
  reflexivity.
Qed.

(** [strings.Split] never returns an empty slice. *)
Lemma splitFrom_nonempty sep s skip : Strings.splitFrom sep s skip <> [].
Proof.
  revert skip. induction s as [ | c s IH]; intros skip;
    cbn [Strings.splitFrom].
  - discriminate.
  - destruct skip as [ | k].
    + destruct (prefix sep (String c s)); [discriminate | ].
      destruct (Strings.splitFrom sep s 0); discriminate.
    + apply IH.
Qed.

Lemma Split_length s sep : (1 <= List.length (Strings.Split s sep))%nat.
Proof.
  unfold Strings.Split.
  destruct (Strings.splitFrom sep s 0) eqn:E; simpl; [ | lia].
  exfalso. exact (splitFrom_nonempty _ _ _ E).
Qed.

(** A scanned number is a 64-bit value. *)
Lemma parseDigits_nonneg tok : forall acc un,
  0 <= acc -> Fmt.parseDigits acc tok = Some un -> 0 <= un.
Proof.
  induction tok as [ | c tok IH]; cbn [Fmt.parseDigits]; intros acc un Hacc H.
  - injection H as <-. exact Hacc.
  - destruct (Fmt.isDecimal c) eqn:Ed; [ | discriminate].
    unfold Fmt.isDecimal in Ed. apply andb_true_iff in Ed as [Hlo Hhi].
    apply Z.leb_le in Hlo, Hhi.
    eapply IH; [ | exact H]. lia.
Qed.

Lemma ParseInt_range neg tok v : Fmt.ParseInt neg tok = Some v -> inInt64 v.
Proof.
  unfold Fmt.ParseInt, Fmt.ParseUint, inInt64, minInt64, maxInt64.
  destruct (Fmt.parseDigits 0 tok) as [un | ] eqn:E; [ | discriminate].
  pose proof (parseDigits_nonneg _ _ _ (Z.le_refl 0) E) as Hun.
  destruct (Z.leb_spec un (2 ^ 64 - 1)); [ | discriminate].
  destruct neg; cbn [negb andb].
  - destruct (Z.ltb_spec (2 ^ 63) un); [discriminate | ].
    intros H'; injection H' as <-. lia.
  - destruct (Z.leb_spec (2 ^ 63) un); [discriminate | ].
    intros H'; injection H' as <-. lia.
Qed.

Lemma Sscanf_d_range str v : Fmt.Sscanf_d str = Some v -> inInt64 v.
Proof.
  unfold Fmt.Sscanf_d, Fmt.scanInt.
  destruct (Fmt.SkipSpace (list_ascii_of_string str)) as [[ | c s1] | ];
    try discriminate.
  destruct (if Fmt.isSign c then s1 else c :: s1) as [ | d body];
    [discriminate | ].
  destruct (Fmt.isDigitChar d); [ | discriminate].
  apply ParseInt_range.
Qed.

Lemma parseVersion_range file v : parseVersion file = Ok v -> inInt64 v.
Proof.
  unfold parseVersion.
  destruct (Strings.Index file "_" =? -1); [discriminate | ].
  destruct (Fmt.Sscanf_d _) as [version | ] eqn:E; [ | discriminate].
  destruct (version =? 0); [discriminate | ].
  intros H; injection H as <-. exact (Sscanf_d_range _ _ E).
Qed.

(** A file name without an underscore, one whose part before the first
    underscore does not scan as a number, and one whose number is zero are
    all refused, with an [ErrInvalidMigrationFile]. *)
Lemma parseVersion_rejects file :
  Strings.Index file "_" = -1
  \/ Fmt.Sscanf_d (Strings.sliceTo file (Strings.Index file "_")) = None
  \/ Fmt.Sscanf_d (Strings.sliceTo file (Strings.Index file "_")) = Some 0 ->
  exists e, parseVersion file = Err e
            /\ errorsIs e ErrInvalidMigrationFile = true.
Proof.
  unfold parseVersion. intros H.
  destruct (Z.eqb_spec (Strings.Index file "_") (-1)) as [E | E].
  - eexists; split; reflexivity.
  - destruct H as [H | [H | H]]; [contradiction | | ]; rewrite H.
    + eexists; split; reflexivity.
    + eexists; split; reflexivity.
Qed.

(** Every error of [parseVersion] is an [ErrInvalidMigrationFile]. *)
Lemma parseVersion_error file e :
  parseVersion file = Err e -> errorsIs e ErrInvalidMigrationFile = true.
Proof.
  unfold parseVersion.
  destruct (Strings.Index file "_" =? -1).
  - intros H; injection H as <-. reflexivity.
  - destruct (Fmt.Sscanf_d _) as [version | ].
    + destruct (version =? 0); [ | discriminate].
      intros H; injection H as <-. reflexivity.
    + intros H; injection H as <-. reflexivity.
Qed.

(** A version read from a file name is not zero. *)
Lemma parseVersion_nonzero file v : parseVersion file = Ok v -> v <> 0.
Proof.
  unfold parseVersion.
  destruct (Strings.Index file "_" =? -1); [discriminate | ].
  destruct (Fmt.Sscanf_d _) as [version | ]; [ | discriminate].
  destruct (Z.eqb_spec version 0); [discriminate | ].
  intros H; injection H as <-. assumption.
Qed.

(* ===================================================================== *)
(** ** The shape of a hash *)
(* ===================================================================== *)

Lemma hexDigit_lower d : 0 <= d < 16 -> isLowerHex (Sha256.hexDigit d) = true.
Proof.
  intros H.
  assert (C : d = 0 \/ d = 1 \/ d = 2 \/ d = 3 \/ d = 4 \/ d = 5 \/ d = 6
              \/ d = 7 \/ d = 8 \/ d = 9 \/ d = 10 \/ d = 11 \/ d = 12
              \/ d = 13 \/ d = 14 \/ d = 15) by lia.
  repeat (destruct C as [-> | C]; [reflexivity | ]). subst d. reflexivity.
Qed.

Lemma hex_lower bs :
  Forall isByte bs ->
  allChars isLowerHex (Sha256.hex bs) = true
  /\ String.length (Sha256.hex bs) = (2 * List.length bs)%nat.
Proof.
  induction 1 as [ | b bs Hb _ [IH1 IH2]]; [split; reflexivity | ].
  unfold isByte in Hb. cbn [Sha256.hex allChars String.length List.length].
  rewrite IH1, IH2.
  rewrite (hexDigit_lower (b / 16)), (hexDigit_lower (b mod 16)).
  - split; [reflexivity | lia].
  - apply Z.mod_pos_bound. lia.
  - split; [apply Z.div_pos; lia | apply Z.div_lt_upper_bound; lia].
Qed.

Lemma be_bytes_shape n x :
  Forall isByte (Sha256.be_bytes n x)
  /\ List.length (Sha256.be_bytes n x) = n.
Proof.
  unfold Sha256.be_bytes. split.
  - apply Forall_forall. intros b Hin. apply in_map_iff in Hin.
    destruct Hin as (i & <- & _). apply Z.mod_pos_bound. lia.
  - rewrite length_map, length_rev, length_seq. reflexivity.
Qed.

Lemma blocks_length n : forall h bs,
  List.length h = 8%nat -> List.length (Sha256.blocks n h bs) = 8%nat.
Proof.
  induction n as [ | n IH]; intros h bs Hh; cbn [Sha256.blocks].
  - exact Hh.
  - apply IH. unfold Sha256.compress.
    rewrite length_map, length_combine, Hh. reflexivity.
Qed.

Lemma Sum256_shape b :
  Forall isByte (Sha256.Sum256 b) /\ List.length (Sha256.Sum256 b) = 32%nat.
Proof.
  unfold Sha256.Sum256. cbv zeta.
  pose proof (blocks_length
                (Nat.div (List.length (Sha256.pad (map Bytes.code b))) 64)
                Sha256.H0 (Sha256.pad (map Bytes.code b)) eq_refl) as Hlen.
  revert Hlen. generalize (Sha256.blocks
                   (Nat.div (List.length (Sha256.pad (map Bytes.code b))) 64)
                   Sha256.H0 (Sha256.pad (map Bytes.code b))).
  intros h Hlen. split.
  - apply Forall_forall. intros x Hin. apply in_flat_map in Hin.
    destruct Hin as (wd & _ & Hin).
    exact (proj1 (Forall_forall _ _) (proj1 (be_bytes_shape 4 wd)) x Hin).
  - assert (G : forall l, List.length (flat_map (Sha256.be_bytes 4) l)
                          = (4 * List.length l)%nat).
    { induction l as [ | wd l IH]; [reflexivity | ].
      cbn [flat_map]. rewrite length_app, IH.
      rewrite (proj2 (be_bytes_shape 4 wd)). cbn [List.length]. lia. }
    rewrite G, Hlen. reflexivity.
Qed.

(** A hash is 64 lower-case hexadecimal digits. *)
Lemma computeHash_shape b :
  String.length (computeHash b) = 64%nat
  /\ allChars isLowerHex (computeHash b) = true.
Proof.
  unfold computeHash. destruct (Sum256_shape b) as [Hbytes Hlen].
  destruct (hex_lower _ Hbytes) as [Hlow Hl].
  rewrite Hl, Hlen. split; [reflexivity | exact Hlow].
Qed.

(* ===================================================================== *)
(** ** Sorting and the sequence check *)
(* ===================================================================== *)

Section SortFacts.
Context {A : Type} (less : A -> A -> bool).

Lemma insertSorted_perm x l : Permutation (insertSorted less x l) (x :: l).
Proof.
  induction l as [ | y l IH]; simpl.
  - apply Permutation_refl.
  - destruct (less x y).
    + apply Permutation_refl.
    + eapply perm_trans; [apply perm_skip, IH | apply perm_swap].
Qed.

Lemma fold_insert_perm l : forall acc,
  Permutation (fold_left (fun acc x => insertSorted less x acc) l acc)
              (l ++ acc).
Proof.
  induction l as [ | x l IH]; intros acc; simpl.
  - apply Permutation_refl.
  - eapply perm_trans; [apply IH | ].
    eapply perm_trans; [ | apply Permutation_sym, Permutation_middle].
    apply Permutation_app_head, insertSorted_perm.
Qed.

Lemma sortSlice_perm l : Permutation (sortSlice less l) l.
Proof.
  unfold sortSlice. rewrite <- (app_nil_r l) at 2. apply fold_insert_perm.
Qed.
End SortFacts.

Lemma insertSorted_ascending x l :
  ascending l -> ascending (insertSorted lessVersion x l).
Proof.
  unfold ascending.
  induction l as [ | y l IH]; intros Hs; simpl.
  - constructor; constructor.
  - inversion Hs as [ | ? ? Hl Hy]; subst.
    unfold lessVersion at 1. destruct (Z.ltb_spec (Version x) (Version y)).
    + constructor; [exact Hs | ].
      constructor; [lia | ].
      eapply Forall_impl; [ | exact Hy]. simpl. intros; lia.
    + constructor; [exact (IH Hl) | ].
      eapply Permutation_Forall;
        [apply Permutation_sym, insertSorted_perm | ].
      constructor; [lia | exact Hy].
Qed.

Lemma sortSlice_ascending l : ascending (sortSlice lessVersion l).
Proof.
  unfold sortSlice.
  assert (G : forall l acc, ascending acc ->
            ascending (fold_left
                         (fun acc x => insertSorted lessVersion x acc) l acc)).
  { clear l. induction l as [ | x l IH]; intros acc Hacc; simpl.
    - exact Hacc.
    - apply IH, insertSorted_ascending, Hacc. }
  apply G. constructor.
Qed.

(** Two 64-bit values in order whose wrapped difference is one are
    neighbours: the subtraction of [readMigrations] cannot be fooled by
    overflow once the items are sorted. *)
Lemma wrap64_step p c :
  inInt64 p -> inInt64 c -> p <= c -> wrap64 (c - p) = 1 -> c = p + 1.
Proof.
  unfold inInt64, minInt64, maxInt64, wrap64. intros Hp Hc Hle H.
  assert (E : 2 ^ 64 = 2 * 2 ^ 63) by reflexivity.
  destruct (Z_lt_ge_dec (c - p + 2 ^ 63) (2 ^ 64)) as [Hlt | Hge].
  - rewrite Z.mod_small in H by lia. lia.
  - replace (c - p + 2 ^ 63) with ((c - p + 2 ^ 63 - 2 ^ 64) + 1 * 2 ^ 64) in H
      by ring.
    rewrite Z.mod_add in H by lia.
    rewrite Z.mod_small in H by lia. lia.
Qed.

Lemma checkSteps_versions rest : forall prev,
  ascending (prev :: rest) -> versionsInRange (prev :: rest) ->
  checkSteps prev rest = None ->
  forall i m, nth_error rest i = Some m ->
              Version m = Version prev + 1 + Z.of_nat i.
Proof.
  induction rest as [ | cur rest IH]; intros prev Hs Hr Hc i m Hi.
  - destruct i; discriminate.
  - cbn [checkSteps] in Hc.
    destruct (Z.eqb_spec (wrap64 (Version cur - Version prev)) 1)
      as [Hw | ]; [ | discriminate]. cbn [negb] in Hc.
    inversion Hs as [ | ? ? Hs' Hall]; subst.
    inversion Hr as [ | ? ? Hp Hr']; subst.
    assert (Hcur : Version cur = Version prev + 1).
    { apply wrap64_step; try assumption.
      - inversion Hr'; assumption.
      - inversion Hall; assumption. }
    destruct i as [ | i]; simpl in Hi.
    + injection Hi as <-. lia.
    + rewrite (IH cur Hs' Hr' Hc i m Hi). lia.
Qed.

(** The sequence check on sorted 64-bit versions leaves only the lists
    whose versions are 1, 2, 3, ... *)
Lemma checkSequence_versions items :
  ascending items -> versionsInRange items ->
  checkSequence items = None ->
  forall i m, nth_error items i = Some m -> Version m = Z.of_nat i + 1.
Proof.
  intros Hs Hr Hc i m Hi.
  destruct items as [ | first rest]; [destruct i; discriminate | ].
  cbn [checkSequence] in Hc.
  destruct (Z.eqb_spec (Version first) 1) as [H1 | ]; [ | discriminate].
  cbn [negb] in Hc.
  destruct i as [ | i]; simpl in Hi.
  - injection Hi as <-. lia.
  - rewrite (checkSteps_versions rest first Hs Hr Hc i m Hi). lia.
Qed.

(** Every error of the sequence check is an [ErrInvalidMigrationFile]. *)
Lemma checkSteps_error rest : forall prev e,
  checkSteps prev rest = Some e -> errorsIs e ErrInvalidMigrationFile = true.
Proof.
  induction rest as [ | cur rest IH]; intros prev e H; cbn [checkSteps] in H.
  - discriminate.
  - destruct (negb _).
    + injection H as <-. reflexivity.
    + exact (IH _ _ H).
Qed.

Lemma checkSequence_error items e :
  checkSequence items = Some e -> errorsIs e ErrInvalidMigrationFile = true.
Proof.
  destruct items as [ | first rest]; cbn [checkSequence]; [discriminate | ].
  destruct (negb _).
  - intros H; injection H as <-. reflexivity.
  - apply checkSteps_error.
Qed.

(* ===================================================================== *)
(** ** Reading the migrations *)
(* ===================================================================== *)

Ltac unfold_run :=
  unfold bind, ret, fail, ofResult, ofError, logged in *.

Ltac inv_pair H := injection H; clear H; intros; subst.

Section ReadFacts.
Context {D V F : Type}
        {drv : DBDriver D} {qv : QueryValidator V} {fsys : FS F}.

Lemma world_eta (w : World D V F) : mkWorld (mig w) (calls w) = w.
Proof. destruct w; reflexivity. Qed.

Lemma readFiles_inv files : forall items (w w' : World D V F) res,
  readFiles files items w = (Ok res, w') ->
  exists new,
    res = items ++ new
    /\ Forall2 (parsedFrom (folder (mig w))) files new
    /\ w' = mkWorld (mig w) (calls w ++ map CallReadFile files).
Proof.
  induction files as [ | file files IH]; intros items w w' res H.
  - cbn [readFiles] in H. unfold_run. inv_pair H.
    exists []. rewrite !app_nil_r, world_eta. repeat split. constructor.
  - cbn [readFiles] in H. unfold_run. unfold callReadFile in H.
    destruct (parseVersion file) as [version | ] eqn:Ev; [ | discriminate].
    destruct (ReadFile (folder (mig w)) file) as [data | ] eqn:Ed;
      [ | discriminate].
    apply IH in H. destruct H as (new & -> & Hall & ->). cbn [mig calls].
    exists (parseContent version file data :: new).
    cbn [mig calls] in Hall. unfold logged.
    rewrite <- !app_assoc. repeat split.
    constructor; [ | exact Hall]. exists version, data. auto.
Qed.

Lemma readMigrations_inv (w w' : World D V F) items :
  readMigrations w = (Ok items, w') ->
  exists entries files raw,
    ReadDir (folder (mig w)) "." = Ok entries
    /\ listEntries entries [] = Ok files
    /\ Forall2 (parsedFrom (folder (mig w))) files raw
    /\ items = sortSlice lessVersion raw
    /\ checkSequence items = None
    /\ w' = mkWorld (mig w)
                    (calls w ++ CallReadDir "." :: map CallReadFile files).
Proof.
  unfold readMigrations, listFiles, callReadDir. unfold_run. intros H.
  destruct (ReadDir (folder (mig w)) ".") as [entries | ] eqn:Er;
    [ | discriminate].
  destruct (listEntries entries []) as [files | ] eqn:El; [ | discriminate].
  destruct (readFiles files [] _) as [[raw | e] w1] eqn:Ef; [ | discriminate].
  apply readFiles_inv in Ef. destruct Ef as (new & -> & Hall & ->).
  cbn [mig calls app] in *.
  destruct (checkSequence (sortSlice lessVersion new)) eqn:Ec;
    [discriminate | ].
  inv_pair H. exists entries, files, new.
  rewrite <- app_assoc. repeat split; assumption.
Qed.

(** When every file can be read, a file name that [parseVersion] refuses
    makes the loop of [readMigrations] fail with an
    [ErrInvalidMigrationFile]. *)
Lemma readFiles_rejects files : forall items (w : World D V F),
  (forall f, In f files -> exists data, ReadFile (folder (mig w)) f = Ok data) ->
  (exists f e, In f files /\ parseVersion f = Err e) ->
  exists e w', readFiles files items w = (Err e, w')
               /\ errorsIs e ErrInvalidMigrationFile = true.
Proof.
  induction files as [ | file files IH]; intros items w Hread (f & e & Hin & He).
  - destruct Hin.
  - cbn [readFiles]. unfold bind at 1, ofResult.
    destruct (parseVersion file) as [version | e0] eqn:Ev.
    + destruct Hin as [-> | Hin]; [congruence | ].
      unfold bind at 1, callReadFile.
      destruct (Hread file (or_introl eq_refl)) as [data ->].
      apply IH.
      * intros f' Hf'. exact (Hread f' (or_intror Hf')).
      * exists f, e. auto.
    + exists e0. eexists. split; [reflexivity | ].
      exact (parseVersion_error _ _ Ev).
Qed.

(** A migration of the returned list comes from one of the files. *)
Lemma readMigrations_parsed (w w' : World D V F) items m :
  readMigrations w = (Ok items, w') -> In m items ->
  exists file, parsedFrom (folder (mig w)) file m.
Proof.
  intros H Hin.
  destruct (readMigrations_inv _ _ _ H)
    as (entries & files & raw & _ & _ & Hall & -> & _ & _).
  apply (Permutation_in _ (sortSlice_perm lessVersion raw)) in Hin.
  clear H. induction Hall as [ | file m' files raw Hp _ IH].
  - destruct Hin.
  - destruct Hin as [<- | Hin]; [exists file; exact Hp | exact (IH Hin)].
Qed.

Lemma readMigrations_range (w w' : World D V F) items :
  readMigrations w = (Ok items, w') -> versionsInRange items.
Proof.
  intros H. apply Forall_forall. intros m Hin.
  destruct (readMigrations_parsed _ _ _ _ H Hin)
    as (file & version & data & Hv & _ & ->).
  exact (parseVersion_range _ _ Hv).
Qed.

(** A migration of the returned list has a statement. *)
Lemma readMigrations_has_statement (w w' : World D V F) items m :
  readMigrations w = (Ok items, w') -> In m items -> Statements m <> [].
Proof.
  intros H Hin.
  destruct (readMigrations_parsed _ _ _ _ H Hin)
    as (file & version & data & _ & _ & ->).
  cbn [Statements parseContent]. apply splitFrom_nonempty.
Qed.

(** [readMigrations] leaves the collaborators as they were. *)
Lemma readMigrations_mig (w w' : World D V F) r :
  readMigrations w = (r, w') -> mig w' = mig w.
Proof.
  unfold readMigrations, listFiles, callReadDir. unfold_run. intros H.
  destruct (ReadDir (folder (mig w)) ".") as [entries | ];
    [ | inv_pair H; reflexivity].
  destruct (listEntries entries []) as [files | ];
    [ | inv_pair H; reflexivity].
  assert (G : forall files items (w1 w2 : World D V F) r,
            readFiles files items w1 = (r, w2) -> mig w2 = mig w1).
  { clear. induction files as [ | file files IH]; intros items w1 w2 r H;
      cbn [readFiles] in H; unfold_run; unfold callReadFile in H.
    - inv_pair H. reflexivity.
    - destruct (parseVersion file); [ | inv_pair H; reflexivity].
      destruct (ReadFile (folder (mig w1)) file);
        [ | inv_pair H; reflexivity].
      apply IH in H. exact H. }
  destruct (readFiles files [] _) as [[raw | e] w1] eqn:Ef.
  - apply G in Ef. cbn [mig] in Ef.
    destruct (checkSequence _); inv_pair H; exact Ef.
  - apply G in Ef. inv_pair H. exact Ef.
Qed.

End ReadFacts.

(* ===================================================================== *)
(** ** The migration source: versions, statements and hashes *)
(* ===================================================================== *)

(** Versions that go up by one from [k] are strictly sorted and distinct. *)
Lemma consecutive_sorted l : forall k,
  (forall i m, nth_error l i = Some m -> Version m = k + Z.of_nat i) ->
  StronglySorted (fun a b => Version a < Version b) l
  /\ NoDup (map Version l).
Proof.
  induction l as [ | x l IH]; intros k H.
  - split; constructor.
  - assert (Hx : Version x = k) by (rewrite (H 0%nat x eq_refl); lia).
    assert (Hl : forall i m, nth_error l i = Some m ->
                             Version m = (k + 1) + Z.of_nat i).
    { intros i m Hi. rewrite (H (S i) m Hi). lia. }
    assert (Hgt : forall b, In b l -> Version x < Version b).
    { intros b Hb. apply In_nth_error in Hb. destruct Hb as [i Hi].
      rewrite (Hl i b Hi). lia. }
    destruct (IH (k + 1) Hl) as [Hs Hn]. split.
    + constructor; [exact Hs | ]. apply Forall_forall. exact Hgt.
    + cbn [map]. constructor; [ | exact Hn].
      intros Hin. apply in_map_iff in Hin. destruct Hin as (b & Hb & Hin).
      specialize (Hgt b Hin). lia.
Qed.

Section SourceClaims.
Context {D V F : Type}
        {drv : DBDriver D} {qv : QueryValidator V} {fsys : FS F}.

(** C9.  In every list that [readMigrations] returns, the element at
    index [i] (from 0) has version [i + 1]: the list is strictly ascending,
    starts at 1, has no gap and no duplicate, and holds positive versions
    only, although the parser of a file name accepts a negative number. *)
Theorem readMigrations_versions (w w' : World D V F) items :
  readMigrations w = (Ok items, w') ->
  (forall i m, nth_error items i = Some m -> Version m = Z.of_nat i + 1)
  /\ StronglySorted (fun a b => Version a < Version b) items
  /\ NoDup (map Version items)
  /\ Forall (fun m => 0 < Version m) items
  /\ parseVersion "-3_x.sql" = Ok (-3).
Proof.
  intros H.
  assert (Hnth : forall i m, nth_error items i = Some m ->
                             Version m = Z.of_nat i + 1).
  { destruct (readMigrations_inv _ _ _ H)
      as (entries & files & raw & _ & _ & _ & Hsort & Hc & _).
    apply checkSequence_versions.
    - rewrite Hsort. apply sortSlice_ascending.
    - exact (readMigrations_range _ _ _ H).
    - exact Hc. }
  destruct (consecutive_sorted items 1) as [Hs Hn].
  { intros i m Hi. rewrite (Hnth i m Hi). lia. }
  repeat split; try assumption.
  - apply Forall_forall. intros m Hin.
    apply In_nth_error in Hin. destruct Hin as [i Hi].
    rewrite (Hnth i m Hi). lia.
Qed.

(** The only error of the loop of [validate] is the validator's report,
    wrapped as [ErrInvalidQuery]. *)
Lemma validateStatements_error fname stmts : forall (w w' : World D V F) e,
  forEach (validateStatement fname) stmts w = (Err e, w') ->
  exists text, e = Errorf ErrInvalidQuery text.
Proof.
  induction stmts as [ | s stmts IH]; intros w w' e H; cbn [forEach] in H.
  - discriminate.
  - unfold bind at 1 in H.
    destruct (validateStatement fname s w) as [[[] | e1] w1] eqn:E1.
    + exact (IH _ _ _ H).
    + inv_pair H. unfold validateStatement in E1.
      destruct (qvalidator (mig w)) as [v | ]; [ | discriminate].
      unfold callDialect, callValidateQuery in E1. unfold_run.
      destruct (ValidateQuery _ s v) as [[err | ] v'].
      * inv_pair E1. eexists; reflexivity.
      * discriminate.
Qed.

(** C10.  Every migration that [readMigrations] returns has at least one
    statement, because [strings.Split] gives at least one piece of any
    string; so [validate] never takes its empty-statements branch on such a
    migration (it is the rest of its body, and its only error is an
    [ErrInvalidQuery]), and a file that is empty or holds white space only
    gives the single statement that is the empty string. *)
Theorem readMigrations_statements (w w' : World D V F) items :
  readMigrations w = (Ok items, w') ->
  forall m, In m items ->
    (1 <= List.length (Statements m))%nat
    /\ (forall w0 : World D V F,
          validate m w0
          = match qvalidator (mig w0) with
            | None => (Ok tt, w0)
            | Some _ =>
                forEach (validateStatement (Fname m)) (Statements m) w0
            end)
    /\ (forall (w0 w1 : World D V F) e,
          validate m w0 = (Err e, w1) ->
          errorsIs e ErrInvalidMigrationFile = false)
    /\ (forall data,
          ReadFile (folder (mig w)) (Fname m) = Ok data ->
          Bytes.spaceOnly data -> Statements m = [EmptyString]).
Proof.
  intros H m Hin.
  destruct (readMigrations_parsed _ _ _ _ H Hin)
    as (file & version & data0 & _ & Hread & ->).
  cbn [Statements Fname parseContent].
  assert (Hlen : (1 <= List.length
                        (Strings.Split
                           (string_of_list_ascii (Bytes.TrimSpace data0))
                           separator))%nat) by apply Split_length.
  assert (Hval : forall w0 : World D V F,
            validate (parseContent version file data0) w0
            = match qvalidator (mig w0) with
              | None => (Ok tt, w0)
              | Some _ =>
                  forEach (validateStatement file)
                    (Strings.Split
                       (string_of_list_ascii (Bytes.TrimSpace data0))
                       separator) w0
              end).
  { intros w0. unfold validate. cbn [Statements Fname parseContent].
    destruct (Nat.eqb_spec
                (List.length
                   (Strings.Split
                      (string_of_list_ascii (Bytes.TrimSpace data0))
                      separator)) 0); [lia | reflexivity]. }
  repeat split.
  - exact Hlen.
  - exact Hval.
  - intros w0 w1 e He. rewrite Hval in He.
    destruct (qvalidator (mig w0)); [ | discriminate].
    apply validateStatements_error in He. destruct He as [text ->].
    reflexivity.
  - intros data Hd Hsp. rewrite Hread in Hd. inv_pair Hd.
    rewrite (TrimSpace_spaceOnly _ Hsp). reflexivity.
Qed.

(** C6.  The hash of every migration that [readMigrations] returns is the
    lower-case hexadecimal SHA-256 digest (64 digits of [0-9a-f]) of the
    trimmed bytes of its file, all of them, not of the statements they are
    split into afterwards; a file with the same bytes has the same hash in
    any run; and the file of the tests,
    [CREATE TABLE demo (id INT NOT NULL);], has the SHA-256 of that
    string. *)
Theorem readMigrations_hash (w w' : World D V F) items :
  readMigrations w = (Ok items, w') ->
  forall m, In m items ->
  exists data,
    ReadFile (folder (mig w)) (Fname m) = Ok data
    /\ Hash m = Sha256.hex (Sha256.Sum256 (Bytes.TrimSpace data))
    /\ String.length (Hash m) = 64%nat
    /\ allChars isLowerHex (Hash m) = true
    /\ Statements m
       = Strings.Split (string_of_list_ascii (Bytes.TrimSpace data)) separator
    /\ (forall (u u' : World D V F) items' m',
          readMigrations u = (Ok items', u') -> In m' items' ->
          ReadFile (folder (mig u)) (Fname m') = Ok data ->
          Hash m' = Hash m)
    /\ (data = list_ascii_of_string demoStatement ->
        Hash m = Sha256.hex
                   (Sha256.Sum256 (list_ascii_of_string demoStatement))
        /\ Hash m = demoHash).
Proof.
  intros H m Hin.
  destruct (readMigrations_parsed _ _ _ _ H Hin)
    as (file & version & data & _ & Hread & ->).
  exists data. cbn [Hash Statements Fname parseContent].
  destruct (computeHash_shape (Bytes.TrimSpace data)) as [Hlen Hlow].
  repeat split.
  - exact Hread.
  - exact Hlen.
  - exact Hlow.
  - intros u u' items' m' H' Hin' Hread'.
    destruct (readMigrations_parsed _ _ _ _ H' Hin')
      as (file' & version' & data' & _ & Hr' & ->).
    cbn [Fname parseContent] in Hread'. rewrite Hr' in Hread'.
    inv_pair Hread'. reflexivity.
  - subst data. vm_compute. reflexivity.
  - subst data. vm_compute. reflexivity.
Qed.

End SourceClaims.

(* ===================================================================== *)
(** ** The consistency check *)
(* ===================================================================== *)

Lemma checkApplied_consistent applied : forall local,
  (List.length applied <= List.length local)%nat ->
  (forall i a l, nth_error applied i = Some a -> nth_error local i = Some l ->
                 Version a = Version l /\ Hash a = Hash l) ->
  checkApplied applied local = None.
Proof.
  induction applied as [ | a applied IH]; intros local Hlen Hall.
  - reflexivity.
  - destruct local as [ | l local]; [simpl in Hlen; lia | ].
    cbn [checkApplied].
    destruct (Hall 0%nat a l eq_refl eq_refl) as [Hv Hh].
    rewrite Hv, Z.eqb_refl, Hh, String.eqb_refl. cbn [negb].
    apply IH; [simpl in Hlen; lia | ].
    intros i a' l' Ha Hl. exact (Hall (S i) a' l' Ha Hl).
Qed.

Lemma checkApplied_mismatch applied : forall local,
  (List.length applied <= List.length local)%nat ->
  (exists i a l, nth_error applied i = Some a /\ nth_error local i = Some l
                 /\ (Version a <> Version l \/ Hash a <> Hash l)) ->
  exists e, checkApplied applied local = Some e
            /\ errorsIs e ErrInvalidMigrationFile = true.
Proof.
  induction applied as [ | a applied IH];
    intros local Hlen (i & a' & l' & Ha & Hl & Hne).
  - destruct i; discriminate.
  - destruct local as [ | l local]; [simpl in Hlen; lia | ].
    cbn [checkApplied].
    destruct (Z.eqb_spec (Version a) (Version l)) as [Hv | Hv]; cbn [negb];
      [ | eexists; split; reflexivity].
    destruct (String.eqb_spec (Hash a) (Hash l)) as [Hh | Hh]; cbn [negb];
      [ | eexists; split; reflexivity].
    apply IH; [simpl in Hlen; lia | ].
    destruct i as [ | i]; simpl in Ha, Hl.
    + inv_pair Ha. inv_pair Hl. destruct Hne; contradiction.
    + exists i, a', l'. auto.
Qed.

(** What the consistency check decides. *)
Lemma reconcile_rejects localMigrations appliedMigrations :
  ((List.length localMigrations < List.length appliedMigrations)%nat
   \/ exists i a l,
        nth_error appliedMigrations i = Some a
        /\ nth_error localMigrations i = Some l
        /\ (Version a <> Version l \/ Hash a <> Hash l)) ->
  exists e, reconcile localMigrations appliedMigrations = Err e
            /\ errorsIs e ErrInvalidMigrationFile = true.
Proof.
  intros H. unfold reconcile.
  destruct (Nat.ltb_spec (List.length localMigrations)
                         (List.length appliedMigrations)) as [Hlt | Hge].
  - eexists; split; reflexivity.
  - destruct H as [Hlt | Hmis]; [lia | ].
    destruct (checkApplied_mismatch _ _ Hge Hmis) as (e & -> & He).
    exists e; auto.
Qed.

Lemma reconcile_accepts localMigrations appliedMigrations :
  (List.length appliedMigrations <= List.length localMigrations)%nat ->
  (forall i a l,
     nth_error appliedMigrations i = Some a ->
     nth_error localMigrations i = Some l ->
     Version a = Version l /\ Hash a = Hash l) ->
  reconcile localMigrations appliedMigrations
  = Ok (skipn (List.length appliedMigrations) localMigrations).
Proof.
  intros Hlen Hall. unfold reconcile.
  destruct (Nat.ltb_spec (List.length localMigrations)
                         (List.length appliedMigrations)); [lia | ].
  rewrite (checkApplied_consistent _ _ Hlen Hall). reflexivity.
Qed.

Section MigrateClaims.
Context {D V F : Type}
        {drv : DBDriver D} {qv : QueryValidator V} {fsys : FS F}.

(** [Migrate] after its first three steps. *)
Lemma Migrate_after_loading (w w1 w2 w3 : World D V F) localMigrations
      appliedMigrations :
  callCreateMigrationsTable w = (Ok tt, w1) ->
  readMigrations w1 = (Ok localMigrations, w2) ->
  callSelectMigrations w2 = (Ok appliedMigrations, w3) ->
  Migrate w
  = match reconcile localMigrations appliedMigrations with
    | Ok toApply => applyPending toApply w3
    | Err e => (Err e, w3)
    end.
Proof.
  intros Hc Hr Hs. unfold Migrate.
  unfold bind at 1. rewrite Hc.
  unfold bind at 1. rewrite Hr.
  unfold bind at 1. rewrite Hs.
  unfold bind, ofResult.
  destruct (reconcile localMigrations appliedMigrations); reflexivity.
Qed.

(** C1.  With the tracking table made and both lists loaded, [Migrate]
    returns an [ErrInvalidMigrationFile] when there are fewer local than
    applied migrations, or when at some index the applied migration and the
    local one differ in version or in hash; when neither is the case it
    goes on past the check, to what it does with the migrations not yet
    applied. *)
Theorem Migrate_consistency_check (w w1 w2 w3 : World D V F)
        localMigrations appliedMigrations :
  callCreateMigrationsTable w = (Ok tt, w1) ->
  readMigrations w1 = (Ok localMigrations, w2) ->
  callSelectMigrations w2 = (Ok appliedMigrations, w3) ->
  (((List.length localMigrations < List.length appliedMigrations)%nat
    \/ exists i a l,
         nth_error appliedMigrations i = Some a
         /\ nth_error localMigrations i = Some l
         /\ (Version a <> Version l \/ Hash a <> Hash l)) ->
   exists e, Migrate w = (Err e, w3)
             /\ errorsIs e ErrInvalidMigrationFile = true)
  /\ ((List.length appliedMigrations <= List.length localMigrations)%nat ->
      (forall i a l,
         nth_error appliedMigrations i = Some a ->
         nth_error localMigrations i = Some l ->
         Version a = Version l /\ Hash a = Hash l) ->
      Migrate w
      = applyPending
          (skipn (List.length appliedMigrations) localMigrations) w3).
Proof.
  intros Hc Hr Hs.
  rewrite (Migrate_after_loading _ _ _ _ _ _ Hc Hr Hs). split.
  - intros Hbad.
    destruct (reconcile_rejects _ _ Hbad) as (e & -> & He).
    exists e; auto.
  - intros Hlen Hall. rewrite (reconcile_accepts _ _ Hlen Hall).
    reflexivity.
Qed.

(** C8.  When the store's [CreateMigrationsTable] returns an error,
    [Migrate] returns that very error, and the call that failed is the
    last call of the run: nothing is asked of the folder, the store or the
    validator afterwards. *)
Theorem Migrate_create_fails (w : World D V F) e d' :
  CreateMigrationsTable (migrationsTable (mig w)) (driver (mig w))
  = (Some e, d') ->
  Migrate w
  = (Err e,
     mkWorld (withDriver (mig w) d')
             (calls w
              ++ [CallCreateMigrationsTable (migrationsTable (mig w))])).
Proof.
  intros H. unfold Migrate, bind at 1, callCreateMigrationsTable.
  cbv zeta. rewrite H. reflexivity.
Qed.

End MigrateClaims.

(* ===================================================================== *)
(** ** Validation *)
(* ===================================================================== *)

Section ValidationFacts.
Context {D V F : Type}
        {drv : DBDriver D} {qv : QueryValidator V} {fsys : FS F}.

Lemma newCalls_app (w w' : World D V F) l :
  calls w' = calls w ++ l -> newCalls w w' = l.
Proof.
  intros H. unfold newCalls. rewrite H, skipn_app, skipn_all, Nat.sub_diag.
  reflexivity.
Qed.

Lemma quietStep_refl (w : World D V F) : quietStep w w.
Proof.
  repeat split. exists []. rewrite app_nil_r. auto.
Qed.

Lemma quietStep_trans (w1 w2 w3 : World D V F) :
  quietStep w1 w2 -> quietStep w2 w3 -> quietStep w1 w3.
Proof.
  intros (Hd & Ht & Hx & l & Hl & Hq) (Hd' & Ht' & Hx' & l' & Hl' & Hq').
  repeat split; try congruence.
  exists (l ++ l'). rewrite Hl', Hl, app_assoc, existsb_app, Hq, Hq'. auto.
Qed.

Lemma forEach_quiet {A} (body : A -> M unit) :
  (forall x (w w' : World D V F) r, body x w = (r, w') -> quietStep w w') ->
  forall xs (w w' : World D V F) r,
    forEach body xs w = (r, w') -> quietStep w w'.
Proof.
  intros Hbody. induction xs as [ | x xs IH]; intros w w' r H;
    cbn [forEach] in H.
  - unfold ret in H. inv_pair H. apply quietStep_refl.
  - unfold bind in H. destruct (body x w) as [[[] | e] w1] eqn:E.
    + exact (quietStep_trans _ _ _ (Hbody _ _ _ _ E) (IH _ _ _ H)).
    + inv_pair H. exact (Hbody _ _ _ _ E).
Qed.

Lemma validateStatement_quiet fname s (w w' : World D V F) r :
  validateStatement fname s w = (r, w') -> quietStep w w'.
Proof.
  unfold validateStatement. destruct (qvalidator (mig w)) as [v | ].
  - unfold callDialect, callValidateQuery. unfold_run.
    destruct (ValidateQuery _ s v) as [[err | ] v']; intros H; inv_pair H;
      (repeat split; eexists; rewrite <- app_assoc; split; reflexivity).
  - intros H. inv_pair H. apply quietStep_refl.
Qed.

Lemma validate_quiet m (w w' : World D V F) r :
  validate m w = (r, w') -> quietStep w w'.
Proof.
  unfold validate. destruct (List.length (Statements m) =? 0)%nat.
  - unfold fail. intros H. inv_pair H. apply quietStep_refl.
  - destruct (qvalidator (mig w)).
    + apply forEach_quiet. intros x; apply validateStatement_quiet.
    + intros H. inv_pair H. apply quietStep_refl.
Qed.

Lemma validateAll_quiet toApply (w w' : World D V F) r :
  forEach validate toApply w = (r, w') -> quietStep w w'.
Proof. apply forEach_quiet. intros x; apply validate_quiet. Qed.

Lemma withValidator_same (m : Migrator D V F) v :
  qvalidator m = Some v -> withValidator m v = m.
Proof. destruct m; simpl; intros ->; reflexivity. Qed.

Lemma runValidator_all v d stmts given v' :
  runValidator v d stmts = (given, None, v') -> given = stmts.
Proof.
  revert v given. induction stmts as [ | s stmts IH]; intros v given H;
    cbn [runValidator] in H.
  - inv_pair H. reflexivity.
  - destruct (ValidateQuery d s v) as [[err | ] v1]; [discriminate | ].
    destruct (runValidator v1 d stmts) as [[given1 r1] v2] eqn:E.
    inv_pair H. f_equal. exact (IH _ _ E).
Qed.

Lemma runValidator_app v d a b :
  runValidator v d (a ++ b)
  = match runValidator v d a with
    | (given, Some err, v') => (given, Some err, v')
    | (given, None, v') =>
        let '(given', r, v'') := runValidator v' d b in
        (given ++ given', r, v'')
    end.
Proof.
  revert v. induction a as [ | s a IH]; intros v; cbn [app runValidator].
  - destruct (runValidator v d b) as [[given r] v']. reflexivity.
  - destruct (ValidateQuery d s v) as [[err | ] v1]; [reflexivity | ].
    rewrite IH.
    destruct (runValidator v1 d a) as [[given [err | ]] v2]; [reflexivity | ].
    destruct (runValidator v2 d b) as [[given' r] v3]. reflexivity.
Qed.

(** The loop of [validate] with a validator configured. *)
Lemma validateStatements_run fname stmts : forall (w : World D V F) v,
  qvalidator (mig w) = Some v ->
  forall given r v',
    runValidator v (Dialect (driver (mig w))) stmts = (given, r, v') ->
    forEach (validateStatement fname) stmts w
    = (match r with
       | Some err => Err (invalidQuery fname err)
       | None => Ok tt
       end,
       mkWorld (withValidator (mig w) v')
               (calls w
                ++ validationCalls (Dialect (driver (mig w))) given)).
Proof.
  induction stmts as [ | s stmts IH]; intros w v Hv given r v' H;
    cbn [runValidator] in H; cbn [forEach].
  - inv_pair H. unfold ret, validationCalls. cbn [flat_map].
    rewrite app_nil_r, (withValidator_same _ _ Hv), world_eta. reflexivity.
  - unfold bind, validateStatement. rewrite Hv.
    unfold callDialect, callValidateQuery. unfold_run. cbn [mig calls].
    destruct (ValidateQuery _ s v) as [[err | ] v1].
    + inv_pair H. unfold validationCalls. cbn [flat_map].
      rewrite app_nil_r, <- app_assoc. reflexivity.
    + destruct (runValidator v1 _ stmts) as [[given1 r1] v2] eqn:E.
      inv_pair H.
      rewrite (IH (mkWorld (withValidator (mig w) v1) _) v1 eq_refl
                  given1 r v' E).
      unfold validationCalls. cbn [flat_map mig calls driver withValidator].
      rewrite <- !app_assoc. reflexivity.
Qed.

(** The loop of [Migrate] over [toApply] with a validator configured, when
    no migration of the batch is without statements. *)
Lemma validateAll_run toApply :
  Forall (fun m => Statements m <> []) toApply ->
  forall (w : World D V F) v,
    qvalidator (mig w) = Some v ->
    forall given r v',
      runValidator v (Dialect (driver (mig w)))
                   (flat_map Statements toApply) = (given, r, v') ->
      exists res,
        forEach validate toApply w
        = (res,
           mkWorld (withValidator (mig w) v')
                   (calls w
                    ++ validationCalls (Dialect (driver (mig w))) given))
        /\ match r with
           | Some err =>
               exists m, In m toApply /\ res = Err (invalidQuery (Fname m) err)
           | None => res = Ok tt
           end.
Proof.
  induction 1 as [ | m toApply Hm _ IH]; intros w v Hv given r v' H.
  - cbn [flat_map runValidator] in H. inv_pair H. exists (Ok tt).
    cbn [forEach]. unfold ret, validationCalls. cbn [flat_map].
    rewrite app_nil_r, (withValidator_same _ _ Hv), world_eta. auto.
  - cbn [flat_map] in H. rewrite runValidator_app in H.
    destruct (runValidator v _ (Statements m)) as [[given1 r1] v1] eqn:E1.
    cbn [forEach]. unfold bind, validate at 1.
    destruct (Nat.eqb_spec (List.length (Statements m)) 0) as [Hz | _].
    { destruct (Statements m); [contradiction | discriminate]. }
    rewrite Hv, (validateStatements_run _ _ _ _ Hv _ _ _ E1).
    destruct r1 as [err | ].
    + inv_pair H. eexists. split; [reflexivity | ].
      exists m. split; [left | ]; reflexivity.
    + destruct (runValidator v1 _ (flat_map Statements toApply))
        as [[given2 r2] v2] eqn:E2.
      inv_pair H.
      destruct (IH (mkWorld (withValidator (mig w) v1)
                            (calls w
                             ++ validationCalls (Dialect (driver (mig w)))
                                                given1))
                   v1 eq_refl given2 r v' E2) as (res & Hrun & Hres).
      exists res. split.
      * rewrite Hrun. cbn [mig calls driver withValidator].
        unfold validationCalls. rewrite flat_map_app, <- app_assoc.
        reflexivity.
      * destruct r as [err | ]; [ | exact Hres].
        destruct Hres as (m' & Hin & ->). exists m'. split; [right | ]; auto.
Qed.

End ValidationFacts.

(* ===================================================================== *)
(** ** What [Migrate] applies, and when *)
(* ===================================================================== *)

Lemma quiet_filter l : existsb isApply l = false -> filter isApply l = [].
Proof.
  induction l as [ | c l IH]; cbn [existsb filter]; [reflexivity | ].
  destruct (isApply c); [discriminate | exact IH].
Qed.

Lemma In_skipn_list {A} (x : A) n l : In x (skipn n l) -> In x l.
Proof.
  intros H. rewrite <- (firstn_skipn n l). apply in_or_app. right. exact H.
Qed.

Lemma filter_validationCalls d stmts :
  filter isValidate (validationCalls d stmts) = map (CallValidateQuery d) stmts
  /\ existsb isApply (validationCalls d stmts) = false.
Proof.
  unfold validationCalls. induction stmts as [ | s stmts [IH1 IH2]].
  - split; reflexivity.
  - cbn [flat_map app filter isValidate map existsb isApply orb].
    rewrite IH1, IH2. split; reflexivity.
Qed.

Lemma loadingCalls_quiet tbl files :
  existsb isApply (loadingCalls tbl files) = false
  /\ filter isValidate (loadingCalls tbl files) = [].
Proof.
  unfold loadingCalls. cbn [existsb isApply orb filter isValidate].
  induction files as [ | f files [IH1 IH2]].
  - split; reflexivity.
  - cbn [map app existsb isApply orb filter isValidate]. auto.
Qed.

Section ApplyClaims.
Context {D V F : Type}
        {drv : DBDriver D} {qv : QueryValidator V} {fsys : FS F}.

Lemma callCreate_ok (w w1 : World D V F) :
  callCreateMigrationsTable w = (Ok tt, w1) ->
  calls w1 = calls w ++ [CallCreateMigrationsTable (migrationsTable (mig w))]
  /\ migrationsTable (mig w1) = migrationsTable (mig w)
  /\ inTransaction (mig w1) = inTransaction (mig w)
  /\ folder (mig w1) = folder (mig w)
  /\ qvalidator (mig w1) = qvalidator (mig w).
Proof.
  unfold callCreateMigrationsTable. cbv zeta.
  destruct (CreateMigrationsTable _ _) as [r d]. intros H. inv_pair H.
  repeat split.
Qed.

Lemma callSelect_ok (w w1 : World D V F) r :
  callSelectMigrations w = (r, w1) ->
  calls w1 = calls w ++ [CallSelectMigrations (migrationsTable (mig w))]
  /\ migrationsTable (mig w1) = migrationsTable (mig w)
  /\ inTransaction (mig w1) = inTransaction (mig w)
  /\ folder (mig w1) = folder (mig w)
  /\ qvalidator (mig w1) = qvalidator (mig w).
Proof.
  unfold callSelectMigrations. cbv zeta.
  destruct (SelectMigrations _ _) as [r' d]. intros H. inv_pair H.
  repeat split.
Qed.

(** The run up to the consistency check. *)
Lemma loading_calls (w w1 w2 w3 : World D V F) localMigrations
      appliedMigrations :
  callCreateMigrationsTable w = (Ok tt, w1) ->
  readMigrations w1 = (Ok localMigrations, w2) ->
  callSelectMigrations w2 = (Ok appliedMigrations, w3) ->
  migrationsTable (mig w3) = migrationsTable (mig w)
  /\ inTransaction (mig w3) = inTransaction (mig w)
  /\ qvalidator (mig w3) = qvalidator (mig w)
  /\ exists files,
       calls w3 = calls w ++ loadingCalls (migrationsTable (mig w)) files.
Proof.
  intros Hc Hr Hs.
  destruct (callCreate_ok _ _ Hc) as (Hc1 & Ht1 & Hx1 & _ & Hq1).
  pose proof (readMigrations_mig _ _ _ Hr) as Hm.
  destruct (readMigrations_inv _ _ _ Hr)
    as (entries & files & raw & _ & _ & _ & _ & _ & Hw2).
  destruct (callSelect_ok _ _ _ Hs) as (Hc3 & Ht3 & Hx3 & _ & Hq3).
  rewrite Hm in *. repeat split; try congruence.
  exists files. rewrite Hc3, Hw2. cbn [calls]. rewrite Hc1, Ht1.
  unfold loadingCalls. rewrite <- !app_assoc. reflexivity.
Qed.

(** C2.  When the applied migrations are a prefix of the local ones by
    version and hash, the only batch [Migrate] can pass to the store's
    [ApplyMigrations] is the local list without its first [len(applied)]
    entries, in the order of the local list, for the configured table and
    transaction mode; when nothing is left (as many applied as local),
    [Migrate] succeeds at once and [ApplyMigrations] is not called; when
    something is left and validation passes, that batch is passed. *)
Theorem Migrate_applies_suffix (w w1 w2 w3 : World D V F)
        localMigrations appliedMigrations :
  callCreateMigrationsTable w = (Ok tt, w1) ->
  readMigrations w1 = (Ok localMigrations, w2) ->
  callSelectMigrations w2 = (Ok appliedMigrations, w3) ->
  (List.length appliedMigrations <= List.length localMigrations)%nat ->
  (forall i a l,
     nth_error appliedMigrations i = Some a ->
     nth_error localMigrations i = Some l ->
     Version a = Version l /\ Hash a = Hash l) ->
  let toApply := skipn (List.length appliedMigrations) localMigrations in
  let batch :=
    CallApplyMigrations (migrationsTable (mig w)) (inTransaction (mig w))
                        toApply in
  let applied := filter isApply (newCalls w (snd (Migrate w))) in
  (applied = [] \/ applied = [batch])
  /\ (List.length appliedMigrations = List.length localMigrations ->
      Migrate w = (Ok tt, w3) /\ applied = [])
  /\ ((List.length appliedMigrations < List.length localMigrations)%nat ->
      forall w4,
        forEach validate toApply w3 = (Ok tt, w4) ->
        Migrate w = callApplyMigrations toApply w4 /\ applied = [batch]).
Proof.
  intros Hc Hr Hs Hlen Hall toApply batch applied.
  destruct (loading_calls _ _ _ _ _ _ Hc Hr Hs)
    as (Ht & Hx & _ & files & Hcalls).
  destruct (loadingCalls_quiet (migrationsTable (mig w)) files) as [Hlq _].
  assert (HM : Migrate w = applyPending toApply w3).
  { rewrite (Migrate_after_loading _ _ _ _ _ _ Hc Hr Hs).
    rewrite (reconcile_accepts _ _ Hlen Hall). reflexivity. }
  assert (Hquiet : forall w',
            quietStep w3 w' ->
            filter isApply (newCalls w w') = []
            /\ filter isApply
                 (newCalls w (snd (callApplyMigrations toApply w')))
               = [batch]).
  { intros w' (_ & Ht' & Hx' & l & Hl & Hq). split.
    - rewrite (newCalls_app w w'
                 (loadingCalls (migrationsTable (mig w)) files ++ l)).
      + apply quiet_filter. rewrite existsb_app, Hlq, Hq. reflexivity.
      + rewrite Hl, Hcalls, app_assoc. reflexivity.
    - unfold callApplyMigrations. cbv zeta.
      destruct (ApplyMigrations _ _ _ _) as [r d]. cbn [snd].
      rewrite (newCalls_app w _
                 (loadingCalls (migrationsTable (mig w)) files ++ l
                  ++ [CallApplyMigrations (migrationsTable (mig w'))
                        (inTransaction (mig w')) toApply])).
      + rewrite !filter_app, (quiet_filter _ Hlq), (quiet_filter _ Hq).
        cbn [filter isApply app]. unfold batch. congruence.
      + cbn [calls]. unfold logged.
        rewrite Hl, Hcalls, <- !app_assoc. reflexivity. }
  assert (Hcases :
            (toApply = [] /\ Migrate w = (Ok tt, w3) /\ applied = [])
            \/ (toApply <> []
                /\ (applied = [] \/ applied = [batch])
                /\ forall w4, forEach validate toApply w3 = (Ok tt, w4) ->
                     Migrate w = callApplyMigrations toApply w4
                     /\ applied = [batch])).
  { unfold applied. rewrite HM. unfold applyPending.
    destruct toApply as [ | m rest] eqn:Et.
    - left. cbn [List.length Nat.eqb]. unfold ret. cbn [snd].
      repeat split. apply (Hquiet w3 (quietStep_refl w3)).
    - right. split; [discriminate | ].
      cbn [List.length Nat.eqb]. unfold bind.
      destruct (forEach validate (m :: rest) w3) as [[[] | e] w4] eqn:Ev.
      + pose proof (validateAll_quiet _ _ _ _ Ev) as Hq4.
        destruct (Hquiet w4 Hq4) as [_ Hb].
        split; [right; exact Hb | ].
        intros w4' H4. inv_pair H4. split; [reflexivity | exact Hb].
      + cbn [snd]. pose proof (validateAll_quiet _ _ _ _ Ev) as Hq4.
        split; [left; apply (Hquiet w4 Hq4) | ].
        intros w4' H4. discriminate. }
  assert (Hskip : List.length toApply
                  = (List.length localMigrations
                     - List.length appliedMigrations)%nat)
    by apply length_skipn.
  destruct Hcases as [(Hnil & HOk & Happ) | (Hne & Hor & Hrun)].
  - split; [left; exact Happ | split].
    + intros _. split; assumption.
    + intros Hlt. rewrite Hnil in Hskip. simpl in Hskip. lia.
  - split; [exact Hor | split].
    + intros Heq. exfalso. apply Hne, length_zero_iff_nil. lia.
    + intros _ w4 H4. exact (Hrun w4 H4).
Qed.

End ApplyClaims.

Section ValidationClaims.
Context {D V F : Type}
        {drv : DBDriver D} {qv : QueryValidator V} {fsys : FS F}.

Lemma callApply_calls toApply (w : World D V F) :
  calls (snd (callApplyMigrations toApply w))
  = calls w ++ [CallApplyMigrations (migrationsTable (mig w))
                                    (inTransaction (mig w)) toApply].
Proof.
  unfold callApplyMigrations. cbv zeta.
  destruct (ApplyMigrations _ _ _ _) as [r d]. reflexivity.
Qed.

(** Without a validator, validation of migrations that have statements
    does nothing. *)
Lemma validateAll_none toApply (w : World D V F) :
  qvalidator (mig w) = None ->
  Forall (fun m => Statements m <> []) toApply ->
  forEach validate toApply w = (Ok tt, w).
Proof.
  intros Hq. induction 1 as [ | m toApply Hm _ IH]; cbn [forEach].
  - reflexivity.
  - unfold bind, validate at 1.
    destruct (Nat.eqb_spec (List.length (Statements m)) 0) as [Hz | _].
    { destruct (Statements m); [contradiction | discriminate]. }
    rewrite Hq. exact IH.
Qed.

(** C7.  When there is something to apply, [Migrate] validates the whole
    batch before the store is asked to apply anything.  With a validator
    configured, the validator is given the statements of the batch one by
    one, in order, each once and each with the store's dialect; if it
    reports a problem on one, [Migrate] stops there with the report wrapped
    as [ErrInvalidQuery] and [ApplyMigrations] is not called; if it reports
    none, [ApplyMigrations] is called after the last statement was
    validated. *)
Theorem Migrate_validates_first (w w1 w2 w3 : World D V F)
        localMigrations appliedMigrations toApply :
  callCreateMigrationsTable w = (Ok tt, w1) ->
  readMigrations w1 = (Ok localMigrations, w2) ->
  callSelectMigrations w2 = (Ok appliedMigrations, w3) ->
  reconcile localMigrations appliedMigrations = Ok toApply ->
  toApply <> [] ->
  let tbl := migrationsTable (mig w) in
  let batch := CallApplyMigrations tbl (inTransaction (mig w)) toApply in
  let d := Dialect (driver (mig w3)) in
  let stmts := flat_map Statements toApply in
  exists files,
    match qvalidator (mig w) with
    | None =>
        Migrate w = callApplyMigrations toApply w3
        /\ newCalls w (snd (Migrate w)) = loadingCalls tbl files ++ [batch]
    | Some v =>
        exists given r v',
          runValidator v d stmts = (given, r, v')
          /\ match r with
             | Some err =>
                 (exists m,
                    In m toApply
                    /\ fst (Migrate w) = Err (invalidQuery (Fname m) err)
                    /\ errorsIs (invalidQuery (Fname m) err) ErrInvalidQuery
                       = true)
                 /\ newCalls w (snd (Migrate w))
                    = loadingCalls tbl files ++ validationCalls d given
                 /\ filter isApply (newCalls w (snd (Migrate w))) = []
             | None =>
                 given = stmts
                 /\ Migrate w
                    = callApplyMigrations toApply
                        (mkWorld (withValidator (mig w3) v')
                                 (calls w3 ++ validationCalls d stmts))
                 /\ newCalls w (snd (Migrate w))
                    = loadingCalls tbl files ++ validationCalls d stmts
                      ++ [batch]
             end
    end.
Proof.
  intros Hc Hr Hs Hrec Hne tbl batch d stmts.
  destruct (loading_calls _ _ _ _ _ _ Hc Hr Hs)
    as (Ht & Hx & Hq & files & Hcalls).
  exists files.
  assert (Hstm : Forall (fun m => Statements m <> []) toApply).
  { apply Forall_forall. intros m Hin.
    assert (Hl : In m localMigrations).
    { unfold reconcile in Hrec.
      destruct (_ <? _)%nat; [discriminate | ].
      destruct (checkApplied _ _); [discriminate | ].
      inv_pair Hrec. exact (In_skipn_list _ _ _ Hin). }
    exact (readMigrations_has_statement _ _ _ _ Hr Hl). }
  assert (HM : Migrate w
               = bind (forEach validate toApply)
                      (fun _ => callApplyMigrations toApply) w3).
  { rewrite (Migrate_after_loading _ _ _ _ _ _ Hc Hr Hs), Hrec.
    unfold applyPending.
    destruct toApply; [contradiction | reflexivity]. }
  rewrite HM. unfold bind. rewrite <- Hq.
  destruct (qvalidator (mig w3)) as [v | ] eqn:Ev.
  - destruct (runValidator v d stmts) as [[given r] v'] eqn:Erun.
    exists given, r, v'. split; [reflexivity | ].
    destruct (validateAll_run toApply Hstm w3 v Ev given r v' Erun)
      as (res & Hrun & Hres).
    rewrite Hrun. fold d.
    destruct r as [err | ].
    + destruct Hres as (m & Hin & ->). cbn [fst snd].
      assert (Hnew : newCalls w
                       (mkWorld (withValidator (mig w3) v')
                                (calls w3 ++ validationCalls d given))
                     = loadingCalls tbl files ++ validationCalls d given).
      { apply newCalls_app. cbn [calls]. rewrite Hcalls, <- app_assoc.
        reflexivity. }
      split; [exists m; repeat split; assumption | ].
      split; [exact Hnew | ].
      rewrite Hnew, filter_app.
      rewrite (quiet_filter _ (proj1 (loadingCalls_quiet tbl files))).
      rewrite (quiet_filter _ (proj2 (filter_validationCalls d given))).
      reflexivity.
    + subst res. pose proof (runValidator_all _ _ _ _ _ Erun) as ->.
      split; [reflexivity | ]. split; [reflexivity | ].
      apply newCalls_app. rewrite callApply_calls. cbn [calls mig].
      cbn [migrationsTable inTransaction withValidator].
      rewrite Hcalls, Ht, Hx, <- !app_assoc. reflexivity.
  - rewrite (validateAll_none toApply w3 Ev Hstm).
    split; [reflexivity | ].
    apply newCalls_app. rewrite callApply_calls.
    rewrite Hcalls, Ht, Hx, <- !app_assoc. reflexivity.
Qed.

(** Versions with a gap do not pass the sequence check. *)
Lemma checkSequence_gap raw :
  versionsInRange raw -> hasGap (map Version raw) ->
  exists e, checkSequence (sortSlice lessVersion raw) = Some e
            /\ errorsIs e ErrInvalidMigrationFile = true.
Proof.
  intros Hrange (hi & k & Hhi & Hk & Hno).
  destruct (checkSequence (sortSlice lessVersion raw)) as [e | ] eqn:Ec.
  - exists e. split; [reflexivity | exact (checkSequence_error _ _ Ec)].
  - exfalso. apply Hno.
    pose proof (sortSlice_perm lessVersion raw) as Hperm.
    assert (Hnth : forall i m,
              nth_error (sortSlice lessVersion raw) i = Some m ->
              Version m = Z.of_nat i + 1).
    { apply checkSequence_versions; [apply sortSlice_ascending | | exact Ec].
      exact (Permutation_Forall (Permutation_sym Hperm) Hrange). }
    apply in_map_iff in Hhi. destruct Hhi as (mh & Hvh & Hin).
    apply (Permutation_in _ (Permutation_sym Hperm)) in Hin.
    apply In_nth_error in Hin. destruct Hin as [i Hi].
    pose proof (Hnth i mh Hi) as Hvi.
    assert (Hi' : (i < List.length (sortSlice lessVersion raw))%nat).
    { apply nth_error_Some. rewrite Hi. discriminate. }
    destruct (nth_error (sortSlice lessVersion raw) (Z.to_nat (k - 1)))
      as [mk | ] eqn:Ek.
    + apply in_map_iff. exists mk. split.
      * rewrite (Hnth _ mk Ek). lia.
      * apply (Permutation_in _ Hperm). exact (nth_error_In _ _ Ek).
    + apply nth_error_None in Ek. lia.
Qed.

(** C4, as the code has it.  When making the tracking table succeeds and
    the files of the folder are listed, named and read without error,
    versions with a gap make [Migrate] return an
    [ErrInvalidMigrationFile] after the tracking table was made and before
    anything else is asked of the store: making the table is the only
    store call of the run, and the validator is not called. *)
Theorem Migrate_gap_rejected (w w1 w2 w3 : World D V F) files raw :
  callCreateMigrationsTable w = (Ok tt, w1) ->
  listFiles "." w1 = (Ok files, w2) ->
  readFiles files [] w2 = (Ok raw, w3) ->
  hasGap (map Version raw) ->
  exists e,
    Migrate w = (Err e, w3)
    /\ errorsIs e ErrInvalidMigrationFile = true
    /\ newCalls w w3
       = CallCreateMigrationsTable (migrationsTable (mig w))
         :: CallReadDir "." :: map CallReadFile files
    /\ filter isStoreCall (newCalls w w3)
       = [CallCreateMigrationsTable (migrationsTable (mig w))]
    /\ filter isValidate (newCalls w w3) = [].
Proof.
  intros Hc Hl Hf Hgap.
  destruct (readFiles_inv _ _ _ _ _ Hf) as (new & Hnew & Hall & Hw3).
  cbn [app] in Hnew. subst new.
  assert (Hrange : versionsInRange raw).
  { clear - Hall. induction Hall as [ | file m files raw Hp _ IH];
      constructor; [ | exact IH].
    destruct Hp as (version & data & Hv & _ & ->).
    exact (parseVersion_range _ _ Hv). }
  destruct (checkSequence_gap raw Hrange Hgap) as (e & Hseq & He).
  exists e.
  assert (HM : Migrate w = (Err e, w3)).
  { unfold Migrate. unfold bind at 1. rewrite Hc.
    unfold bind at 1, readMigrations. unfold bind at 1. rewrite Hl.
    unfold bind at 1. rewrite Hf. rewrite Hseq. reflexivity. }
  assert (Hcalls : newCalls w w3
                   = CallCreateMigrationsTable (migrationsTable (mig w))
                     :: CallReadDir "." :: map CallReadFile files).
  { apply newCalls_app. rewrite Hw3. cbn [calls].
    destruct (callCreate_ok _ _ Hc) as (Hc1 & _).
    unfold listFiles, callReadDir in Hl. unfold_run.
    destruct (ReadDir _ _); [ | discriminate].
    destruct (listEntries _ _); [ | discriminate].
    inv_pair Hl. cbn [calls]. rewrite Hc1, <- !app_assoc. reflexivity. }
  repeat split; try assumption.
  - rewrite Hcalls. cbn [filter isStoreCall]. f_equal.
    clear. induction files as [ | f files IH]; [reflexivity | exact IH].
  - rewrite Hcalls. cbn [filter isValidate].
    clear. induction files as [ | f files IH]; [reflexivity | exact IH].
Qed.

End ValidationClaims.

(* ===================================================================== *)
(** ** Runs on concrete folders and stores *)
(* ===================================================================== *)

(** What is read from the folder of two migrations. *)
Example twoLocal_read :
  map (fun m => (Version m, Fname m, Statements m)) twoLocal
  = [(1, "1_a.sql", ["CREATE TABLE a (id INT);"]);
     (2, "2_b.sql",
      ["CREATE TABLE b (id INT); "; " CREATE INDEX b_id ON b (id);"])].
Proof. reflexivity. Qed.

(** The consistency check on a store whose record of [1_demo.sql] has
    another hash than the file. *)
Lemma Migrate_consistency_check_witness :
  exists e,
    Migrate (start diverged demoFolder None)
    = (Err e, afterSelect (start diverged demoFolder None))
    /\ errorsIs e ErrInvalidMigrationFile = true.
Proof.
  refine (proj1 (Migrate_consistency_check
                   (start diverged demoFolder None)
                   (afterCreate (start diverged demoFolder None))
                   (afterRead (start diverged demoFolder None))
                   (afterSelect (start diverged demoFolder None))
                   [m1] [staleRecord] _ _ _) _).
  - vm_compute. reflexivity.
  - vm_compute. reflexivity.
  - vm_compute. reflexivity.
  - right. exists 0%nat, staleRecord, m1.
    repeat split; try reflexivity. right. discriminate.
Defined.

(** Two local migrations, the first applied: the second is the batch. *)
Lemma Migrate_applies_suffix_witness :
  filter isApply
    (newCalls (start oneApplied twoFolder None)
              (snd (Migrate (start oneApplied twoFolder None))))
  = [CallApplyMigrations "schema_migrations" false (skipn 1 twoLocal)].
Proof.
  refine (proj2 (proj2 (proj2 (Migrate_applies_suffix
                   (start oneApplied twoFolder None)
                   (afterCreate (start oneApplied twoFolder None))
                   (afterRead (start oneApplied twoFolder None))
                   (afterSelect (start oneApplied twoFolder None))
                   twoLocal (firstn 1 twoLocal) _ _ _ _ _)) _
                   (afterSelect (start oneApplied twoFolder None)) _)).
  - vm_compute. reflexivity.
  - vm_compute. reflexivity.
  - vm_compute. reflexivity.
  - vm_compute. lia.
  - intros [ | [ | i]] a l Ha Hl; simpl in Ha, Hl; try discriminate.
    injection Ha as <-. injection Hl as <-. split; reflexivity.
  - vm_compute. lia.
  - vm_compute. reflexivity.
Defined.

(** The hash of the file of the tests. *)
Lemma readMigrations_hash_witness :
  exists data,
    ReadFile demoFolder "1_demo.sql" = Ok data
    /\ Hash m1 = Sha256.hex (Sha256.Sum256 (Bytes.TrimSpace data))
    /\ Hash m1 = demoHash.
Proof.
  destruct (readMigrations_hash
              (start emptyStore demoFolder None)
              (snd (readMigrations (start emptyStore demoFolder None)))
              [m1]) with (m := m1)
    as (data & Hread & Hhash & _ & _ & _ & _ & Hdemo).
  - vm_compute. reflexivity.
  - left. reflexivity.
  - exists data. split; [exact Hread | ]. split; [exact Hhash | ].
    apply Hdemo. cbn in Hread. injection Hread as <-. reflexivity.
Defined.

(** A validator that reports the third of three statements: all three
    were given to it, and nothing was applied. *)
Lemma Migrate_validates_first_witness :
  (exists m,
     In m twoLocal
     /\ fst (Migrate (start emptyStore twoFolder (Some noIndexes)))
        = Err (invalidQuery (Fname m) (Foreign "rejected")))
  /\ filter isValidate
       (newCalls (start emptyStore twoFolder (Some noIndexes))
                 (snd (Migrate (start emptyStore twoFolder (Some noIndexes)))))
     = map (CallValidateQuery "sqlite")
           ["CREATE TABLE a (id INT);"; "CREATE TABLE b (id INT); ";
            " CREATE INDEX b_id ON b (id);"]
  /\ filter isApply
       (newCalls (start emptyStore twoFolder (Some noIndexes))
                 (snd (Migrate (start emptyStore twoFolder (Some noIndexes)))))
     = [].
Proof.
  destruct (Migrate_validates_first
              (start emptyStore twoFolder (Some noIndexes))
              (afterCreate (start emptyStore twoFolder (Some noIndexes)))
              (afterRead (start emptyStore twoFolder (Some noIndexes)))
              (afterSelect (start emptyStore twoFolder (Some noIndexes)))
              twoLocal [] twoLocal)
    as (files & given & r & v' & Hrun & Hres).
  - vm_compute. reflexivity.
  - vm_compute. reflexivity.
  - vm_compute. reflexivity.
  - vm_compute. reflexivity.
  - discriminate.
  - vm_compute in Hrun. injection Hrun as <- <- <-.
    destruct Hres as ((m & Hin & Hfst & _) & Hcalls & Happly).
    split; [exists m; split; assumption | ].
    split; [ | exact Happly].
    vm_compute. reflexivity.
Defined.

(** A store that cannot make the tracking table. *)
Lemma Migrate_create_fails_witness :
  Migrate (start broken demoFolder None)
  = (Err (Foreign "error"),
     mkWorld (mkMigrator broken "schema_migrations" demoFolder None false)
             [CallCreateMigrationsTable "schema_migrations"]).
Proof.
  exact (Migrate_create_fails (start broken demoFolder None)
                              (Foreign "error") broken eq_refl).
Defined.

(** The versions of the folder of two migrations. *)
Lemma readMigrations_versions_witness :
  (forall i m, nth_error twoLocal i = Some m -> Version m = Z.of_nat i + 1)
  /\ NoDup (map Version twoLocal).
Proof.
  destruct (readMigrations_versions
              (start emptyStore twoFolder None)
              (snd (readMigrations (start emptyStore twoFolder None)))
              twoLocal) as (Hnth & _ & Hnodup & _).
  - vm_compute. reflexivity.
  - split; assumption.
Defined.

(** The statements of the file of white space. *)
Lemma readMigrations_statements_witness :
  (1 <= List.length (Statements blank))%nat
  /\ Statements blank = [EmptyString].
Proof.
  destruct (readMigrations_statements
              (start emptyStore blankFolder None)
              (snd (readMigrations (start emptyStore blankFolder None)))
              [blank]) with (m := blank) as (Hlen & _ & _ & Hblank).
  - vm_compute. reflexivity.
  - left. reflexivity.
  - split; [exact Hlen | ].
    apply (Hblank [" "%char; ascii_of_nat 10; ascii_of_nat 9]).
    + reflexivity.
    + repeat (apply Bytes.spaceOnly_1; [reflexivity | ]).
      apply Bytes.spaceOnly_nil.
Defined.

(** The folder with [1_x.sql] and [3_y.sql]. *)
Lemma Migrate_gap_rejected_witness :
  exists e,
    Migrate (start emptyStore gapFolder None)
    = (Err e, afterRead (start emptyStore gapFolder None))
    /\ errorsIs e ErrInvalidMigrationFile = true
    /\ newCalls (start emptyStore gapFolder None)
                (afterRead (start emptyStore gapFolder None))
       = [CallCreateMigrationsTable "schema_migrations";
          CallReadDir "."; CallReadFile "1_x.sql"; CallReadFile "3_y.sql"].
Proof.
  destruct (Migrate_gap_rejected
              (start emptyStore gapFolder None)
              (afterCreate (start emptyStore gapFolder None))
              (snd (listFiles "." (afterCreate (start emptyStore gapFolder None))))
              (afterRead (start emptyStore gapFolder None))
              ["1_x.sql"; "3_y.sql"] gapRaw)
    as (e & HM & He & Hcalls & _).
  - vm_compute. reflexivity.
  - vm_compute. reflexivity.
  - vm_compute. reflexivity.
  - exists 3, 2. split; [right; left; reflexivity | ].
    split; [lia | ]. intros [H | [H | []]]; discriminate.
  - exists e. repeat split; assumption.
Defined.

(** C4 as stated fails: on the folder with [1_x.sql] and [3_y.sql] the run
    is rejected with an [ErrInvalidMigrationFile], but the store was
    called before that, to make the tracking table. *)
Lemma gap_rejected_after_store_call :
  let r := Migrate (start emptyStore gapFolder None) in
  (exists e, fst r = Err e /\ errorsIs e ErrInvalidMigrationFile = true)
  /\ calls (snd r)
     = [CallCreateMigrationsTable "schema_migrations";
        CallReadDir "."; CallReadFile "1_x.sql"; CallReadFile "3_y.sql"]
  /\ existsb isStoreCall (calls (snd r)) = true.
Proof.
  vm_compute. split; [eexists; split; reflexivity | split; reflexivity].
Qed.

(** C3 on the code: a file of white space only is not an error.  It is
    read as one empty statement, passes [validate], and is handed to the
    store. *)
Theorem blank_file_is_applied :
  let r := Migrate (start emptyStore blankFolder None) in
  Bytes.spaceOnly [" "%char; ascii_of_nat 10; ascii_of_nat 9]
  /\ fst r = Ok tt
  /\ calls (snd r)
     = [CallCreateMigrationsTable "schema_migrations";
        CallReadDir "."; CallReadFile "1_blank.sql";
        CallSelectMigrations "schema_migrations";
        CallApplyMigrations "schema_migrations" false [blank]].
Proof.
  split.
  - repeat (apply Bytes.spaceOnly_1; [reflexivity | ]).
    apply Bytes.spaceOnly_nil.
  - vm_compute. split; reflexivity.
Qed.

(** C5 on the code: [1abc_x.sql] has no integer before its underscore,
    and is read as version 1 all the same, because [Sscanf] stops at the
    first character that is not a digit and does not look further. *)
Theorem letters_after_digits_accepted :
  let r := Migrate (start emptyStore lettersFolder None) in
  Strings.sliceTo "1abc_x.sql" (Strings.Index "1abc_x.sql" "_") = "1abc"
  /\ parseVersion "1abc_x.sql" = Ok 1
  /\ fst r = Ok tt
  /\ filter isApply (calls (snd r))
     = [CallApplyMigrations "schema_migrations" false
          [mkMigration 1 "1abc_x.sql" None [demoStatement] demoHash]].
Proof.
  vm_compute. repeat split; reflexivity.
Qed.

(* ===================================================================== *)
(** ** Listing the folder *)
(* ===================================================================== *)

Lemma listEntries_find entries : forall acc,
  match find refused entries with
  | None => listEntries entries acc = Ok (acc ++ map Name entries)
  | Some e =>
      exists err,
        listEntries entries acc = Err err
        /\ errorsIs err (if IsDir e then ErrMigrationFolder
                         else ErrInvalidMigrationFile) = true
  end.
Proof.
  induction entries as [ | entry entries IH]; intros acc;
    cbn [find listEntries map].
  - rewrite app_nil_r. reflexivity.
  - unfold refused at 1.
    destruct (IsDir entry) eqn:Ed; cbn [orb].
    + rewrite Ed. eexists; split; reflexivity.
    + destruct (Strings.HasSuffix (Name entry) ".sql"); cbn [negb].
      * specialize (IH (acc ++ [Name entry])).
        destruct (find refused entries).
        -- exact IH.
        -- rewrite IH, <- app_assoc. reflexivity.
      * rewrite Ed. eexists; split; reflexivity.
Qed.

Section ListingClaims.
Context {D V F : Type}
        {drv : DBDriver D} {qv : QueryValidator V} {fsys : FS F}.

(** [listFiles] returns the names of the entries, in the order of the
    directory, when no entry is a folder and every name ends in [.sql];
    otherwise the first entry that is a folder or has another ending
    decides the error: [ErrMigrationFolder] for a folder (whatever its
    name), [ErrInvalidMigrationFile] for a file. *)
Theorem listFiles_first_refused (w : World D V F) dir entries :
  ReadDir (folder (mig w)) dir = Ok entries ->
  match find refused entries with
  | None => fst (listFiles dir w) = Ok (map Name entries)
  | Some e =>
      exists err,
        fst (listFiles dir w) = Err err
        /\ errorsIs err (if IsDir e then ErrMigrationFolder
                         else ErrInvalidMigrationFile) = true
  end.
Proof.
  intros H. unfold listFiles, callReadDir, bind, ofResult. rewrite H.
  pose proof (listEntries_find entries []) as L.
  destruct (find refused entries).
  - destruct L as (err & -> & He). exists err. auto.
  - rewrite L. reflexivity.
Qed.

End ListingClaims.

(* ===================================================================== *)
(** ** Sorted lists are unique *)
(* ===================================================================== *)

Lemma sorted_perm_eq_Z l1 : forall l2,
  StronglySorted Z.le l1 -> StronglySorted Z.le l2 ->
  Permutation l1 l2 -> l1 = l2.
Proof.
  induction l1 as [ | a l1 IH]; intros l2 H1 H2 Hp.
  - apply Permutation_nil in Hp. auto.
  - destruct l2 as [ | b l2].
    + apply Permutation_sym, Permutation_nil in Hp. discriminate.
    + inversion H1 as [ | ? ? Hs1 Ha]; subst.
      inversion H2 as [ | ? ? Hs2 Hb]; subst.
      assert (Hab : a = b).
      { assert (Hle1 : a <= b).
        { destruct (Permutation_in _ (Permutation_sym Hp) (or_introl eq_refl))
            as [E | Hin]; [lia | ].
          exact (proj1 (Forall_forall _ _) Ha _ Hin). }
        assert (Hle2 : b <= a).
        { destruct (Permutation_in _ Hp (or_introl eq_refl))
            as [E | Hin]; [lia | ].
          exact (proj1 (Forall_forall _ _) Hb _ Hin). }
        lia. }
      subst b. f_equal.
      apply IH; try assumption. exact (Permutation_cons_inv Hp).
Qed.

Lemma oneTo_sorted n : forall a,
  StronglySorted Z.le (map Z.of_nat (seq a n)).
Proof.
  induction n as [ | n IH]; intros a; cbn [seq map]; constructor.
  - apply IH.
  - apply Forall_forall. intros x Hin. apply in_map_iff in Hin.
    destruct Hin as (k & <- & Hk). apply in_seq in Hk. lia.
Qed.

Lemma ascending_versions l :
  ascending l -> StronglySorted Z.le (map Version l).
Proof.
  unfold ascending. induction 1 as [ | a l _ IH Ha]; cbn [map]; constructor.
  - exact IH.
  - apply Forall_forall. intros x Hin. apply in_map_iff in Hin.
    destruct Hin as (m & <- & Hm).
    exact (proj1 (Forall_forall _ _) Ha _ Hm).
Qed.

(** Two lists of migrations sorted by version, with the same elements and
    no version twice, are the same list. *)
Lemma ascending_perm_eq l1 : forall l2,
  ascending l1 -> ascending l2 -> NoDup (map Version l1) ->
  Permutation l1 l2 -> l1 = l2.
Proof.
  unfold ascending.
  induction l1 as [ | a l1 IH]; intros l2 H1 H2 Hn Hp.
  - apply Permutation_nil in Hp. auto.
  - destruct l2 as [ | b l2].
    + apply Permutation_sym, Permutation_nil in Hp. discriminate.
    + inversion H1 as [ | ? ? Hs1 Ha]; subst.
      inversion H2 as [ | ? ? Hs2 Hb]; subst.
      cbn [map] in Hn. inversion Hn as [ | ? ? Hnotin Hn']; subst.
      assert (Hab : a = b).
      { destruct (Permutation_in _ Hp (or_introl eq_refl)) as [E | Hina];
          [congruence | ].
        destruct (Permutation_in _ (Permutation_sym Hp) (or_introl eq_refl))
          as [E | Hinb]; [congruence | ].
        pose proof (proj1 (Forall_forall _ _) Hb _ Hina) as L1.
        pose proof (proj1 (Forall_forall _ _) Ha _ Hinb) as L2.
        cbv beta in L1, L2. exfalso. apply Hnotin. apply in_map_iff. exists b. split; [lia | ].
        exact Hinb. }
      subst b. f_equal.
      apply IH; try assumption. exact (Permutation_cons_inv Hp).
Qed.

(** The sequence check passes on versions 1, 2, ..., n. *)
Lemma checkSteps_consecutive rest : forall prev n,
  map Version rest = map Z.of_nat (seq (S (Z.to_nat (Version prev))) n) ->
  0 <= Version prev ->
  checkSteps prev rest = None.
Proof.
  induction rest as [ | cur rest IH]; intros prev n H Hp;
    cbn [checkSteps]; [reflexivity | ].
  destruct n as [ | n]; [discriminate | ].
  cbn [map seq] in H. injection H as Hv Hrest.
  replace (Version cur - Version prev) with 1 by lia.
  change (wrap64 1 =? 1) with true. cbn [negb].
  apply (IH cur n); [ | lia].
  rewrite Hrest. f_equal. f_equal. lia.
Qed.

Lemma checkSequence_oneTo items :
  map Version items = oneTo (List.length items) ->
  checkSequence items = None.
Proof.
  unfold oneTo. destruct items as [ | first rest]; [reflexivity | ].
  cbn [List.length seq map checkSequence]. intros H. injection H as Hv Hrest.
  rewrite Hv. cbn [Z.eqb Pos.eqb negb].
  apply (checkSteps_consecutive rest first (List.length rest)).
  - rewrite Hv. exact Hrest.
  - rewrite Hv. lia.
Qed.

(* ===================================================================== *)
(** ** What [readMigrations] returns, and what it does not depend on *)
(* ===================================================================== *)

Section ReadingClaims.
Context {D V F : Type}
        {drv : DBDriver D} {qv : QueryValidator V} {fsys : FS F}.

Lemma readFiles_run files : forall items raw (w : World D V F),
  Forall2 (parsedFrom (folder (mig w))) files raw ->
  readFiles files items w
  = (Ok (items ++ raw),
     mkWorld (mig w) (calls w ++ map CallReadFile files)).
Proof.
  induction files as [ | file files IH]; intros items raw w Hall;
    inversion Hall as [ | ? m ? raw' Hp Hall']; subst; cbn [readFiles].
  - unfold ret. cbn [map]. rewrite !app_nil_r, world_eta. reflexivity.
  - destruct Hp as (version & data & Hv & Hd & ->).
    unfold bind, ofResult, callReadFile. rewrite Hv, Hd.
    rewrite (IH _ raw' (mkWorld (mig w) (logged (CallReadFile file) w))
                Hall').
    cbn [mig calls map]. unfold logged.
    rewrite <- !app_assoc. reflexivity.
Qed.

(** [readMigrations] on a folder that lists and whose files all parse and
    read. *)
Lemma readMigrations_run (w : World D V F) entries files raw :
  ReadDir (folder (mig w)) "." = Ok entries ->
  listEntries entries [] = Ok files ->
  Forall2 (parsedFrom (folder (mig w))) files raw ->
  readMigrations w
  = (match checkSequence (sortSlice lessVersion raw) with
     | Some e => Err e
     | None => Ok (sortSlice lessVersion raw)
     end,
     mkWorld (mig w) (calls w ++ CallReadDir "." :: map CallReadFile files)).
Proof.
  intros Hd Hl Hall.
  unfold readMigrations, listFiles, callReadDir.
  unfold bind at 1. unfold bind at 1. rewrite Hd. unfold ofResult.
  rewrite Hl. unfold bind.
  rewrite (readFiles_run files [] raw
             (mkWorld (mig w) (logged (CallReadDir ".") w)) Hall).
  cbn [app mig calls].
  unfold logged. rewrite <- app_assoc. cbn [app].
  destruct (checkSequence (sortSlice lessVersion raw)); reflexivity.
Qed.

Lemma parsedFrom_Fname (f : F) files raw :
  Forall2 (parsedFrom f) files raw -> map Fname raw = files.
Proof.
  induction 1 as [ | file m files raw Hp _ IH]; [reflexivity | ].
  destruct Hp as (version & data & _ & _ & ->). cbn [map Fname parseContent].
  rewrite IH. reflexivity.
Qed.

(** [readMigrations] succeeds on every well-formed folder: when the folder
    lists, every file name gives a version, every file can be read, and
    the versions are 1 to n in some order, it returns one migration for
    each file, in the order of the versions. *)
Theorem readMigrations_complete (w : World D V F) entries files raw :
  ReadDir (folder (mig w)) "." = Ok entries ->
  listEntries entries [] = Ok files ->
  Forall2 (parsedFrom (folder (mig w))) files raw ->
  Permutation (map Version raw) (oneTo (List.length raw)) ->
  fst (readMigrations w) = Ok (sortSlice lessVersion raw)
  /\ map Version (sortSlice lessVersion raw) = oneTo (List.length files)
  /\ Permutation (map Fname (sortSlice lessVersion raw)) files.
Proof.
  intros Hd Hl Hall Hperm.
  pose proof (sortSlice_perm lessVersion raw) as Hsp.
  assert (Hlen : List.length (sortSlice lessVersion raw) = List.length raw)
    by exact (Permutation_length Hsp).
  assert (Hfiles : List.length raw = List.length files).
  { rewrite <- (parsedFrom_Fname _ _ _ Hall), length_map. reflexivity. }
  assert (Hvs : map Version (sortSlice lessVersion raw)
                = oneTo (List.length raw)).
  { apply sorted_perm_eq_Z.
    - apply ascending_versions, sortSlice_ascending.
    - apply oneTo_sorted.
    - eapply perm_trans; [apply Permutation_map, Hsp | exact Hperm]. }
  rewrite (readMigrations_run w entries files raw Hd Hl Hall). cbn [fst].
  rewrite checkSequence_oneTo by (rewrite Hlen; exact Hvs).
  repeat split.
  - rewrite Hvs, Hfiles. reflexivity.
  - rewrite <- (parsedFrom_Fname _ _ _ Hall). apply Permutation_map, Hsp.
Qed.

(** What [readMigrations] makes of one file is determined by the file. *)
Lemma parsedFrom_fun (f : F) file m m' :
  parsedFrom f file m -> parsedFrom f file m' -> m = m'.
Proof.
  intros (v & d & Hv & Hd & ->) (v' & d' & Hv' & Hd' & ->).
  rewrite Hv in Hv'. rewrite Hd in Hd'. congruence.
Qed.

Lemma parsedFrom_permuted (f : F) files raw files' :
  Forall2 (parsedFrom f) files raw -> Permutation files files' ->
  exists raw', Forall2 (parsedFrom f) files' raw' /\ Permutation raw raw'.
Proof.
  intros Hall Hp. revert raw Hall.
  induction Hp as [ | x l l' _ IH | x y l | l l' l'' _ IH1 _ IH2];
    intros raw Hall.
  - inversion Hall; subst. exists []. split; constructor.
  - inversion Hall as [ | ? m ? raw0 Hm Hall0]; subst.
    destruct (IH _ Hall0) as (raw' & H' & Hp').
    exists (m :: raw'). split; constructor; assumption.
  - inversion Hall as [ | ? my ? raw0 Hy Hall0]; subst.
    inversion Hall0 as [ | ? mx ? raw1 Hx Hall1]; subst.
    exists (mx :: my :: raw1). split.
    + repeat constructor; assumption.
    + apply perm_swap.
  - destruct (IH1 _ Hall) as (raw' & H' & Hp').
    destruct (IH2 _ H') as (raw'' & H'' & Hp'').
    exists raw''. split; [exact H'' | exact (perm_trans Hp' Hp'')].
Qed.

Lemma find_refused_permuted entries entries' :
  Permutation entries entries' ->
  find refused entries = None -> find refused entries' = None.
Proof.
  intros Hp Hnone.
  destruct (find refused entries') as [e | ] eqn:E; [ | reflexivity].
  apply find_some in E. destruct E as [Hin Hr].
  apply (Permutation_in _ (Permutation_sym Hp)) in Hin.
  rewrite (find_none _ _ Hnone e Hin) in Hr. discriminate.
Qed.

Lemma parsedFrom_same_files (f g : F) files raw :
  (forall name, ReadFile g name = ReadFile f name) ->
  Forall2 (parsedFrom f) files raw -> Forall2 (parsedFrom g) files raw.
Proof.
  intros Hsame. induction 1 as [ | file m files raw Hp _ IH]; constructor.
  - destruct Hp as (v & d & Hv & Hd & ->). exists v, d.
    rewrite Hsame. auto.
  - exact IH.
Qed.


(** An error of the file system is returned as it is: the error of reading
    the directory, and the error of reading a file, after which no other
    file is read. *)
Theorem readMigrations_fs_errors (w : World D V F) e :
  (ReadDir (folder (mig w)) "." = Err e ->
   readMigrations w
   = (Err e, mkWorld (mig w) (calls w ++ [CallReadDir "."])))
  /\ (forall entries before file after raw version,
        ReadDir (folder (mig w)) "." = Ok entries ->
        listEntries entries [] = Ok (before ++ file :: after) ->
        Forall2 (parsedFrom (folder (mig w))) before raw ->
        parseVersion file = Ok version ->
        ReadFile (folder (mig w)) file = Err e ->
        readMigrations w
        = (Err e,
           mkWorld (mig w)
                   (calls w ++ CallReadDir "."
                    :: map CallReadFile (before ++ [file])))).
Proof.
  split.
  - intros H. unfold readMigrations, listFiles, callReadDir.
    unfold bind at 1. unfold bind at 1. rewrite H. reflexivity.
  - intros entries before file after raw version Hd Hl Hall Hv Hr.
    unfold readMigrations, listFiles, callReadDir.
    unfold bind at 1. unfold bind at 1. rewrite Hd. unfold ofResult.
    rewrite Hl. unfold bind at 1.
    assert (G : forall before raw items (w0 : World D V F),
              Forall2 (parsedFrom (folder (mig w0))) before raw ->
              ReadFile (folder (mig w0)) file = Err e ->
              readFiles (before ++ file :: after) items w0
              = (Err e,
                 mkWorld (mig w0)
                         (calls w0 ++ map CallReadFile (before ++ [file])))).
    { clear - Hv. induction before as [ | b before IH];
        intros raw items w0 Hall Hr; inversion Hall as [ | ? m ? raw' Hp Hall'];
        subst; cbn [app readFiles].
      - unfold bind, ofResult, callReadFile. rewrite Hv, Hr. reflexivity.
      - destruct Hp as (vb & db & Hvb & Hdb & ->).
        unfold bind at 1, ofResult. rewrite Hvb.
        unfold bind at 1, callReadFile. rewrite Hdb.
        rewrite (IH raw' _ (mkWorld (mig w0) (logged (CallReadFile b) w0))
                    Hall' Hr).
        cbn [mig calls map]. unfold logged. rewrite <- app_assoc.
        reflexivity. }
    rewrite (G before raw [] (mkWorld (mig w) (logged (CallReadDir ".") w))
               Hall Hr).
    cbn [mig calls]. unfold logged.
    rewrite <- app_assoc. reflexivity.
Qed.

End ReadingClaims.

(* ===================================================================== *)
(** ** The calls of a run, whatever happens *)
(* ===================================================================== *)

Section RunClaims.
Context {D V F : Type}
        {drv : DBDriver D} {qv : QueryValidator V} {fsys : FS F}.

Lemma stretch_refl kind (w : World D V F) : stretch kind w w.
Proof. repeat split. exists []. rewrite app_nil_r. auto. Qed.

Lemma stretch_trans kind (w1 w2 w3 : World D V F) :
  stretch kind w1 w2 -> stretch kind w2 w3 -> stretch kind w1 w3.
Proof.
  intros (Ht & Hx & Hf & l & Hl & Hk) (Ht' & Hx' & Hf' & l' & Hl' & Hk').
  repeat split; try congruence.
  exists (l ++ l'). rewrite Hl', Hl, app_assoc, forallb_app, Hk, Hk'. auto.
Qed.

Lemma stretch_one kind (w : World D V F) m c :
  migrationsTable m = migrationsTable (mig w) ->
  inTransaction m = inTransaction (mig w) ->
  folder m = folder (mig w) ->
  kind c = true ->
  stretch kind w (mkWorld m (logged c w)).
Proof.
  intros Ht Hx Hf Hk. repeat split; try assumption.
  exists [c]. cbn [forallb]. rewrite Hk. auto.
Qed.

Lemma forEach_stretch {A} kind (body : A -> M unit) :
  (forall x (w w' : World D V F) r, body x w = (r, w') -> stretch kind w w') ->
  forall xs (w w' : World D V F) r,
    forEach body xs w = (r, w') -> stretch kind w w'.
Proof.
  intros Hbody. induction xs as [ | x xs IH]; intros w w' r H;
    cbn [forEach] in H.
  - unfold ret in H. inv_pair H. apply stretch_refl.
  - unfold bind in H. destruct (body x w) as [[[] | e] w1] eqn:E.
    + exact (stretch_trans _ _ _ _ (Hbody _ _ _ _ E) (IH _ _ _ H)).
    + inv_pair H. exact (Hbody _ _ _ _ E).
Qed.

Lemma validateAll_stretch toApply (w w' : World D V F) r :
  forEach validate toApply w = (r, w') -> stretch isCheck w w'.
Proof.
  apply forEach_stretch. intros m w0 w0' r0. unfold validate.
  destruct (List.length (Statements m) =? 0)%nat.
  - unfold fail. intros H. inv_pair H. apply stretch_refl.
  - destruct (qvalidator (mig w0)) as [v0 | ].
    + apply forEach_stretch. intros s w1 w1' r1. unfold validateStatement.
      destruct (qvalidator (mig w1)) as [v | ].
      * unfold callDialect, callValidateQuery. unfold_run.
        destruct (ValidateQuery _ s v) as [[err | ] v']; intros H;
          inv_pair H;
          (repeat split; eexists; rewrite <- app_assoc; split; reflexivity).
      * intros H. inv_pair H. apply stretch_refl.
    + intros H. inv_pair H. apply stretch_refl.
Qed.

Lemma readFiles_stretch files : forall items (w w' : World D V F) r,
  readFiles files items w = (r, w') -> stretch isFSCall w w'.
Proof.
  induction files as [ | file files IH]; intros items w w' r H;
    cbn [readFiles] in H; unfold_run; unfold callReadFile in H.
  - inv_pair H. apply stretch_refl.
  - destruct (parseVersion file); [ | inv_pair H; apply stretch_refl].
    destruct (ReadFile (folder (mig w)) file).
    + apply IH in H. eapply stretch_trans; [ | exact H].
      apply stretch_one; reflexivity.
    + inv_pair H. apply stretch_one; reflexivity.
Qed.

(** Reading the migrations asks the file system only. *)
Lemma readMigrations_stretch (w w' : World D V F) r :
  readMigrations w = (r, w') -> stretch isFSCall w w'.
Proof.
  unfold readMigrations, listFiles, callReadDir. unfold bind at 1.
  unfold bind at 1.
  assert (S0 : stretch isFSCall w
                 (mkWorld (mig w) (logged (CallReadDir ".") w)))
    by (apply stretch_one; reflexivity).
  destruct (ReadDir (folder (mig w)) ".") as [entries | e];
    [ | intros H; inv_pair H; exact S0].
  unfold ofResult.
  destruct (listEntries entries []) as [files | e];
    [ | intros H; inv_pair H; exact S0].
  unfold bind.
  destruct (readFiles files [] _) as [[raw | e] w1] eqn:Ef.
  - apply readFiles_stretch in Ef. intros H.
    assert (w' = w1) by (destruct (checkSequence _); inv_pair H; reflexivity).
    subst w'. exact (stretch_trans _ _ _ _ S0 Ef).
  - apply readFiles_stretch in Ef. intros H. inv_pair H.
    exact (stretch_trans _ _ _ _ S0 Ef).
Qed.

Lemma callCreate_calls (w w1 : World D V F) r :
  callCreateMigrationsTable w = (r, w1) ->
  calls w1 = calls w ++ [CallCreateMigrationsTable (migrationsTable (mig w))]
  /\ migrationsTable (mig w1) = migrationsTable (mig w)
  /\ inTransaction (mig w1) = inTransaction (mig w)
  /\ folder (mig w1) = folder (mig w).
Proof.
  unfold callCreateMigrationsTable. cbv zeta.
  destruct (CreateMigrationsTable _ _) as [r' d]. intros H. inv_pair H.
  repeat split.
Qed.

(** The calls of every run of [Migrate], successful or not, follow one
    order: the tracking table is made first and once; then the file system
    is read; then, if at all, the applied migrations are selected once;
    then come the calls of validation; and [ApplyMigrations] is called at
    most once, as the last call of the run, and never with an empty
    batch. *)
Theorem Migrate_call_order (w : World D V F) :
  let tbl := migrationsTable (mig w) in
  exists reads rest,
    newCalls w (snd (Migrate w))
    = CallCreateMigrationsTable tbl :: reads ++ rest
    /\ forallb isFSCall reads = true
    /\ (rest = []
        \/ exists checks tail,
             rest = CallSelectMigrations tbl :: checks ++ tail
             /\ forallb isCheck checks = true
             /\ (tail = []
                 \/ exists batch,
                      tail = [CallApplyMigrations tbl (inTransaction (mig w))
                                                  batch]
                      /\ batch <> [])).
Proof.
  intros tbl. unfold Migrate. unfold bind at 1.
  destruct (callCreateMigrationsTable w) as [r1 w1] eqn:E1.
  destruct (callCreate_calls _ _ _ E1) as (Hc1 & Ht1 & Hx1 & _).
  destruct r1 as [[] | e1].
  2:{ exists [], []. cbn [snd app]. split; [ | auto].
      apply newCalls_app. exact Hc1. }
  unfold bind at 1.
  destruct (readMigrations w1) as [r2 w2] eqn:E2.
  destruct (readMigrations_stretch _ _ _ E2)
    as (Ht2 & Hx2 & _ & reads & Hc2 & Hk2).
  exists reads.
  destruct r2 as [localMigrations | e2].
  2:{ exists []. cbn [snd]. rewrite app_nil_r. split; [ | auto].
      apply newCalls_app. rewrite Hc2, Hc1, <- app_assoc. reflexivity. }
  unfold bind at 1.
  destruct (callSelectMigrations w2) as [r3 w3] eqn:E3.
  destruct (callSelect_ok _ _ _ E3) as (Hc3 & Ht3 & Hx3 & _ & _).
  assert (Hbase : forall (w4 : World D V F) checks tail,
            calls w4 = calls w3 ++ checks ++ tail ->
            newCalls w w4
            = CallCreateMigrationsTable tbl
              :: reads ++ CallSelectMigrations tbl :: checks ++ tail).
  { intros w4 checks tail H4. apply newCalls_app.
    rewrite H4, Hc3, Hc2, Hc1, Ht2, Ht1. unfold tbl.
    rewrite <- !app_assoc. reflexivity. }
  assert (Hstop : forall (r : Result unit),
            exists rest,
              newCalls w (snd (r, w3))
              = CallCreateMigrationsTable tbl :: reads ++ rest
              /\ forallb isFSCall reads = true
              /\ (rest = []
                  \/ exists checks tail,
                       rest = CallSelectMigrations tbl :: checks ++ tail
                       /\ forallb isCheck checks = true
                       /\ (tail = []
                           \/ exists batch,
                                tail = [CallApplyMigrations tbl
                                          (inTransaction (mig w)) batch]
                                /\ batch <> []))).
  { intros r. exists [CallSelectMigrations tbl]. cbn [snd]. split.
    - apply (Hbase w3 [] []). rewrite app_nil_r. reflexivity.
    - split; [exact Hk2 | ]. right. exists [], []. auto. }
  destruct r3 as [appliedMigrations | e3]; [ | apply Hstop].
  unfold bind, ofResult.
  destruct (reconcile localMigrations appliedMigrations) as [toApply | e4];
    [ | apply Hstop].
  unfold applyPending.
  destruct toApply as [ | m toApply]; [apply Hstop | ].
  cbn [List.length Nat.eqb]. unfold bind.
  destruct (forEach validate (m :: toApply) w3) as [r5 w5] eqn:E5.
  destruct (validateAll_stretch _ _ _ _ E5)
    as (Ht5 & Hx5 & _ & checks & Hc5 & Hk5).
  destruct r5 as [[] | e5].
  - destruct (callApplyMigrations (m :: toApply) w5) as [r6 w6] eqn:E6.
    pose proof (callApply_calls (m :: toApply) w5) as Hc6.
    rewrite E6 in Hc6. cbn [snd] in Hc6 |- *.
    eexists. split.
    + apply (Hbase w6 checks). rewrite Hc6, Hc5, <- app_assoc. reflexivity.
    + split; [exact Hk2 | ].
      right. exists checks. eexists. split; [reflexivity | ].
      split; [exact Hk5 | ]. right. exists (m :: toApply).
      split; [ | discriminate].
      rewrite Ht5, Hx5, Ht3, Hx3, Ht2, Hx2, Ht1, Hx1. reflexivity.
  - cbn [snd]. exists (CallSelectMigrations tbl :: checks). split.
    + rewrite (Hbase w5 checks []); [rewrite app_nil_r; reflexivity | ].
      rewrite app_nil_r. exact Hc5.
    + split; [exact Hk2 | ].
      right. exists checks, []. rewrite app_nil_r. auto.
Qed.

(** When reading the migrations fails, [Migrate] returns the error of
    [readMigrations] as it is, and making the tracking table stays the
    only call to the store: the applied migrations are not selected. *)
Theorem Migrate_read_error (w w1 w2 : World D V F) e :
  callCreateMigrationsTable w = (Ok tt, w1) ->
  readMigrations w1 = (Err e, w2) ->
  Migrate w = (Err e, w2)
  /\ filter isStoreCall (newCalls w w2)
     = [CallCreateMigrationsTable (migrationsTable (mig w))]
  /\ filter isValidate (newCalls w w2) = [].
Proof.
  intros Hc Hr.
  destruct (callCreate_calls _ _ _ Hc) as (Hc1 & _).
  destruct (readMigrations_stretch _ _ _ Hr) as (_ & _ & _ & reads & Hc2 & Hk).
  assert (Hnew : newCalls w w2
                 = CallCreateMigrationsTable (migrationsTable (mig w))
                   :: reads).
  { apply newCalls_app. rewrite Hc2, Hc1, <- app_assoc. reflexivity. }
  assert (Hfs : filter isStoreCall reads = [] /\ filter isValidate reads = []).
  { clear - Hk. induction reads as [ | c reads IH]; [auto | ].
    cbn [forallb] in Hk. apply andb_true_iff in Hk. destruct Hk as [Hc Hk].
    destruct (IH Hk) as [I1 I2].
    destruct c; try discriminate; cbn; auto. }
  split; [ | rewrite Hnew; cbn [filter isStoreCall isValidate];
             destruct Hfs as [-> ->]; auto].
  unfold Migrate. unfold bind at 1. rewrite Hc.
  unfold bind at 1. rewrite Hr. reflexivity.
Qed.

(** After the migrations are read, what the store answers is what
    [Migrate] returns: the error of [SelectMigrations] as it is, and, when
    a batch is left and validation passes, the result of
    [ApplyMigrations], an error or none. *)
Theorem Migrate_store_results (w w1 w2 : World D V F) localMigrations :
  callCreateMigrationsTable w = (Ok tt, w1) ->
  readMigrations w1 = (Ok localMigrations, w2) ->
  (forall e w3,
     callSelectMigrations w2 = (Err e, w3) -> Migrate w = (Err e, w3))
  /\ (forall appliedMigrations w3 toApply w4,
        callSelectMigrations w2 = (Ok appliedMigrations, w3) ->
        reconcile localMigrations appliedMigrations = Ok toApply ->
        toApply <> [] ->
        forEach validate toApply w3 = (Ok tt, w4) ->
        fst (Migrate w)
        = ofError (fst (ApplyMigrations (migrationsTable (mig w))
                                        (inTransaction (mig w))
                                        toApply (driver (mig w4))))).
Proof.
  intros Hc Hr. split.
  - intros e w3 Hs. unfold Migrate. unfold bind at 1. rewrite Hc.
    unfold bind at 1. rewrite Hr. unfold bind at 1. rewrite Hs. reflexivity.
  - intros appliedMigrations w3 toApply w4 Hs Hrec Hne Hv.
    rewrite (Migrate_after_loading _ _ _ _ _ _ Hc Hr Hs), Hrec.
    unfold applyPending. destruct toApply as [ | m toApply];
      [contradiction | ].
    cbn [List.length Nat.eqb]. unfold bind. rewrite Hv.
    destruct (loading_calls _ _ _ _ _ _ Hc Hr Hs) as (Ht & Hx & _).
    destruct (validateAll_stretch _ _ _ _ Hv) as (Ht4 & Hx4 & _).
    unfold callApplyMigrations. cbv zeta. rewrite Ht4, Hx4, Ht, Hx.
    destruct (ApplyMigrations _ _ _ _) as [r d]. reflexivity.
Qed.

End RunClaims.

(* ===================================================================== *)
(** ** Running [Migrate] again *)
(* ===================================================================== *)

Lemma checkApplied_keys applied : forall local,
  checkApplied applied local = None ->
  (List.length applied <= List.length local)%nat ->
  map key applied = map key (firstn (List.length applied) local).
Proof.
  induction applied as [ | a applied IH]; intros local Hc Hlen.
  - reflexivity.
  - destruct local as [ | l local]; [simpl in Hlen; lia | ].
    cbn [checkApplied] in Hc.
    destruct (Z.eqb_spec (Version a) (Version l)) as [Hv | ];
      [ | discriminate].
    destruct (String.eqb_spec (Hash a) (Hash l)) as [Hh | ];
      [ | discriminate].
    cbn [negb] in Hc. cbn [List.length firstn map].
    unfold key at 1 3. rewrite Hv, Hh. f_equal.
    apply IH; [exact Hc | simpl in Hlen; lia].
Qed.

Lemma keys_pointwise (applied local : list Migration) :
  map key applied = map key local ->
  forall i a l,
    nth_error applied i = Some a -> nth_error local i = Some l ->
    Version a = Version l /\ Hash a = Hash l.
Proof.
  intros H i a l Ha Hl.
  apply (map_nth_error key) in Ha. apply (map_nth_error key) in Hl.
  rewrite H, Hl in Ha. unfold key in Ha. injection Ha as Hv Hh. auto.
Qed.

Section RerunClaims.
Context {D V F : Type}
        {drv : DBDriver D} {qv : QueryValidator V} {fsys : FS F}.

Lemma readFiles_same_folder files : forall items (w u : World D V F),
  folder (mig u) = folder (mig w) ->
  fst (readFiles files items u) = fst (readFiles files items w).
Proof.
  induction files as [ | file files IH]; intros items w u Hf;
    cbn [readFiles]; [reflexivity | ].
  unfold bind, ofResult.
  destruct (parseVersion file) as [version | e]; [ | reflexivity].
  unfold callReadFile. rewrite Hf.
  destruct (ReadFile (folder (mig w)) file) as [data | e]; [ | reflexivity].
  apply IH. exact Hf.
Qed.

(** What [readMigrations] returns is decided by the folder alone. *)
Lemma readMigrations_same_folder (w u : World D V F) :
  folder (mig u) = folder (mig w) ->
  fst (readMigrations u) = fst (readMigrations w).
Proof.
  intros Hf. unfold readMigrations, listFiles, callReadDir, bind, ofResult.
  rewrite Hf.
  destruct (ReadDir (folder (mig w)) ".") as [entries | e]; [ | reflexivity].
  destruct (listEntries entries []) as [files | e]; [ | reflexivity].
  pose proof (readFiles_same_folder files []
                (mkWorld (mig w) (logged (CallReadDir ".") w))
                (mkWorld (mig u) (logged (CallReadDir ".") u)) Hf) as E.
  destruct (readFiles files [] (mkWorld (mig u) _)) as [ru u1].
  destruct (readFiles files [] (mkWorld (mig w) _)) as [rw w1].
  cbn [fst] in E. subst ru.
  destruct rw as [raw | e]; [ | reflexivity].
  unfold fail, ret.
  destruct (checkSequence (sortSlice lessVersion raw)); reflexivity.
Qed.

(** [Migrate] never changes the folder it reads. *)
Lemma Migrate_folder (w : World D V F) :
  folder (mig (snd (Migrate w))) = folder (mig w).
Proof.
  unfold Migrate. unfold bind at 1.
  destruct (callCreateMigrationsTable w) as [r1 w1] eqn:E1.
  destruct (callCreate_calls _ _ _ E1) as (_ & _ & _ & Hf1).
  destruct r1 as [[] | e1]; [ | exact Hf1].
  unfold bind at 1.
  destruct (readMigrations w1) as [r2 w2] eqn:E2.
  pose proof (readMigrations_mig _ _ _ E2) as Hm2.
  destruct r2 as [localMigrations | e2]; [ | cbn [snd]; congruence].
  unfold bind at 1.
  destruct (callSelectMigrations w2) as [r3 w3] eqn:E3.
  destruct (callSelect_ok _ _ _ E3) as (_ & _ & _ & Hf3 & _).
  destruct r3 as [appliedMigrations | e3]; [ | cbn [snd]; congruence].
  unfold bind, ofResult.
  destruct (reconcile localMigrations appliedMigrations) as [toApply | e4];
    [ | cbn [snd]; congruence].
  unfold applyPending.
  destruct (List.length toApply =? 0)%nat;
    [unfold ret; cbn [snd]; congruence | ].
  unfold bind.
  destruct (forEach validate toApply w3) as [r5 w5] eqn:E5.
  destruct (validateAll_stretch _ _ _ _ E5) as (_ & _ & Hf5 & _).
  destruct r5 as [[] | e5]; [ | cbn [snd]; congruence].
  unfold callApplyMigrations. cbv zeta.
  destruct (ApplyMigrations _ _ _ _) as [r d]. cbn [snd mig folder withDriver].
  congruence.
Qed.

(** Running [Migrate] again after a run that succeeded does nothing, under
    the store's contract: when the store, asked again, reports the rows it
    reported before followed by the migrations of the batch (by version
    and hash), the second run succeeds, selects, and neither validates nor
    applies anything. *)
Theorem Migrate_rerun_is_noop (w w1 w2 w3 wEnd u1 u2 u3 : World D V F)
        localMigrations appliedMigrations appliedAfter r :
  callCreateMigrationsTable w = (Ok tt, w1) ->
  readMigrations w1 = (Ok localMigrations, w2) ->
  callSelectMigrations w2 = (Ok appliedMigrations, w3) ->
  Migrate w = (Ok tt, wEnd) ->
  callCreateMigrationsTable wEnd = (Ok tt, u1) ->
  readMigrations u1 = (r, u2) ->
  callSelectMigrations u2 = (Ok appliedAfter, u3) ->
  map key appliedAfter
  = map key appliedMigrations
    ++ map key (skipn (List.length appliedMigrations) localMigrations) ->
  Migrate wEnd = (Ok tt, u3)
  /\ filter isApply (newCalls wEnd u3) = []
  /\ filter isValidate (newCalls wEnd u3) = [].
Proof.
  intros Hc Hr Hs HM Hc' Hr' Hs' Hkeys.
  (* the first run passed the consistency check *)
  rewrite (Migrate_after_loading _ _ _ _ _ _ Hc Hr Hs) in HM.
  unfold reconcile in HM.
  destruct (Nat.ltb_spec (List.length localMigrations)
                         (List.length appliedMigrations)) as [ | Hlen];
    [discriminate | ].
  destruct (checkApplied appliedMigrations localMigrations) eqn:Echeck;
    [discriminate | ].
  rewrite (checkApplied_keys _ _ Echeck Hlen), <- map_app, firstn_skipn
    in Hkeys.
  (* the second run reads the same migrations *)
  assert (Hfolder : folder (mig u1) = folder (mig w1)).
  { destruct (callCreate_calls _ _ _ Hc') as (_ & _ & _ & Hf').
    destruct (callCreate_calls _ _ _ Hc) as (_ & _ & _ & Hf).
    pose proof (Migrate_folder w) as HF.
    rewrite (Migrate_after_loading _ _ _ _ _ _ Hc Hr Hs) in HF.
    unfold reconcile in HF.
    destruct (Nat.ltb_spec (List.length localMigrations)
                           (List.length appliedMigrations)); [lia | ].
    rewrite Echeck, HM in HF. cbn [snd] in HF. congruence. }
  pose proof (readMigrations_same_folder w1 u1 Hfolder) as Esame.
  rewrite Hr, Hr' in Esame. cbn [fst] in Esame. subst r.
  (* and finds them all applied *)
  assert (Hlen' : List.length appliedAfter = List.length localMigrations).
  { rewrite <- (length_map key appliedAfter), Hkeys, length_map.
    reflexivity. }
  rewrite (Migrate_after_loading _ _ _ _ _ _ Hc' Hr' Hs').
  rewrite (reconcile_accepts localMigrations appliedAfter);
    [ | lia | exact (keys_pointwise _ _ Hkeys)].
  rewrite Hlen', skipn_all. unfold applyPending. cbn [List.length Nat.eqb].
  split; [reflexivity | ].
  destruct (loading_calls _ _ _ _ _ _ Hc' Hr' Hs')
    as (_ & _ & _ & files & Hcalls).
  rewrite (newCalls_app _ _ _ Hcalls).
  destruct (loadingCalls_quiet (migrationsTable (mig wEnd)) files) as [Q1 Q2].
  split; [exact (quiet_filter _ Q1) | exact Q2].
Qed.

End RerunClaims.

(* ===================================================================== *)
(** ** White space around the content *)
(* ===================================================================== *)

Lemma isSpace1_low c : Bytes.isSpace1 c = true -> Bytes.code c < 128.
Proof.
  unfold Bytes.isSpace1. cbv zeta. intros H.
  apply orb_true_iff in H. destruct H as [H | H].
  - apply andb_true_iff in H. destruct H as [_ H]. apply Z.leb_le in H. lia.
  - apply Z.eqb_eq in H. lia.
Qed.

Lemma isSpace2_bytes c1 c2 :
  Bytes.isSpace2 c1 c2 = true -> Bytes.code c1 = 194 /\ continuation c2.
Proof.
  unfold Bytes.isSpace2, continuation. intros H.
  apply andb_true_iff in H. destruct H as [H1 H2].
  apply Z.eqb_eq in H1. apply orb_true_iff in H2.
  destruct H2 as [H2 | H2]; apply Z.eqb_eq in H2; lia.
Qed.

Lemma isSpace3_bytes c1 c2 c3 :
  Bytes.isSpace3 c1 c2 c3 = true ->
  225 <= Bytes.code c1 <= 227 /\ continuation c2 /\ continuation c3.
Proof.
  unfold Bytes.isSpace3, continuation. cbv zeta. intros H.
  repeat (apply orb_true_iff in H; destruct H as [H | H]);
    repeat (match goal with
            | H : _ && _ = true |- _ =>
                apply andb_true_iff in H; destruct H
            | H : _ || _ = true |- _ =>
                apply orb_true_iff in H; destruct H
            | H : (_ =? _) = true |- _ => apply Z.eqb_eq in H
            | H : (_ <=? _) = true |- _ => apply Z.leb_le in H
            end); lia.
Qed.

Lemma isSpace2_needs_continuation c1 c2 :
  ~ continuation c2 -> Bytes.isSpace2 c1 c2 = false.
Proof.
  intros H. destruct (Bytes.isSpace2 c1 c2) eqn:E; [ | reflexivity].
  destruct (isSpace2_bytes _ _ E). contradiction.
Qed.

Lemma isSpace3_needs_continuation c1 c2 c3 :
  ~ continuation c2 \/ ~ continuation c3 -> Bytes.isSpace3 c1 c2 c3 = false.
Proof.
  intros H. destruct (Bytes.isSpace3 c1 c2 c3) eqn:E; [ | reflexivity].
  destruct (isSpace3_bytes _ _ _ E) as (_ & ? & ?). destruct H; contradiction.
Qed.

(** White space starts with a byte that does not continue an encoding. *)
Lemma spaceOnly_head c s : Bytes.spaceOnly (c :: s) -> ~ continuation c.
Proof.
  unfold continuation. intros H. inversion H as [ | ? ? H1 | ? ? ? H2 | ? ? ? ? H3];
    subst.
  - apply isSpace1_low in H1. lia.
  - apply isSpace2_bytes in H2. lia.
  - apply isSpace3_bytes in H3. lia.
Qed.

Lemma dropSpaces_leading ws x :
  Bytes.spaceOnly ws ->
  Bytes.dropSpaces false (ws ++ x) = Bytes.dropSpaces false x.
Proof.
  induction 1 as [ | c s Hc _ IH | c1 c2 s H2 _ IH | c1 c2 c3 s H3 _ IH].
  - reflexivity.
  - cbn [app Bytes.dropSpaces]. rewrite Hc. exact IH.
  - cbn [app Bytes.dropSpaces].
    rewrite (isSpace2_not_isSpace1 _ _ H2), H2. exact IH.
  - destruct (isSpace3_not_shorter _ _ _ H3) as [H1 H2].
    cbn [app Bytes.dropSpaces]. rewrite H1, H2, H3. exact IH.
Qed.

(** White space after the content does not change what is dropped before
    it. *)
Lemma dropSpaces_before_trailing ws' :
  Bytes.spaceOnly ws' ->
  forall n x, (List.length x <= n)%nat ->
    Bytes.dropSpaces false (x ++ ws')
    = match Bytes.dropSpaces false x with
      | [] => []
      | kept => kept ++ ws'
      end.
Proof.
  intros Hws. induction n as [ | n IH]; intros x Hlen.
  - destruct x; [ | simpl in Hlen; lia]. cbn [app Bytes.dropSpaces].
    exact (dropSpaces_spaceOnly _ Hws).
  - destruct x as [ | c1 s1].
    { cbn [app Bytes.dropSpaces]. exact (dropSpaces_spaceOnly _ Hws). }
    cbn [List.length] in Hlen. cbn [app Bytes.dropSpaces].
    destruct (Bytes.isSpace1 c1); [apply IH; lia | ].
    destruct s1 as [ | c2 s2].
    { (* one byte, then the white space *)
      cbn [app]. destruct ws' as [ | h1 t1]; [reflexivity | ].
      rewrite (isSpace2_needs_continuation c1 h1 (spaceOnly_head _ _ Hws)).
      destruct t1 as [ | h2 t2]; [reflexivity | ].
      rewrite (isSpace3_needs_continuation c1 h1 h2
                 (or_introl (spaceOnly_head _ _ Hws))).
      reflexivity. }
    cbn [List.length] in Hlen. cbn [app].
    destruct (Bytes.isSpace2 c1 c2); [apply IH; lia | ].
    destruct s2 as [ | c3 s3].
    { (* two bytes, then the white space *)
      cbn [app]. destruct ws' as [ | h1 t1]; [reflexivity | ].
      rewrite (isSpace3_needs_continuation c1 c2 h1
                 (or_intror (spaceOnly_head _ _ Hws))).
      reflexivity. }
    cbn [List.length] in Hlen. cbn [app].
    destruct (Bytes.isSpace3 c1 c2 c3); [apply IH; lia | reflexivity].
Qed.

Lemma dropSpaces_trailing ws' :
  Bytes.spaceOnly ws' ->
  forall z, Bytes.dropSpaces true (rev ws' ++ z) = Bytes.dropSpaces true z.
Proof.
  induction 1 as [ | c s Hc _ IH | c1 c2 s H2 _ IH | c1 c2 c3 s H3 _ IH];
    intros z.
  - reflexivity.
  - cbn [rev]. rewrite <- app_assoc, IH. cbn [app Bytes.dropSpaces].
    rewrite Hc. reflexivity.
  - cbn [rev]. rewrite <- !app_assoc, IH. cbn [app Bytes.dropSpaces].
    destruct (isSpace2_bytes _ _ H2) as [_ Hcont].
    assert (H1 : Bytes.isSpace1 c2 = false).
    { destruct (Bytes.isSpace1 c2) eqn:E; [ | reflexivity].
      apply isSpace1_low in E. unfold continuation in Hcont. lia. }
    rewrite H1, H2. reflexivity.
  - cbn [rev]. rewrite <- !app_assoc, IH. cbn [app Bytes.dropSpaces].
    destruct (isSpace3_bytes _ _ _ H3) as (_ & Hc2 & Hc3).
    assert (H1 : Bytes.isSpace1 c3 = false).
    { destruct (Bytes.isSpace1 c3) eqn:E; [ | reflexivity].
      apply isSpace1_low in E. unfold continuation in Hc3. lia. }
    assert (H2 : Bytes.isSpace2 c2 c3 = false).
    { destruct (Bytes.isSpace2 c2 c3) eqn:E; [ | reflexivity].
      apply isSpace2_bytes in E. unfold continuation in Hc2. lia. }
    rewrite H1, H2, H3. reflexivity.
Qed.

Lemma TrimSpace_padding ws data ws' :
  Bytes.spaceOnly ws -> Bytes.spaceOnly ws' ->
  Bytes.TrimSpace (ws ++ data ++ ws') = Bytes.TrimSpace data.
Proof.
  intros Hws Hws'. unfold Bytes.TrimSpace.
  rewrite (dropSpaces_leading ws _ Hws).
  rewrite (dropSpaces_before_trailing ws' Hws' (List.length data) data
             (Nat.le_refl _)).
  destruct (Bytes.dropSpaces false data) as [ | c kept] eqn:E;
    [reflexivity | ].
  rewrite rev_app_distr, (dropSpaces_trailing ws' Hws'). reflexivity.
Qed.

(** White space before and after the content of a migration file changes
    nothing: the migration read has the same hash and the same
    statements. *)
Theorem parseContent_ignores_padding version file ws data ws' :
  Bytes.spaceOnly ws -> Bytes.spaceOnly ws' ->
  parseContent version file (ws ++ data ++ ws')
  = parseContent version file data.
Proof.
  intros Hws Hws'. unfold parseContent.
  rewrite (TrimSpace_padding ws data ws' Hws Hws'). reflexivity.
Qed.

(* ===================================================================== *)
(** ** Statements and the content they come from *)
(* ===================================================================== *)

Lemma Join_cons a rest sep :
  rest <> [] -> Join (a :: rest) sep = (a ++ sep ++ Join rest sep)%string.
Proof. destruct rest; [contradiction | reflexivity]. Qed.

Lemma Join_push c piece pieces sep :
  Join (String c piece :: pieces) sep
  = String c (Join (piece :: pieces) sep).
Proof. destruct pieces; reflexivity. Qed.

Lemma prefix_sliceFrom sep : forall s,
  prefix sep s = true -> s = (sep ++ sliceFrom (String.length sep) s)%string.
Proof.
  induction sep as [ | a sep IH]; intros s H.
  - reflexivity.
  - destruct s as [ | b s]; [discriminate | ].
    cbn [prefix] in H. destruct (ascii_dec a b) as [-> | ]; [ | discriminate].
    cbn [String.length sliceFrom append]. f_equal. exact (IH s H).
Qed.

Lemma Join_splitFrom a sep' : forall s skip,
  Join (Strings.splitFrom (String a sep') s skip) (String a sep')
  = sliceFrom skip s.
Proof.
  induction s as [ | c s IH]; intros skip.
  - destruct skip; reflexivity.
  - cbn [Strings.splitFrom]. destruct skip as [ | k].
    + destruct (prefix (String a sep') (String c s)) eqn:Ep.
      * rewrite Join_cons by apply splitFrom_nonempty.
        rewrite IH. cbn [String.length Nat.sub sliceFrom].
        rewrite Nat.sub_0_r.
        pose proof (prefix_sliceFrom _ _ Ep) as E.
        cbn [String.length sliceFrom] in E. symmetry. exact E.
      * pose proof (IH 0%nat) as E. cbn [sliceFrom] in E.
        destruct (Strings.splitFrom (String a sep') s 0) as [ | piece pieces]
          eqn:Es.
        { exfalso. exact (splitFrom_nonempty _ _ _ Es). }
        rewrite Join_push, E. destruct s; reflexivity.
    + cbn [sliceFrom]. apply IH.
Qed.

(** Splitting loses nothing: the pieces of a string, joined again by the
    separator, are the string. *)
Lemma Join_Split s : Join (Strings.Split s separator) separator = s.
Proof.
  unfold Strings.Split, separator.
  rewrite (Join_splitFrom "-"%char "- migrate:next" s 0).
  destruct s; reflexivity.
Qed.

Section StatementClaims.
Context {D V F : Type}
        {drv : DBDriver D} {qv : QueryValidator V} {fsys : FS F}.

(** The statements of a migration that [readMigrations] returns, joined
    by the separator line, are the trimmed content of its file: every byte
    of the file but the surrounding white space and the separators is in
    some statement, in order. *)
Theorem readMigrations_statements_cover (w w' : World D V F) items m data :
  readMigrations w = (Ok items, w') ->
  In m items ->
  ReadFile (folder (mig w)) (Fname m) = Ok data ->
  Join (Statements m) separator
  = string_of_list_ascii (Bytes.TrimSpace data).
Proof.
  intros H Hin Hd.
  destruct (readMigrations_parsed _ _ _ _ H Hin)
    as (file & version & data0 & _ & Hread & ->).
  cbn [Fname Statements parseContent] in *.
  rewrite Hread in Hd. injection Hd as <-. apply Join_Split.
Qed.

End StatementClaims.

(* ===================================================================== *)
(** ** The version of a file named by a number *)
(* ===================================================================== *)

Lemma isDecimal_code c :
  Fmt.isDecimal c = true -> 48 <= Bytes.code c <= 57.
Proof.
  unfold Fmt.isDecimal. intros H. apply andb_true_iff in H.
  destruct H as [H1 H2]. apply Z.leb_le in H1, H2. lia.
Qed.

Lemma decimal_not_underscore c :
  Fmt.isDecimal c = true -> "_"%char <> c.
Proof.
  intros H E. subst c. discriminate.
Qed.

Lemma indexFrom_digits digits rest : forall i,
  forallb Fmt.isDecimal digits = true ->
  Strings.indexFrom "_" (string_of_list_ascii digits ++ String "_" rest) i
  = i + Z.of_nat (List.length digits).
Proof.
  induction digits as [ | c digits IH]; intros i H.
  - cbn [string_of_list_ascii append Strings.indexFrom prefix].
    destruct (ascii_dec "_" "_") as [_ | N]; [ | contradiction].
    destruct rest; cbn [prefix List.length Z.of_nat]; lia.
  - cbn [forallb] in H. apply andb_true_iff in H. destruct H as [Hc H].
    cbn [string_of_list_ascii append Strings.indexFrom prefix].
    destruct (ascii_dec "_" c) as [E | _].
    { exfalso. exact (decimal_not_underscore c Hc E). }
    rewrite (IH (i + 1) H). cbn [List.length]. lia.
Qed.

Lemma substring_digits digits tail :
  substring 0 (List.length digits) (string_of_list_ascii digits ++ tail)
  = string_of_list_ascii digits.
Proof.
  induction digits as [ | c digits IH];
    cbn [List.length string_of_list_ascii append substring].
  - destruct tail; reflexivity.
  - rewrite IH. reflexivity.
Qed.

Lemma SkipSpace_decimal c s :
  Fmt.isDecimal c = true -> Fmt.SkipSpace (c :: s) = Some (c :: s).
Proof.
  intros H. apply isDecimal_code in H. cbn [Fmt.SkipSpace].
  destruct (Z.eqb_spec (Bytes.code c) 10); [lia | ].
  assert (H1 : Bytes.isSpace1 c = false).
  { destruct (Bytes.isSpace1 c) eqn:E; [ | reflexivity].
    unfold Bytes.isSpace1 in E. cbv zeta in E.
    apply orb_true_iff in E. destruct E as [E | E].
    - apply andb_true_iff in E. destruct E as [_ E]. apply Z.leb_le in E. lia.
    - apply Z.eqb_eq in E. lia. }
  rewrite H1. destruct s as [ | c2 s2]; [reflexivity | ].
  assert (H2 : Bytes.isSpace2 c c2 = false).
  { destruct (Bytes.isSpace2 c c2) eqn:E; [ | reflexivity].
    apply isSpace2_bytes in E. lia. }
  rewrite H2. destruct s2 as [ | c3 s3]; [reflexivity | ].
  assert (H3 : Bytes.isSpace3 c c2 c3 = false).
  { destruct (Bytes.isSpace3 c c2 c3) eqn:E; [ | reflexivity].
    apply isSpace3_bytes in E. lia. }
  rewrite H3. reflexivity.
Qed.

Lemma acceptDigits_decimal digits :
  forallb Fmt.isDecimal digits = true -> Fmt.acceptDigits digits = digits.
Proof.
  induction digits as [ | c digits IH]; intros H; [reflexivity | ].
  cbn [forallb] in H. apply andb_true_iff in H. destruct H as [Hc H].
  cbn [Fmt.acceptDigits]. unfold Fmt.isDigitChar. rewrite Hc. cbn [orb].
  rewrite (IH H). reflexivity.
Qed.

Lemma parseDigits_decimal digits : forall acc,
  forallb Fmt.isDecimal digits = true ->
  Fmt.parseDigits acc digits
  = Some (fold_left (fun acc c => 10 * acc + (Bytes.code c - 48)) digits acc).
Proof.
  induction digits as [ | c digits IH]; intros acc H; [reflexivity | ].
  cbn [forallb] in H. apply andb_true_iff in H. destruct H as [Hc H].
  cbn [Fmt.parseDigits fold_left]. rewrite Hc. apply IH, H.
Qed.

Lemma decimalValue_nonneg digits :
  forallb Fmt.isDecimal digits = true -> 0 <= decimalValue digits.
Proof.
  intros H. apply (parseDigits_nonneg digits 0 _ (Z.le_refl 0)).
  apply parseDigits_decimal, H.
Qed.

Lemma Sscanf_d_decimal digits :
  digits <> [] -> forallb Fmt.isDecimal digits = true ->
  Fmt.Sscanf_d (string_of_list_ascii digits)
  = if decimalValue digits <=? maxInt64 then Some (decimalValue digits)
    else None.
Proof.
  intros Hne H. unfold Fmt.Sscanf_d, Fmt.scanInt.
  rewrite list_ascii_of_string_of_list_ascii.
  destruct digits as [ | c digits]; [contradiction | ].
  pose proof H as H'. cbn [forallb] in H'. apply andb_true_iff in H'.
  destruct H' as [Hc _].
  rewrite (SkipSpace_decimal c digits Hc).
  pose proof (isDecimal_code c Hc) as Hcode.
  assert (Hsign : Fmt.isSign c = false).
  { unfold Fmt.isSign. apply orb_false_iff. split; apply Z.eqb_neq; lia. }
  rewrite Hsign. cbv zeta.
  assert (Hd : Fmt.isDigitChar c = true).
  { unfold Fmt.isDigitChar. rewrite Hc. reflexivity. }
  rewrite Hd, (acceptDigits_decimal _ H).
  destruct (Z.eqb_spec (Bytes.code c) 45); [lia | ].
  unfold Fmt.ParseInt, Fmt.ParseUint.
  rewrite (parseDigits_decimal _ 0 H).
  fold (decimalValue (c :: digits)).
  pose proof (decimalValue_nonneg _ H) as Hv.
  cbn [negb andb]. unfold maxInt64.
  destruct (Z.leb_spec (decimalValue (c :: digits)) (2 ^ 64 - 1));
    destruct (Z.leb_spec (2 ^ 63) (decimalValue (c :: digits)));
    destruct (Z.leb_spec (decimalValue (c :: digits)) (2 ^ 63 - 1));
    try reflexivity; lia.
Qed.

(** A file whose name is decimal digits, an underscore and anything has
    the version that the digits write (leading zeros allowed), when that
    number is at least 1 and fits 64 bits; when it is zero or too large
    the file is refused with an [ErrInvalidMigrationFile]. *)
Theorem parseVersion_decimal digits rest :
  digits <> [] -> forallb Fmt.isDecimal digits = true ->
  (1 <= decimalValue digits <= maxInt64 ->
   parseVersion (string_of_list_ascii digits ++ "_" ++ rest)
   = Ok (decimalValue digits))
  /\ (decimalValue digits = 0 \/ maxInt64 < decimalValue digits ->
      exists e,
        parseVersion (string_of_list_ascii digits ++ "_" ++ rest) = Err e
        /\ errorsIs e ErrInvalidMigrationFile = true).
Proof.
  intros Hne H.
  assert (Hidx : Strings.Index (string_of_list_ascii digits ++ "_" ++ rest)
                               "_"
                 = Z.of_nat (List.length digits)).
  { unfold Strings.Index. cbn [append].
    rewrite (indexFrom_digits digits rest 0 H). lia. }
  assert (Hscan : Fmt.Sscanf_d
                    (Strings.sliceTo
                       (string_of_list_ascii digits ++ "_" ++ rest)
                       (Strings.Index
                          (string_of_list_ascii digits ++ "_" ++ rest) "_"))
                  = if decimalValue digits <=? maxInt64
                    then Some (decimalValue digits) else None).
  { rewrite Hidx. unfold Strings.sliceTo. rewrite Nat2Z.id.
    rewrite substring_digits. exact (Sscanf_d_decimal digits Hne H). }
  unfold parseVersion. rewrite Hscan, Hidx.
  destruct (Z.eqb_spec (Z.of_nat (List.length digits)) (-1)); [lia | ].
  split.
  - intros [Hlo Hhi].
    destruct (Z.leb_spec (decimalValue digits) maxInt64); [ | lia].
    destruct (Z.eqb_spec (decimalValue digits) 0); [lia | reflexivity].
  - intros [Hz | Hbig].
    + rewrite Hz. cbn [Z.leb Z.compare]. unfold maxInt64. cbn.
      eexists; split; reflexivity.
    + destruct (Z.leb_spec (decimalValue digits) maxInt64); [lia | ].
      eexists; split; reflexivity.
Qed.

(* ===================================================================== *)
(** ** [New] and its options *)
(* ===================================================================== *)

Lemma last_cons {A} (a : A) l d : last (a :: l) d = last l a.
Proof.
  revert a d. induction l as [ | b l IH]; intros a d; [reflexivity | ].
  change (last (a :: b :: l) d) with (last (b :: l) d).
  rewrite (IH b d), (IH b a). reflexivity.
Qed.

Section ConstructionClaims.
Context {D V F : Type}.
Variable Stat : string -> StatResult.
Variable NewSystemFS : string -> F.

Lemma applyOptions_accepted (settings : list (@Setting V F)) :
  forall ans : @Draft D V F,
    Forall (accepted Stat) settings ->
    applyOptions (map (toOption Stat NewSystemFS) settings) ans
    = Returned
        (mkMigrator (driver ans)
                    (last (tables settings) (migrationsTable ans))
                    (last (folders NewSystemFS settings) (folder ans))
                    (last (validators settings) (qvalidator ans))
                    (existsb asksTransaction settings || inTransaction ans)).
Proof.
  induction settings as [ | s settings IH]; intros ans Hall.
  - destruct ans; reflexivity.
  - inversion Hall as [ | ? ? Hs Hall']; subst.
    cbn [map applyOptions].
    destruct s as [ | v | root | f | table];
      cbn [toOption accepted] in *.
    + unfold WithInTransaction. rewrite (IH _ Hall').
      cbn [driver migrationsTable folder qvalidator inTransaction
           tables folders validators flat_map app existsb asksTransaction].
      rewrite orb_true_r. reflexivity.
    + unfold WithQueryValidator. rewrite (IH _ Hall').
      cbn [driver migrationsTable folder qvalidator inTransaction
           tables folders validators flat_map app existsb asksTransaction
           orb].
      rewrite last_cons. reflexivity.
    + unfold WithSystemFS, isDir. rewrite Hs. rewrite (IH _ Hall').
      cbn [driver migrationsTable folder qvalidator inTransaction
           tables folders validators flat_map app existsb asksTransaction
           orb].
      rewrite last_cons. reflexivity.
    + unfold WithEmbedFS. rewrite (IH _ Hall').
      cbn [driver migrationsTable folder qvalidator inTransaction
           tables folders validators flat_map app existsb asksTransaction
           orb].
      rewrite last_cons. reflexivity.
    + unfold WithMigrationTable.
      destruct (String.eqb_spec table EmptyString); [contradiction | ].
      rewrite (IH _ Hall').
      cbn [driver migrationsTable folder qvalidator inTransaction
           tables folders validators flat_map app existsb asksTransaction
           orb].
      rewrite last_cons. reflexivity.
Qed.

(** With options that are all accepted, [New] returns the migrator over
    the given driver in which the last table name given wins (default
    [schema_migrations]), the last folder given wins, be it a system
    folder or an embedded one (default, also after a [nil] folder, the
    system folder [migrations]), the last validator given wins (default
    none), and the transaction mode is on when it was asked for at
    all. *)
Theorem New_last_setting_wins (d : D) (settings : list (@Setting V F)) :
  Forall (accepted Stat) settings ->
  New NewSystemFS d (map (toOption Stat NewSystemFS) settings)
  = Returned
      (mkMigrator d
         (last (tables settings) defaultMigrationsTable)
         (match last (folders NewSystemFS settings) None with
          | Some f => f
          | None => NewSystemFS "migrations"
          end)
         (last (validators settings) None)
         (existsb asksTransaction settings)).
Proof.
  intros Hall. unfold New. rewrite (applyOptions_accepted settings _ Hall).
  cbn [driver migrationsTable folder qvalidator inTransaction].
  rewrite orb_false_r. reflexivity.
Qed.

(** [New] panics on the first option that is not accepted, after the
    options before it were applied and without looking at the options
    after it: with [ErrMigrationTableNameMissing] for an empty table name,
    with an [ErrMigrationFolder] for a root that [os.Stat] does not report
    as a directory (a path that is missing, that cannot be examined, or
    that is a file). *)
Theorem New_panics_on_first_refusal (d : D) before (s : @Setting V F) after :
  Forall (accepted Stat) before ->
  ~ accepted Stat s ->
  exists e,
    New NewSystemFS d
        (map (toOption Stat NewSystemFS) (before ++ s :: after))
    = Panicked e
    /\ errorsIs e (match s with
                   | SetMigrationTable _ => ErrMigrationTableNameMissing
                   | _ => ErrMigrationFolder
                   end) = true.
Proof.
  intros Hall Hs. unfold New.
  assert (G : forall ans : @Draft D V F,
            exists e,
              applyOptions
                (map (toOption Stat NewSystemFS) (before ++ s :: after)) ans
              = Panicked e
              /\ errorsIs e (match s with
                             | SetMigrationTable _ =>
                                 ErrMigrationTableNameMissing
                             | _ => ErrMigrationFolder
                             end) = true).
  { induction Hall as [ | b before Hb _ IH]; intros ans.
    - cbn [app map applyOptions].
      destruct s as [ | v | root | f | table]; cbn [accepted] in Hs;
        try (exfalso; exact (Hs I)); cbn [toOption].
      + unfold WithSystemFS, isDir.
        destruct (Stat root) as [[ | ] | | err].
        * contradiction.
        * eexists; split; reflexivity.
        * eexists; split; reflexivity.
        * eexists; split; reflexivity.
      + unfold WithMigrationTable.
        destruct (String.eqb_spec table EmptyString) as [E | N].
        * eexists; split; reflexivity.
        * exfalso. apply Hs. exact N.
    - cbn [app map applyOptions].
      pose proof (applyOptions_accepted [b] ans
                    (Forall_cons _ Hb (Forall_nil _))) as E.
      cbn [map applyOptions] in E.
      destruct (toOption Stat NewSystemFS b ans) as [[err | ] ans'];
        [discriminate | ].
      apply IH. }
  destruct (G (mkMigrator d defaultMigrationsTable None None false))
    as (e & -> & He).
  exists e. auto.
Qed.

End ConstructionClaims.

(* ===================================================================== *)
(** ** The SQLite driver: transactions and the tracking table *)
(* ===================================================================== *)

Section SqliteClaims.
Import Sqlite.
Context {C : Type} {sql : SQL C}.

Lemma replay_app evs1 evs2 l :
  replay (evs1 ++ evs2) l = replay evs2 (replay evs1 l).
Proof. apply fold_left_app. Qed.

Lemma bracket_app evs1 evs2 st :
  bracket (evs1 ++ evs2) st = bracket evs2 (bracket evs1 st).
Proof. apply fold_left_app. Qed.

Lemma executed_app evs1 evs2 :
  executed (evs1 ++ evs2) = executed evs1 ++ executed evs2.
Proof. apply flat_map_app. Qed.

Lemma replay_cons ev evs l : replay (ev :: evs) l = replay evs (replay1 l ev).
Proof. reflexivity. Qed.

Lemma bracket_cons ev evs st :
  bracket (ev :: evs) st = bracket evs (bracket1 st ev).
Proof. reflexivity. Qed.

Lemma executed_cons ev evs :
  executed (ev :: evs)
  = match ev with
    | (OpTxExec query [], None) => [query]
    | _ => []
    end ++ executed evs.
Proof. reflexivity. Qed.

Lemma executed_nil : executed [] = [].
Proof. reflexivity. Qed.

Ltac unroll :=
  repeat (rewrite replay_cons || rewrite replay_app
          || rewrite bracket_cons || rewrite bracket_app
          || rewrite executed_cons || rewrite executed_app
          || rewrite executed_nil);
  cbn [app].

(** The loop over the statements: no row is inserted, the transaction
    stays open, and the statements executed are the first ones, all of
    them when there is no error. *)
Lemma execStatements_facts queries : forall (c c' : C) r evs,
  execStatements queries c = (r, c', evs) ->
  (forall l, replay evs l = l)
  /\ bracket evs (Some true) = Some true
  /\ filter isBegin evs
     = []
  /\ exists rest, queries = executed evs ++ rest
                  /\ (r = None -> rest = []).
Proof.
  induction queries as [ | q queries IH]; intros c c' r evs H;
    cbn [execStatements] in H.
  - inv_pair H. repeat split. exists []. auto.
  - destruct (txExec q [] c) as [[e | ] c1].
    + inv_pair H. repeat split. exists (q :: queries). split; [reflexivity | ].
      discriminate.
    + destruct (execStatements queries c1) as [[r2 c2] evs2] eqn:E.
      inv_pair H. destruct (IH _ _ _ _ E) as (Hr & Hb & Hf & rest & Hq & Hn).
      repeat split.
      * intros l. unfold replay. cbn [fold_left replay1 rowOfArgs].
        apply Hr.
      * unfold bracket. cbn [fold_left bracket1]. exact Hb.
      * cbn [filter fst]. exact Hf.
      * exists rest. cbn [executed flat_map app]. split; [ | exact Hn].
        f_equal. exact Hq.
Qed.

Lemma rowOfArgs_insert m t : rowOfArgs (insertArgs m t) = Some (rowOf m).
Proof. reflexivity. Qed.

(** One migration in a transaction of its own. *)
Lemma applyOne_owned insertQ m (c c' : C) r evs :
  applyOne insertQ false m c = (r, c', evs) ->
  (forall l,
     match r with
     | None => replay evs l = mkLedger [] (kept l ++ [rowOf m])
     | Some _ => kept (replay evs l) = kept l
     end)
  /\ bracket evs (Some false) = Some false
  /\ exists rest, Statements m = executed evs ++ rest
                  /\ (r = None -> rest = []).
Proof.
  unfold applyOne, createTxIfNotExists. intros H.
  destruct (dbBegin c) as [[e0 | ] c0].
  { inv_pair H. repeat split. exists (Statements m). split; [reflexivity | ].
    discriminate. }
  unfold applyBody in H.
  destruct (execStatements (Statements m) c0) as [[r1 c1] ev1] eqn:E1.
  destruct (execStatements_facts _ _ _ _ _ E1)
    as (Hr1 & Hb1 & _ & rest & Hq & Hn).
  destruct r1 as [e1 | ].
  { destruct (txRollback c1) as [rr c2]. inv_pair H. split; [ | split].
    - intros l. unroll. rewrite Hr1. reflexivity.
    - unroll. cbn [bracket1]. rewrite Hb1. reflexivity.
    - exists rest. unroll. rewrite ?app_nil_r.
      split; [exact Hq | discriminate]. }
  specialize (Hn eq_refl). subst rest. rewrite app_nil_r in Hq.
  destruct (now c1) as [t c2].
  destruct (txExec insertQ (insertArgs m t) c2) as [[e3 | ] c3].
  { destruct (txRollback c3) as [rr c4]. inv_pair H. split; [ | split].
    - intros l. unroll. rewrite Hr1. reflexivity.
    - unroll. cbn [bracket1]. rewrite Hb1. reflexivity.
    - exists []. unroll. rewrite ?app_nil_r.
      split; [exact Hq | discriminate]. }
  destruct (txCommit c3) as [r4 c4]. destruct (txRollback c4) as [rr c5].
  inv_pair H. split; [ | split].
  - intros l. unroll. rewrite Hr1.
    cbn [replay fold_left replay1]. rewrite rowOfArgs_insert.
    destruct r; reflexivity.
  - unroll. cbn [bracket1]. rewrite Hb1. reflexivity.
  - exists []. unroll. rewrite ?app_nil_r.
    split; [exact Hq | reflexivity].
Qed.

(** One migration in the transaction of the batch. *)
Lemma applyOne_outer insertQ m (c c' : C) r evs :
  applyOne insertQ true m c = (r, c', evs) ->
  (forall l,
     kept (replay evs l) = kept l
     /\ (r = None -> pending (replay evs l) = pending l ++ [rowOf m]))
  /\ bracket evs (Some true) = Some true
  /\ filter isBegin evs
     = []
  /\ exists rest, Statements m = executed evs ++ rest
                  /\ (r = None -> rest = []).
Proof.
  unfold applyOne, createTxIfNotExists, applyBody. intros H.
  destruct (execStatements (Statements m) c) as [[r1 c1] ev1] eqn:E1.
  destruct (execStatements_facts _ _ _ _ _ E1)
    as (Hr1 & Hb1 & Hf1 & rest & Hq & Hn).
  destruct r1 as [e1 | ].
  { inv_pair H. cbn [app]. split; [ | split; [ | split]].
    - intros l. rewrite Hr1. split; [reflexivity | discriminate].
    - exact Hb1.
    - exact Hf1.
    - exists rest. split; [exact Hq | discriminate]. }
  specialize (Hn eq_refl). subst rest. rewrite app_nil_r in Hq.
  destruct (now c1) as [t c2].
  destruct (txExec insertQ (insertArgs m t) c2) as [[e3 | ] c3];
    inv_pair H; cbn [app]; (split; [ | split; [ | split]]).
  - intros l. unroll. rewrite Hr1. split; [reflexivity | discriminate].
  - unroll. rewrite Hb1. reflexivity.
  - rewrite filter_app, Hf1. reflexivity.
  - exists []. unroll. rewrite ?app_nil_r.
    split; [exact Hq | discriminate].
  - intros l. unroll. rewrite Hr1. cbn [replay fold_left replay1].
    rewrite rowOfArgs_insert. split; [reflexivity | ]. intros _. reflexivity.
  - unroll. rewrite Hb1. reflexivity.
  - rewrite filter_app, Hf1. reflexivity.
  - exists []. unroll. rewrite ?app_nil_r.
    split; [exact Hq | reflexivity].
Qed.

Lemma applyMigrations_owned insertQ migrations : forall (c c' : C) r evs,
  applyMigrations insertQ false migrations c = (r, c', evs) ->
  bracket evs (Some false) = Some false
  /\ forall l,
       exists k,
         kept (replay evs l) = kept l ++ map rowOf (firstn k migrations)
         /\ match r with
            | None => k = List.length migrations
            | Some _ => (k < List.length migrations)%nat
            end
         /\ exists rest,
              flat_map Statements (firstn (S k) migrations)
              = executed evs ++ rest
              /\ (r = None -> rest = []).
Proof.
  induction migrations as [ | m migrations IH]; intros c c' r evs H;
    cbn [applyMigrations] in H.
  - inv_pair H. split; [reflexivity | ]. intros l. exists 0%nat.
    cbn [firstn map flat_map]. rewrite app_nil_r.
    repeat split. exists []. auto.
  - destruct (applyOne insertQ false m c) as [[r1 c1] ev1] eqn:E1.
    destruct (applyOne_owned _ _ _ _ _ _ E1) as (Hr1 & Hb1 & rest1 & Hq1 & Hn1).
    destruct r1 as [e1 | ].
    + inv_pair H. split; [exact Hb1 | ]. intros l. exists 0%nat.
      cbn [firstn map flat_map List.length]. rewrite ?app_nil_r.
      split; [exact (Hr1 l) | ]. split; [lia | ].
      exists rest1. split; [exact Hq1 | discriminate].
    + destruct (applyMigrations insertQ false migrations c1)
        as [[r2 c2] ev2] eqn:E2.
      inv_pair H. destruct (IH _ _ _ _ E2) as (Hb2 & Hk).
      specialize (Hn1 eq_refl). subst rest1. rewrite app_nil_r in Hq1.
      split; [rewrite bracket_app, Hb1; exact Hb2 | ].
      intros l. rewrite replay_app, (Hr1 l).
      destruct (Hk (mkLedger [] (kept l ++ [rowOf m])))
        as (k & Hkept & Hcount & rest & Hq & Hn).
      exists (S k). cbn [kept] in Hkept. split.
      * rewrite Hkept. cbn [firstn map]. rewrite <- app_assoc. reflexivity.
      * split.
        -- cbn [List.length]. destruct r; lia.
        -- exists rest. split; [ | exact Hn].
           rewrite executed_app.
           change (firstn (S (S k)) (m :: migrations))
             with (m :: firstn (S k) migrations).
           cbn [flat_map]. rewrite Hq, Hq1, app_assoc. reflexivity.
Qed.

Lemma applyMigrations_outer insertQ migrations : forall (c c' : C) r evs,
  applyMigrations insertQ true migrations c = (r, c', evs) ->
  bracket evs (Some true) = Some true
  /\ filter isBegin evs
     = []
  /\ (forall l,
        kept (replay evs l) = kept l
        /\ (r = None ->
            pending (replay evs l) = pending l ++ map rowOf migrations))
  /\ exists rest, flat_map Statements migrations = executed evs ++ rest
                  /\ (r = None -> rest = []).
Proof.
  induction migrations as [ | m migrations IH]; intros c c' r evs H;
    cbn [applyMigrations] in H.
  - inv_pair H. repeat split.
    + cbn [map]. rewrite app_nil_r. reflexivity.
    + exists []. auto.
  - destruct (applyOne insertQ true m c) as [[r1 c1] ev1] eqn:E1.
    destruct (applyOne_outer _ _ _ _ _ _ E1)
      as (Hr1 & Hb1 & Hf1 & rest1 & Hq1 & Hn1).
    destruct r1 as [e1 | ].
    + inv_pair H. repeat split; try assumption.
      * apply Hr1.
      * discriminate.
      * exists (rest1 ++ flat_map Statements migrations).
        cbn [flat_map]. rewrite Hq1, <- app_assoc.
        split; [reflexivity | discriminate].
    + destruct (applyMigrations insertQ true migrations c1)
        as [[r2 c2] ev2] eqn:E2.
      inv_pair H. destruct (IH _ _ _ _ E2) as (Hb2 & Hf2 & Hr2 & rest & Hq & Hn).
      specialize (Hn1 eq_refl). subst rest1. rewrite app_nil_r in Hq1.
      repeat split.
      * rewrite bracket_app, Hb1. exact Hb2.
      * rewrite filter_app, Hf1, Hf2. reflexivity.
      * rewrite replay_app. rewrite (proj1 (Hr2 _)). apply Hr1.
      * intros Hnone. rewrite replay_app, (proj2 (Hr2 _) Hnone).
        rewrite (proj2 (Hr1 l) eq_refl). cbn [map].
        rewrite <- app_assoc. reflexivity.
      * exists rest. cbn [flat_map].
        rewrite executed_app, Hq1, Hq, app_assoc.
        split; [reflexivity | exact Hn].
Qed.

(** What [ApplyMigrations] leaves behind, as far as a caller sees it. *)
Lemma ApplyMigrations_recorded migrationsTable inTx migrations (c : C) :
  let result :=
    fst (fst (ApplyMigrations migrationsTable inTx migrations c)) in
  let evs := snd (ApplyMigrations migrationsTable inTx migrations c) in
  bracket evs (Some false) = Some false
  /\ if inTx
     then recorded evs
          = match result with
            | None => map rowOf migrations
            | Some _ => []
            end
     else exists k,
            recorded evs = map rowOf (firstn k migrations)
            /\ (result = None -> k = List.length migrations).
Proof.
  cbv zeta. unfold ApplyMigrations, recorded. destruct inTx.
  - destruct (dbBegin c) as [[e0 | ] c0]; [split; reflexivity | ].
    destruct (applyMigrations (insertSQL migrationsTable) true migrations c0)
      as [[r c1] ev1] eqn:E.
    destruct (applyMigrations_outer _ _ _ _ _ _ E)
      as (Hb & _ & Hr & _).
    destruct r as [e | ].
    + destruct (txRollback c1) as [rr c2]. cbn [fst snd].
      change ((OpBegin, None) :: ev1 ++ [(OpRollback, rr)])
        with ([(OpBegin, @None error)] ++ ev1 ++ [(OpRollback, rr)]).
      rewrite !bracket_app, !replay_app. split.
      * cbn [bracket fold_left bracket1] in *. rewrite Hb. reflexivity.
      * unfold replay at 1. cbn [fold_left replay1 kept].
        exact (proj1 (Hr _)).
    + destruct (txCommit c1) as [r3 c3]. destruct (txRollback c3) as [rr c4].
      cbn [fst snd].
      change ((OpBegin, None) :: ev1 ++ [(OpCommit, r3); (OpRollback, rr)])
        with ([(OpBegin, @None error)] ++ ev1
              ++ [(OpCommit, r3); (OpRollback, rr)]).
      rewrite !bracket_app, !replay_app. split.
      * cbn [bracket fold_left bracket1] in *. rewrite Hb. reflexivity.
      * pose proof (Hr (replay [(OpBegin, None)] (mkLedger [] [])))
          as [Hk Hp].
        specialize (Hp eq_refl).
        destruct (replay ev1 (replay [(OpBegin, None)] (mkLedger [] [])))
          as [p k] eqn:El.
        cbn [kept pending replay fold_left replay1 app] in Hk, Hp.
        subst p k.
        destruct r3 as [e3 | ]; reflexivity.
  - destruct (applyMigrations (insertSQL migrationsTable) false migrations c)
      as [[r c1] ev1] eqn:E.
    cbn [fst snd].
    destruct (applyMigrations_owned _ _ _ _ _ _ E) as (Hb & Hk).
    split; [exact Hb | ].
    destruct (Hk (mkLedger [] [])) as (k & Hkept & Hcount & _).
    exists k. cbn [kept app] in Hkept. split; [exact Hkept | ].
    intros ->. exact Hcount.
Qed.

(** [ApplyMigrations] keeps the discipline of transactions, in both
    modes and whatever fails: every statement and every insertion runs
    inside a transaction, no transaction is begun inside another, nothing
    is committed without a transaction, and no transaction is left open
    at the end. *)
Theorem ApplyMigrations_bracketed migrationsTable inTx migrations (c : C) :
  bracket (snd (ApplyMigrations migrationsTable inTx migrations c))
          (Some false)
  = Some false.
Proof.
  unfold ApplyMigrations. destruct inTx.
  - destruct (dbBegin c) as [[e0 | ] c0]; [reflexivity | ].
    destruct (applyMigrations (insertSQL migrationsTable) true migrations c0)
      as [[r c1] ev1] eqn:E.
    destruct (applyMigrations_outer _ _ _ _ _ _ E) as (Hb & _).
    destruct r as [e | ].
    + destruct (txRollback c1) as [rr c2]. cbn [snd].
      change ((OpBegin, None) :: ev1 ++ [(OpRollback, rr)])
        with ([(OpBegin, @None error)] ++ ev1 ++ [(OpRollback, rr)]).
      rewrite !bracket_app. cbn [bracket fold_left bracket1] in *.
      rewrite Hb. reflexivity.
    + destruct (txCommit c1) as [r3 c3]. destruct (txRollback c3) as [rr c4].
      cbn [snd].
      change ((OpBegin, None) :: ev1 ++ [(OpCommit, r3); (OpRollback, rr)])
        with ([(OpBegin, @None error)] ++ ev1
              ++ [(OpCommit, r3); (OpRollback, rr)]).
      rewrite !bracket_app. cbn [bracket fold_left bracket1] in *.
      rewrite Hb. reflexivity.
  - destruct (applyMigrations (insertSQL migrationsTable) false migrations c)
      as [[r c1] ev1] eqn:E.
    cbn [snd]. exact (proj1 (applyMigrations_owned _ _ _ _ _ _ E)).
Qed.

(** In transaction mode the batch is all or nothing: one transaction is
    begun; when [ApplyMigrations] returns no error, the tracking table
    has gained the rows of all the migrations of the batch, in order, and
    every statement of the batch was executed, in order; when it returns
    an error (of a statement, of an insertion, of the commit, or of
    beginning the transaction) the tracking table has gained nothing. *)
Theorem ApplyMigrations_in_transaction migrationsTable migrations (c : C) :
  let result := fst (fst (ApplyMigrations migrationsTable true migrations c)) in
  let evs := snd (ApplyMigrations migrationsTable true migrations c) in
  List.length
    (filter isBegin evs)
  = 1%nat
  /\ match result with
     | None =>
         recorded evs = map rowOf migrations
         /\ executed evs = flat_map Statements migrations
     | Some _ =>
         recorded evs = []
         /\ exists rest, flat_map Statements migrations = executed evs ++ rest
     end.
Proof.
  cbv zeta. unfold ApplyMigrations, recorded.
  destruct (dbBegin c) as [[e0 | ] c0].
  { cbn [fst snd]. repeat split. exists (flat_map Statements migrations).
    reflexivity. }
  destruct (applyMigrations (insertSQL migrationsTable) true migrations c0)
    as [[r c1] ev1] eqn:E.
  destruct (applyMigrations_outer _ _ _ _ _ _ E)
    as (_ & Hf & Hr & rest & Hq & Hn).
  destruct r as [e | ].
  - destruct (txRollback c1) as [rr c2]. cbn [fst snd].
    change ((OpBegin, None) :: ev1 ++ [(OpRollback, rr)])
      with ([(OpBegin, @None error)] ++ ev1 ++ [(OpRollback, rr)]).
    rewrite !filter_app, Hf, !replay_app, !executed_app.
    repeat split.
    + unfold replay at 1. cbn [fold_left replay1 kept].
      exact (proj1 (Hr _)).
    + exists rest. cbn [executed flat_map app]. rewrite app_nil_r.
      exact Hq.
  - specialize (Hn eq_refl). subst rest. rewrite app_nil_r in Hq.
    destruct (txCommit c1) as [r3 c3]. destruct (txRollback c3) as [rr c4].
    cbn [fst snd].
    change ((OpBegin, None) :: ev1 ++ [(OpCommit, r3); (OpRollback, rr)])
      with ([(OpBegin, @None error)] ++ ev1
            ++ [(OpCommit, r3); (OpRollback, rr)]).
    rewrite !filter_app, Hf, !replay_app, !executed_app.
    split; [reflexivity | ].
    pose proof (Hr (replay [(OpBegin, None)] (mkLedger [] []))) as [Hk Hp].
    specialize (Hp eq_refl).
    destruct (replay ev1 (replay [(OpBegin, None)] (mkLedger [] [])))
      as [p k] eqn:El.
    cbn [kept pending replay fold_left replay1 app] in Hk, Hp. subst p k.
    destruct r3 as [e3 | ].
    + split; [reflexivity | ]. exists []. cbn [executed flat_map app].
      rewrite ?app_nil_r. exact Hq.
    + split; [reflexivity | ]. cbn [executed flat_map app].
      rewrite ?app_nil_r. symmetry. exact Hq.
Qed.

(** Without transaction mode the batch is applied one migration at a
    time, each in a transaction of its own, and stops at the first
    failure: the tracking table has gained the rows of the first [k]
    migrations, where [k] is the whole batch when no error is returned
    and fewer otherwise; and no statement of a migration after the one
    that failed was executed. *)
Theorem ApplyMigrations_one_by_one migrationsTable migrations (c : C) :
  let result :=
    fst (fst (ApplyMigrations migrationsTable false migrations c)) in
  let evs := snd (ApplyMigrations migrationsTable false migrations c) in
  exists k,
    recorded evs = map rowOf (firstn k migrations)
    /\ match result with
       | None => k = List.length migrations
       | Some _ => (k < List.length migrations)%nat
       end
    /\ exists rest,
         flat_map Statements (firstn (S k) migrations) = executed evs ++ rest
         /\ (result = None -> rest = []).
Proof.
  cbv zeta. unfold ApplyMigrations, recorded.
  destruct (applyMigrations (insertSQL migrationsTable) false migrations c)
    as [[r c1] ev1] eqn:E.
  cbn [fst snd].
  destruct (applyMigrations_owned _ _ _ _ _ _ E) as (_ & Hk).
  destruct (Hk (mkLedger [] [])) as (k & Hkept & Hcount & Hexec).
  exists k. cbn [kept app] in Hkept. auto.
Qed.

(** [scanRows] keeps the rows read so far in front. *)
Lemma scanRows_ok rows : forall migrations good times,
  rows = map Ok good ->
  Forall2 (fun row t => parseTime (rowAppliedAt row) = Ok t) good times ->
  scanRows rows migrations
  = Ok (migrations ++ map (fun p => ofRow (fst p) (snd p))
                          (combine good times)).
Proof.
  induction rows as [ | r rows IH]; intros migrations good times Hrows Hall.
  - destruct good; [ | discriminate]. inversion Hall; subst.
    cbn [scanRows combine map]. rewrite app_nil_r. reflexivity.
  - destruct good as [ | row good]; [discriminate | ].
    cbn [map] in Hrows. injection Hrows as -> Hrows.
    inversion Hall as [ | ? t ? times' Ht Hall']; subst.
    cbn [scanRows]. rewrite Ht.
    rewrite (IH _ good times' eq_refl Hall').
    cbn [combine map fst snd]. rewrite <- app_assoc. reflexivity.
Qed.

Lemma scanRows_error good : forall times migrations bad rest e,
  Forall2 (fun row t => parseTime (rowAppliedAt row) = Ok t) good times ->
  (bad = Err e
   \/ exists row, bad = Ok row /\ parseTime (rowAppliedAt row) = Err e) ->
  scanRows (map Ok good ++ bad :: rest) migrations = Err e.
Proof.
  induction good as [ | row good IH]; intros times migrations bad rest e
                                             Hall Hbad.
  - cbn [map app scanRows]. destruct Hbad as [-> | (row & -> & Hp)].
    + reflexivity.
    + rewrite Hp. reflexivity.
  - inversion Hall as [ | ? t ? times' Ht Hall']; subst.
    cbn [map app scanRows]. rewrite Ht. exact (IH _ _ _ _ _ Hall' Hbad).
Qed.

(** [SelectMigrations] returns one migration for each row of the query, in
    the order of the query, with the version, file name and hash of the
    row, the time parsed from it, and no statements; when a row cannot be
    scanned or its time cannot be parsed, it returns that error and no
    migration at all; and the error of the query itself as it is. *)
Theorem SelectMigrations_rows migrationsTable (c : C) :
  (forall c' good times,
     dbQuery (selectSQL migrationsTable) c = (Ok (map Ok good), c') ->
     Forall2 (fun row t => parseTime (rowAppliedAt row) = Ok t) good times ->
     let result := fst (fst (SelectMigrations migrationsTable c)) in
     result = Ok (map (fun p => ofRow (fst p) (snd p)) (combine good times))
     /\ forall ms, result = Ok ms ->
          map Version ms = map rowVersion good
          /\ map Hash ms = map rowHash good
          /\ Forall (fun m => Statements m = []) ms)
  /\ (forall c' good times bad rest e,
        dbQuery (selectSQL migrationsTable) c
        = (Ok (map Ok good ++ bad :: rest), c') ->
        Forall2 (fun row t => parseTime (rowAppliedAt row) = Ok t)
                good times ->
        (bad = Err e
         \/ exists row, bad = Ok row /\ parseTime (rowAppliedAt row) = Err e) ->
        fst (fst (SelectMigrations migrationsTable c)) = Err e)
  /\ (forall c' e,
        dbQuery (selectSQL migrationsTable) c = (Err e, c') ->
        fst (fst (SelectMigrations migrationsTable c)) = Err e).
Proof.
  unfold SelectMigrations. repeat split.
  - rewrite H. cbn [fst]. rewrite (scanRows_ok _ [] good times eq_refl H0).
    reflexivity.
  - rewrite H in H1. cbn [fst] in H1.
    rewrite (scanRows_ok _ [] good times eq_refl H0) in H1.
    cbn [app] in H1. injection H1 as <-.
    clear H. induction H0 as [ | row t good times _ _ IH]; [reflexivity | ].
    cbn [combine map fst snd Version ofRow]. rewrite IH. reflexivity.
  - rewrite H in H1. cbn [fst] in H1.
    rewrite (scanRows_ok _ [] good times eq_refl H0) in H1.
    cbn [app] in H1. injection H1 as <-.
    clear H. induction H0 as [ | row t good times _ _ IH]; [reflexivity | ].
    cbn [combine map fst snd Hash ofRow]. rewrite IH. reflexivity.
  - rewrite H in H1. cbn [fst] in H1.
    rewrite (scanRows_ok _ [] good times eq_refl H0) in H1.
    cbn [app] in H1. injection H1 as <-.
    clear H. induction H0 as [ | row t good times _ _ IH]; constructor.
    + reflexivity.
    + exact IH.
  - intros c' good times bad rest e H Hall Hbad. rewrite H. cbn [fst].
    exact (scanRows_error good times [] bad rest e Hall Hbad).
  - intros c' e H. rewrite H. reflexivity.
Qed.

End SqliteClaims.

(* ===================================================================== *)
(** ** The versions of the batch *)
(* ===================================================================== *)

Section BatchClaims.
Context {D V F : Type}
        {drv : DBDriver D} {qv : QueryValidator V} {fsys : FS F}.

(** When the consistency check passes, the applied migrations have the
    versions 1 to [len(applied)], and the batch left to apply continues
    them without a gap: its migration at index [i] has version
    [len(applied) + i + 1].  No applied version is applied again, and
    none is skipped. *)
Theorem Migrate_batch_versions (w w1 w2 w3 : World D V F)
        localMigrations appliedMigrations toApply :
  callCreateMigrationsTable w = (Ok tt, w1) ->
  readMigrations w1 = (Ok localMigrations, w2) ->
  callSelectMigrations w2 = (Ok appliedMigrations, w3) ->
  reconcile localMigrations appliedMigrations = Ok toApply ->
  Migrate w = applyPending toApply w3
  /\ (forall i a, nth_error appliedMigrations i = Some a ->
                  Version a = Z.of_nat i + 1)
  /\ (forall i m, nth_error toApply i = Some m ->
                  Version m
                  = Z.of_nat (List.length appliedMigrations + i) + 1)
  /\ (List.length appliedMigrations + List.length toApply
      = List.length localMigrations)%nat.
Proof.
  intros Hc Hr Hs Hrec.
  split.
  { rewrite (Migrate_after_loading _ _ _ _ _ _ Hc Hr Hs), Hrec.
    reflexivity. }
  assert (Hnth : forall i m, nth_error localMigrations i = Some m ->
                             Version m = Z.of_nat i + 1).
  { destruct (readMigrations_inv _ _ _ Hr)
      as (entries & files & raw & _ & _ & _ & Hsort & Hcheck & _).
    apply checkSequence_versions.
    - rewrite Hsort. apply sortSlice_ascending.
    - exact (readMigrations_range _ _ _ Hr).
    - exact Hcheck. }
  unfold reconcile in Hrec.
  destruct (Nat.ltb_spec (List.length localMigrations)
                         (List.length appliedMigrations)) as [ | Hlen];
    [discriminate | ].
  destruct (checkApplied appliedMigrations localMigrations) eqn:Echeck;
    [discriminate | ].
  injection Hrec as <-.
  pose proof (checkApplied_keys _ _ Echeck Hlen) as Hkeys.
  split; [ | split].
  - intros i a Ha.
    assert (Hi : (i < List.length appliedMigrations)%nat).
    { apply nth_error_Some. rewrite Ha. discriminate. }
    pose proof (map_nth_error key _ _ Ha) as Hk.
    rewrite Hkeys in Hk.
    destruct (nth_error (firstn (List.length appliedMigrations)
                                localMigrations) i) as [l | ] eqn:El.
    + rewrite (map_nth_error key _ _ El) in Hk.
      injection Hk as Hv _. rewrite <- Hv.
      rewrite nth_error_firstn in El.
      destruct (Nat.ltb_spec i (List.length appliedMigrations)); [ | lia].
      exact (Hnth i l El).
    + apply nth_error_None in El. rewrite length_firstn in El. lia.
  - intros i m Hm. rewrite nth_error_skipn in Hm.
    rewrite (Hnth _ m Hm). reflexivity.
  - rewrite length_skipn. lia.
Qed.

End BatchClaims.

(* ===================================================================== *)
(** ** [Migrate] over the SQLite driver *)
(* ===================================================================== *)

(** The method of the SQLite driver behind the interface. *)
Lemma sqliteDriver_ApplyMigrations {C : Type} {sql : Sqlite.SQL C}
      migrationsTable inTx migrations (d : @Sqlite.Conn C) :
  @ApplyMigrations (@Sqlite.Conn C) Sqlite.sqliteDriver
                   migrationsTable inTx migrations d
  = Sqlite.lift (Sqlite.ApplyMigrations migrationsTable inTx migrations) d.
Proof. reflexivity. Qed.

Section SqliteRunClaims.
Import Sqlite.
Context {C V F : Type}
        {sql : SQL C} {qv : QueryValidator V} {fsys : FS F}.

Lemma lift_events {A} (run : Run A) (d : @Conn C) :
  events (snd (lift run d)) = events d ++ snd (run (conn d))
  /\ fst (lift run d) = fst (fst (run (conn d))).
Proof.
  unfold lift. destruct (run (conn d)) as [[r c] evs]. split; reflexivity.
Qed.

(** A run of [Migrate] over the SQLite driver, from the selection of the
    applied migrations on, keeps the discipline of transactions; in
    transaction mode the tracking table gains the rows of the whole batch
    when [Migrate] succeeds and nothing when it fails, for whatever
    reason; without transaction mode it gains the rows of the first
    migrations of the batch, all of them when [Migrate] succeeds. *)
Theorem Migrate_sqlite_records (w w1 w2 w3 : World (@Conn C) V F)
        localMigrations appliedMigrations toApply :
  callCreateMigrationsTable w = (Ok tt, w1) ->
  readMigrations w1 = (Ok localMigrations, w2) ->
  callSelectMigrations w2 = (Ok appliedMigrations, w3) ->
  reconcile localMigrations appliedMigrations = Ok toApply ->
  exists evs,
    events (driver (mig (snd (Migrate w))))
    = events (driver (mig w3)) ++ evs
    /\ bracket evs (Some false) = Some false
    /\ if inTransaction (mig w)
       then recorded evs
            = match fst (Migrate w) with
              | Ok _ => map rowOf toApply
              | Err _ => []
              end
       else exists k,
              recorded evs = map rowOf (firstn k toApply)
              /\ (fst (Migrate w) = Ok tt -> k = List.length toApply).
Proof.
  intros Hc Hr Hs Hrec.
  rewrite (Migrate_after_loading _ _ _ _ _ _ Hc Hr Hs), Hrec.
  destruct (loading_calls _ _ _ _ _ _ Hc Hr Hs) as (Ht & Hx & _).
  assert (Hnone : exists evs,
            events (driver (mig w3)) = events (driver (mig w3)) ++ evs
            /\ bracket evs (Some false) = Some false
            /\ recorded evs = []).
  { exists []. rewrite app_nil_r. auto. }
  unfold applyPending.
  destruct toApply as [ | m toApply].
  { cbn [List.length Nat.eqb]. unfold ret. cbn [fst snd].
    destruct Hnone as (evs & He & Hb & Hrc). exists evs.
    split; [exact He | ]. split; [exact Hb | ].
    destruct (inTransaction (mig w)); [exact Hrc | ].
    exists 0%nat. cbn [firstn map]. auto. }
  cbn [List.length Nat.eqb]. unfold bind.
  destruct (forEach validate (m :: toApply) w3) as [r5 w5] eqn:E5.
  destruct (validateAll_quiet _ _ _ _ E5) as (Hd5 & Ht5 & Hx5 & _).
  destruct r5 as [[] | e5].
  - unfold callApplyMigrations. cbv zeta.
    rewrite sqliteDriver_ApplyMigrations.
    destruct (lift_events
                (ApplyMigrations (migrationsTable (mig w5))
                                 (inTransaction (mig w5)) (m :: toApply))
                (driver (mig w5))) as [Hev Hres].
    destruct (lift _ (driver (mig w5))) as [r d'].
    cbn [fst snd mig driver withDriver] in *.
    exists (snd (ApplyMigrations (migrationsTable (mig w5))
                                 (inTransaction (mig w5)) (m :: toApply)
                                 (conn (driver (mig w5))))).
    pose proof (ApplyMigrations_recorded
                  (migrationsTable (mig w5)) (inTransaction (mig w5))
                  (m :: toApply) (conn (driver (mig w5)))) as A.
    cbv zeta in A. destruct A as [Hb A].
    split; [rewrite Hev, Hd5; reflexivity | ].
    split; [exact Hb | ].
    rewrite Hx5, Hx in *. subst r.
    destruct (inTransaction (mig w)).
    + destruct (fst (fst (ApplyMigrations _ true (m :: toApply) _)))
        as [e | ]; cbn [ofError fst]; exact A.
    + destruct A as (k & Hk & Hcount).
      exists k. split; [exact Hk | ].
      destruct (fst (fst (ApplyMigrations _ false (m :: toApply) _)))
        as [e | ]; cbn [ofError fst]; [discriminate | auto].
  - cbn [fst snd]. exists []. rewrite app_nil_r.
    split; [rewrite Hd5; reflexivity | ]. split; [reflexivity | ].
    destruct (inTransaction (mig w)); [reflexivity | ].
    exists 0%nat. split; [reflexivity | discriminate].
Qed.

End SqliteRunClaims.

(* ===================================================================== *)
(** ** The properties above on the folders of the scenarios *)
(* ===================================================================== *)

Section CaseWitnesses.
Import Sqlite ScriptedSQL Cases.

(** A sub-folder listed before a file without [.sql]: the sub-folder
    decides, although its name ends in [.sql]. *)
Lemma listFiles_first_refused_witness :
  exists err,
    fst (listFiles "." (start emptyStore mixedFolder None)) = Err err
    /\ errorsIs err ErrMigrationFolder = true.
Proof.
  exact (listFiles_first_refused
           (start emptyStore mixedFolder None) "."
           [mkDirEntry "1_a.sql" false; mkDirEntry "archive.sql" true;
            mkDirEntry "notes.txt" false]
           eq_refl).
Defined.

(** The folder of two migrations listed the other way round. *)
Lemma readMigrations_complete_witness :
  fst (readMigrations (start emptyStore reversedFolder None))
  = Ok (sortSlice lessVersion (rev twoLocal))
  /\ map Version (sortSlice lessVersion (rev twoLocal)) = oneTo 2
  /\ Permutation (map Fname (sortSlice lessVersion (rev twoLocal)))
                 ["2_b.sql"; "1_a.sql"].
Proof.
  refine (readMigrations_complete
            (start emptyStore reversedFolder None)
            [mkDirEntry "2_b.sql" false; mkDirEntry "1_a.sql" false]
            ["2_b.sql"; "1_a.sql"] (rev twoLocal) eq_refl eq_refl _ _).
  - constructor; [ | constructor; [ | constructor]].
    + eexists 2, _. split; [reflexivity | ]. split; reflexivity.
    + eexists 1, _. split; [reflexivity | ]. split; reflexivity.
  - apply perm_swap.
Defined.


(** The folder with a gap: the store is asked to make the table and
    nothing more. *)
Lemma Migrate_read_error_witness :
  exists e,
    fst (readMigrations (afterCreate (start emptyStore gapFolder None)))
    = Err e
    /\ fst (Migrate (start emptyStore gapFolder None)) = Err e
    /\ filter isStoreCall
              (newCalls (start emptyStore gapFolder None)
                        (afterRead (start emptyStore gapFolder None)))
       = [CallCreateMigrationsTable "schema_migrations"].
Proof.
  destruct (Migrate_read_error
              (start emptyStore gapFolder None)
              (afterCreate (start emptyStore gapFolder None))
              (afterRead (start emptyStore gapFolder None))
              (wrapf ErrInvalidMigrationFile
                     "migrations must have sequential versions (1_x.sql - 3_y.sql)"))
    as (HM & Hstore & _).
  - vm_compute. reflexivity.
  - vm_compute. reflexivity.
  - eexists. split; [vm_compute; reflexivity | ].
    split; [rewrite HM; reflexivity | exact Hstore].
Defined.

(** A store on which applying fails: [Migrate] returns its error. *)
Lemma Migrate_store_results_witness :
  fst (Migrate (start failingApply demoFolder None))
  = Err (Foreign "apply error").
Proof.
  refine (proj2 (Migrate_store_results
                   (start failingApply demoFolder None)
                   (afterCreate (start failingApply demoFolder None))
                   (afterRead (start failingApply demoFolder None))
                   [m1] _ _)
                [] (afterSelect (start failingApply demoFolder None))
                [m1] (afterSelect (start failingApply demoFolder None))
                _ _ _ _).
  - vm_compute. reflexivity.
  - vm_compute. reflexivity.
  - vm_compute. reflexivity.
  - vm_compute. reflexivity.
  - discriminate.
  - vm_compute. reflexivity.
Defined.

(** Two runs over the store in memory: the first applies both migrations,
    the second none. *)
Lemma Migrate_rerun_is_noop_witness :
  driver (mig (snd (Migrate (startMem [] twoFolder)))) = map record twoLocal
  /\ fst (Migrate (snd (Migrate (startMem [] twoFolder)))) = Ok tt
  /\ filter isApply
            (newCalls (snd (Migrate (startMem [] twoFolder)))
                      (memSelected (snd (Migrate (startMem [] twoFolder)))))
     = [].
Proof.
  destruct (Migrate_rerun_is_noop
              (startMem [] twoFolder)
              (memCreated (startMem [] twoFolder))
              (memRead (startMem [] twoFolder))
              (memSelected (startMem [] twoFolder))
              (snd (Migrate (startMem [] twoFolder)))
              (memCreated (snd (Migrate (startMem [] twoFolder))))
              (memRead (snd (Migrate (startMem [] twoFolder))))
              (memSelected (snd (Migrate (startMem [] twoFolder))))
              twoLocal [] (map record twoLocal) (Ok twoLocal))
    as (HM & Happly & _).
  - vm_compute. reflexivity.
  - vm_compute. reflexivity.
  - vm_compute. reflexivity.
  - vm_compute. reflexivity.
  - vm_compute. reflexivity.
  - vm_compute. reflexivity.
  - vm_compute. reflexivity.
  - vm_compute. reflexivity.
  - split; [vm_compute; reflexivity | ].
    split; [rewrite HM; reflexivity | exact Happly].
Defined.

(** The file of the tests with a blank and a line feed before it and a
    carriage return and a line feed after it. *)
Lemma parseContent_ignores_padding_witness :
  parseContent 1 "1_demo.sql" paddedDemo = m1.
Proof.
  refine (eq_trans
            (parseContent_ignores_padding
               1 "1_demo.sql" [" "%char; ascii_of_nat 10]
               (list_ascii_of_string demoStatement)
               [ascii_of_nat 13; ascii_of_nat 10] _ _) _).
  - repeat (apply Bytes.spaceOnly_1; [reflexivity | ]).
    apply Bytes.spaceOnly_nil.
  - repeat (apply Bytes.spaceOnly_1; [reflexivity | ]).
    apply Bytes.spaceOnly_nil.
  - vm_compute. reflexivity.
Defined.

(** The two statements of [2_b.sql], joined again. *)
Lemma readMigrations_statements_cover_witness :
  Join ["CREATE TABLE b (id INT); "; " CREATE INDEX b_id ON b (id);"]
       separator
  = "CREATE TABLE b (id INT); -- migrate:next CREATE INDEX b_id ON b (id);".
Proof.
  refine (eq_trans _
           (eq_trans
             (readMigrations_statements_cover
                (start emptyStore twoFolder None)
                (snd (readMigrations (start emptyStore twoFolder None)))
                twoLocal (nth 1 twoLocal m1)
                (list_ascii_of_string
                   "CREATE TABLE b (id INT); -- migrate:next CREATE INDEX b_id ON b (id);")
                _ _ _) _)).
  - reflexivity.
  - vm_compute. reflexivity.
  - right. left. reflexivity.
  - reflexivity.
  - vm_compute. reflexivity.
Defined.

(** Leading zeros: [007_x.sql] has version 7. *)
Lemma parseVersion_decimal_witness :
  parseVersion "007_x.sql" = Ok 7.
Proof.
  refine (proj1 (parseVersion_decimal
                   ["0"%char; "0"%char; "7"%char] "x.sql" _ _) _).
  - discriminate.
  - reflexivity.
  - vm_compute. split; discriminate.
Defined.

(** Two table names, a system folder, then a [nil] embedded folder. *)
Lemma New_last_setting_wins_witness :
  New systemFS emptyStore (map (toOption statOf systemFS) goodSettings)
  = Returned (mkMigrator emptyStore "b" "migrations" None true).
Proof.
  refine (New_last_setting_wins statOf systemFS emptyStore goodSettings _).
  repeat (apply Forall_cons || apply Forall_nil);
    cbn [accepted]; try exact I; try discriminate; reflexivity.
Defined.

(** A root that is a file, before an empty table name: the root
    decides. *)
Lemma New_panics_on_first_refusal_witness :
  exists e,
    New systemFS emptyStore
        (map (toOption statOf systemFS)
             [SetInTransaction; SetSystemFS "README.md";
              @SetMigrationTable Rejecting string EmptyString])
    = Panicked e
    /\ errorsIs e ErrMigrationFolder = true.
Proof.
  refine (New_panics_on_first_refusal
            statOf systemFS emptyStore
            [SetInTransaction] (SetSystemFS "README.md")
            [SetMigrationTable EmptyString] _ _).
  - repeat (apply Forall_cons || apply Forall_nil). exact I.
  - cbn [accepted]. discriminate.
Defined.

(** Two local migrations, the first applied: the batch starts at
    version 2. *)
Lemma Migrate_batch_versions_witness :
  Version (nth 0 (firstn 1 twoLocal) m1) = 1
  /\ Version (nth 0 (skipn 1 twoLocal) m1) = 2.
Proof.
  destruct (Migrate_batch_versions
              (start oneApplied twoFolder None)
              (afterCreate (start oneApplied twoFolder None))
              (afterRead (start oneApplied twoFolder None))
              (afterSelect (start oneApplied twoFolder None))
              twoLocal (firstn 1 twoLocal) (skipn 1 twoLocal))
    as (_ & Happlied & Hbatch & _).
  - vm_compute. reflexivity.
  - vm_compute. reflexivity.
  - vm_compute. reflexivity.
  - vm_compute. reflexivity.
  - split.
    + exact (Happlied 0%nat (nth 0 (firstn 1 twoLocal) m1) eq_refl).
    + exact (Hbatch 0%nat (nth 0 (skipn 1 twoLocal) m1) eq_refl).
Defined.

(** In transaction mode, on a database that cannot create the index of
    [2_b.sql]: the run fails and the tracking table gains nothing, not
    even the row of [1_a.sql]. *)
Lemma Migrate_sqlite_records_witness :
  exists evs,
    events (driver (mig (snd (Migrate (startSql noIndex twoFolder true)))))
    = events (driver (mig (sqlSelected (startSql noIndex twoFolder true))))
      ++ evs
    /\ bracket evs (Some false) = Some false
    /\ recorded evs = [].
Proof.
  destruct (Migrate_sqlite_records
              (startSql noIndex twoFolder true)
              (sqlCreated (startSql noIndex twoFolder true))
              (sqlRead (startSql noIndex twoFolder true))
              (sqlSelected (startSql noIndex twoFolder true))
              twoLocal [] twoLocal)
    as (evs & Hev & Hb & Hrec).
  - vm_compute. reflexivity.
  - vm_compute. reflexivity.
  - vm_compute. reflexivity.
  - vm_compute. reflexivity.
  - exists evs. split; [exact Hev | ]. split; [exact Hb | ].
    change (inTransaction (mig (startSql noIndex twoFolder true)))
      with true in Hrec.
    assert (Hf : fst (Migrate (startSql noIndex twoFolder true))
                 = Err (Foreign "sql error")) by (vm_compute; reflexivity).
    rewrite Hf in Hrec. exact Hrec.
Defined.

(** A folder that cannot be listed; and a folder whose second file
    cannot be read: the third is not read. *)
Lemma readMigrations_fs_errors_witness :
  readMigrations (startFlaky unlistable)
  = (Err (Foreign "permission denied"),
     mkWorld (mig (startFlaky unlistable)) [CallReadDir "."])
  /\ readMigrations (startFlaky vanishing)
     = (Err (Foreign "file does not exist"),
        mkWorld (mig (startFlaky vanishing))
                [CallReadDir "."; CallReadFile "1_a.sql";
                 CallReadFile "2_b.sql"]).
Proof.
  split.
  - exact (proj1 (readMigrations_fs_errors
                    (startFlaky unlistable) (Foreign "permission denied"))
                 eq_refl).
  - refine (proj2 (readMigrations_fs_errors
                     (startFlaky vanishing) (Foreign "file does not exist"))
                  [mkDirEntry "1_a.sql" false; mkDirEntry "2_b.sql" false;
                   mkDirEntry "3_c.sql" false]
                  ["1_a.sql"] "2_b.sql" ["3_c.sql"]
                  [parseContent 1 "1_a.sql"
                     (list_ascii_of_string "CREATE TABLE a (id INT);")]
                  2 eq_refl eq_refl _ eq_refl eq_refl).
    constructor; [ | constructor].
    eexists 1, _. split; [reflexivity | ]. split; reflexivity.
Defined.

(** A tracking table of two rows; and one whose second row has a time
    that cannot be parsed: no migration is returned, not even the
    first. *)
Lemma SelectMigrations_rows_witness :
  fst (fst (Sqlite.SelectMigrations "schema_migrations" twoRows))
  = Ok [mkMigration 1 "1_a.sql" (Some 0) [] "aa";
        mkMigration 2 "2_b.sql" (Some 0) [] "bb"]
  /\ fst (fst (Sqlite.SelectMigrations "schema_migrations" badRow))
     = Err (Foreign "cannot parse time").
Proof.
  split.
  - refine (proj1 (proj1 (SelectMigrations_rows "schema_migrations" twoRows)
                         twoRows [rowA; rowB] [0; 0] eq_refl _)).
    repeat constructor.
  - refine (proj1 (proj2 (SelectMigrations_rows "schema_migrations" badRow))
                  badRow [rowA] [0] (Ok rowNoTime) [Ok rowB]
                  (Foreign "cannot parse time") eq_refl _ _).
    + repeat constructor.
    + right. exists rowNoTime. split; reflexivity.
Defined.

End CaseWitnesses.
